(** * opencode-database-plugin: event correlation, merge protocol and health gate

    A shallow embedding of [src/db.ts] (the health gate around the Store)
    and of [src/index.ts] (the event handlers of the plugin), with the
    statements the handlers send to PostgreSQL given a semantics over the
    relations of [src/sql/schema.sql].

    Conventions of the embedding.
    - A JavaScript [number] that the code uses as a count, a rank or a
      timestamp in milliseconds is a [Z] (the failure counter, which is
      only ever incremented from zero, is a [nat]). The one [number] that
      is an amount, the cost of a part, is the finite decimal its text
      denotes ([Num.t]): that text is what reaches PostgreSQL. [NaN] and
      the infinities are not taken as costs.
    - A string is the UTF-8 text PostgreSQL stores, byte by byte, so
      [LENGTH] counts the bytes that start a character.
    - An optional field ([x?: T]) and a nullable column are [option].
      JavaScript truthiness ([a || b], [if (a)]) is written out: the empty
      string is falsy, so [s || null] sends [""] to [None].
    - A [Map] is a [gmap]; a keyed relation (primary key [id]) is a [gmap]
      from the key to its row, an append-only relation is a [list] of rows
      in insertion order.
    - The foreign keys of the schema are enforced: an [INSERT] whose
      parent row is missing raises, and so does a cost that does not fit
      [NUMERIC(10, 6)]. A statement that raises changes nothing, the
      statements of its task that come after it are never sent, and the
      rejection goes to [safeQuery] and to the [onError] of the task.
      [ON DELETE CASCADE] is part of the delete.
    - The columns filled by the server clock ([created_at], [updated_at],
      [deleted_at]: [DEFAULT NOW()], [NOW()] and the [updated_at] trigger)
      carry no value computed by the plugin and are left out of the rows.
      Counters are taken to stay within [INTEGER], and a stored cost is
      the number of units of [10^-6] of a value of its column.
    - A task handed to [fireAndForget] runs to its end where it is
      dispatched, so the tasks of a hook, and of successive hooks, reach
      the Store in dispatch order.
    - Within one run of a hook every reading of the clock gives the same
      instant. *)

From Stdlib Require Import ZArith Lia Bool.
From stdpp Require Import base option list strings gmap fin_maps pretty.

Local Open Scope string_scope.
Local Open Scope Z_scope.

(** ** JavaScript values *)

(** [a || null] on an optional string: absent and empty are both falsy. *)
Definition or_null (a : option string) : option string :=
  match a with
  | Some "" => None
  | Some s => Some s
  | None => None
  end.

(** Truthiness of an optional string ([if (s)]). *)
Definition truthy (a : option string) : bool :=
  match or_null a with Some _ => true | None => false end.

(** [a || b] where [b] is itself nullable. *)
Definition or_else (a b : option string) : option string :=
  match or_null a with Some s => Some s | None => b end.

(** [a || d] with a string default. *)
Definition or_default (a : option string) (d : string) : string :=
  match or_null a with Some s => s | None => d end.

(** [a ?? 0] on an optional number. *)
Definition nullish0 (a : option Z) : Z := default 0 a.

(** [String.prototype.includes]. *)
Fixpoint includes (s sub : string) : bool :=
  if String.prefix sub s then true
  else match s with
       | EmptyString => false
       | String _ s' => includes s' sub
       end.

(** SQL [COALESCE(a, b)]. *)
Definition COALESCE {A} (a b : option A) : option A :=
  match a with Some _ => a | None => b end.

(** The characters a string literal cannot hold. *)
Definition dquote : string := String (Ascii.ascii_of_nat 34) "".
Definition backslash : string := String (Ascii.ascii_of_nat 92) "".

(** A finite JavaScript [number] as the decimal its text denotes:
    [coefficient * 10 ^ exponent] ([0.0015] is [15 * 10 ^ -4], and [1e-7]
    is [1 * 10 ^ -7]). *)
Module Num.
Record t := mk {
  coefficient : Z;
  exponent : Z
}.

Definition of_Z (n : Z) : t := {| coefficient := n; exponent := 0 |}.

(** [!x]: zero is the falsy number. *)
Definition is_zero (x : t) : bool := coefficient x =? 0.
End Num.

(** [JSON.stringify] of a string: the text between double quotes, with
    the quote and the backslash escaped, the control characters written
    as [\b], [\t], [\n], [\f], [\r] or [\u00XX], and every other
    byte as it is. *)
Module JSON.

(** The hexadecimal digit of [n < 16], in lower case. *)
Definition hex_digit (n : nat) : Ascii.ascii :=
  Ascii.ascii_of_nat (if Nat.ltb n 10 then 48 + n else 87 + n).

Definition escape (a : Ascii.ascii) : string :=
  let n := Ascii.nat_of_ascii a in
  if Nat.eqb n 34 then backslash +:+ dquote
  else if Nat.eqb n 92 then backslash +:+ backslash
  else if Nat.eqb n 8 then backslash +:+ "b"
  else if Nat.eqb n 9 then backslash +:+ "t"
  else if Nat.eqb n 10 then backslash +:+ "n"
  else if Nat.eqb n 12 then backslash +:+ "f"
  else if Nat.eqb n 13 then backslash +:+ "r"
  else if Nat.ltb n 32 then
    backslash +:+ "u00"
      +:+ String (hex_digit (Nat.div n 16)) (String (hex_digit (Nat.modulo n 16)) "")
  else String a "".

Fixpoint escaped (s : string) : string :=
  match s with
  | EmptyString => ""
  | String a s' => escape a +:+ escaped s'
  end.

Definition stringify (s : string) : string := dquote +:+ escaped s +:+ dquote.

End JSON.

(** ** The health gate ([src/db.ts]) *)

Module Db.

Definition MAX_BACKOFF_MS : Z := 60000.
Definition BASE_BACKOFF_MS : Z := 1000.

(** The two module-level variables of [db.ts]. *)
Record Health := mkHealth {
  consecutiveFailures : nat;
  lastFailureTime : Z
}.

(** [Math.min(BASE_BACKOFF_MS * Math.pow(2, consecutiveFailures - 1),
    MAX_BACKOFF_MS)]. The doubles of the source agree with the integers
    here: the product is exact while finite, and once it overflows to
    [Infinity] the minimum is [MAX_BACKOFF_MS] all the same. *)
Definition backoffMs (h : Health) : Z :=
  Z.min (BASE_BACKOFF_MS * 2 ^ (Z.of_nat (consecutiveFailures h) - 1))
        MAX_BACKOFF_MS.

(** [now] is the value of [Date.now()] at the call. *)
Definition isDatabaseHealthy (now : Z) (h : Health) : bool :=
  if Nat.eqb (consecutiveFailures h) 0 then true
  else
    let timeSinceFailure := now - lastFailureTime h in
    backoffMs h <=? timeSinceFailure.

Definition markHealthy : Health :=
  {| consecutiveFailures := 0; lastFailureTime := 0 |}.

Definition markUnhealthy (now : Z) (h : Health) : Health :=
  {| consecutiveFailures := S (consecutiveFailures h);
     lastFailureTime := now |}.

(** A thrown value: whether it is an [Error] instance, and its message. *)
Record Thrown := mkThrown {
  isError : bool;
  message : string
}.

(** [ensureConnection]: the probe [SELECT 1], awaited; [probe] is what
    its promise settles to. *)
Definition ensureConnection (probe : unit + Thrown) (now : Z) (h : Health)
    : bool * Health :=
  match probe with
  | inl _ => (true, markHealthy)
  | inr _ => (false, markUnhealthy now h)
  end.

(** How the promise returned by [queryFn()] stands when the race of
    [safeQuery] is decided: settled in time, or still pending when the
    timer fires. *)
Inductive Outcome (T : Type) :=
| Fulfilled (v : T)
| Rejected (e : Thrown)
| Pending.
Arguments Fulfilled {T} v.
Arguments Rejected {T} e.
Arguments Pending {T}.

(** [Promise.race([queryFn(), timer])]: the timer rejects with
    [new Error("Query timeout")]. *)
Definition race {T} (o : Outcome T) : T + Thrown :=
  match o with
  | Fulfilled v => inl v
  | Rejected e => inr e
  | Pending => inr {| isError := true; message := "Query timeout" |}
  end.

(** The signature test of the [catch] block of [safeQuery]. *)
Definition isConnectivityError (e : Thrown) : bool :=
  isError e &&
  (includes (message e) "connection"
   || includes (message e) "timeout"
   || includes (message e) "ECONNREFUSED"
   || includes (message e) "ENOTFOUND"
   || includes (message e) "ETIMEDOUT").

(** What the promise of [safeQuery] settles to: a value, [undefined]
    ([Returned None]), or the rethrown error. *)
Inductive SafeResult (T : Type) :=
| Returned (v : option T)
| Threw (e : Thrown).
Arguments Returned {T} v.
Arguments Threw {T} e.

Section Gate.
(** [W] is whatever the operation acts on; [queryFn] is the operation,
    run against it. *)
Context {W T : Type}.

(** [now] is the clock at the health check, [later] the clock when a
    failure is recorded. *)
Definition safeQuery (queryFn : W -> Outcome T * W) (now later : Z)
    (h : Health) (w : W) : SafeResult T * Health * W :=
  if negb (isDatabaseHealthy now h) then (Returned None, h, w)
  else
    let '(o, w') := queryFn w in
    match race o with
    | inl result => (Returned (Some result), markHealthy, w')
    | inr error =>
        (Threw error,
         if isConnectivityError error then markUnhealthy later h else h,
         w')
    end.

(** [safeQuery(queryFn).catch(e => onError?.(e))]. *)
Definition fireAndForget (queryFn : W -> Outcome T * W)
    (onError : option (Thrown -> W -> W)) (now later : Z)
    (h : Health) (w : W) : Health * W :=
  let '(r, h', w') := safeQuery queryFn now later h w in
  match r with
  | Returned _ => (h', w')
  | Threw e =>
      match onError with
      | Some f => (h', f e w')
      | None => (h', w')
      end
  end.
End Gate.

End Db.

(** ** JSON values and the [jsonb] operators the statements use *)

#[local] Set Warnings "-register-all".

(** A [jsonb] value. An object is a finite map: [jsonb] keeps one value
    per key and no key order. *)
Inductive json :=
| JNull
| JBool (b : bool)
| JNum (n : Num.t)
| JStr (s : string)
| JArr (l : list json)
| JObj (fields : gmap string json).

(** A whole number as a [jsonb] value. *)
Definition JInt (n : Z) : json := JNum (Num.of_Z n).

Module Jsonb.

(** [j -> 'k']: the member [k] of an object, SQL NULL otherwise. *)
Definition get (j : option json) (k : string) : option json :=
  match j with
  | Some (JObj fields) => fields !! k
  | _ => None
  end.

(** [(j ->> 'k') IS NULL]. The text of a member is NULL when the member
    is missing and when it is the JSON [null]. *)
Definition text_is_null (j : option json) (k : string) : bool :=
  match get j k with
  | None | Some JNull => true
  | Some _ => false
  end.

(** [j ->> 'k' = word] for a word of letters: the text of a member is
    such a word only when the member is that JSON string (numbers,
    booleans, arrays and objects print as something else). *)
Definition text_is (j : option json) (k : string) (word : string) : bool :=
  match get j k with
  | Some (JStr s) => bool_decide (s = word)
  | _ => false
  end.

(** [jsonb_set(target, '{state,output}', v)]: the last step of the path
    is created when missing, an earlier step is not, so a target
    without an object under [state] comes back as it is. *)
Definition set_state_output (target : json) (v : json) : json :=
  match target with
  | JObj fields =>
      match fields !! "state" with
      | Some (JObj st) => JObj (<["state" := JObj (<["output" := v]> st)]> fields)
      | _ => target
      end
  | _ => target
  end.

(** Building an object as [JSON.stringify] does: a property whose value
    is [undefined] is left out. *)
Definition field (k : string) (v : option json) (o : gmap string json)
    : gmap string json :=
  match v with
  | Some j => <[k := j]> o
  | None => o
  end.

End Jsonb.

(** ** The relations of [sql/schema.sql] *)

(** SQL [a + k] on a nullable integer column. *)
Definition sql_add (a : option Z) (k : Z) : option Z := (λ x, x + k) <$> a.

(** SQL [GREATEST(a, b)]: NULL arguments are ignored. *)
Definition GREATEST (a b : option Z) : option Z :=
  match a, b with
  | Some x, Some y => Some (Z.max x y)
  | Some x, None => Some x
  | None, _ => b
  end.

(** A byte that starts a character of a UTF-8 text: every byte but the
    continuation bytes [10xxxxxx]. *)
Definition starts_character (a : Ascii.ascii) : bool :=
  let n := Ascii.nat_of_ascii a in
  Nat.ltb n 128 || Nat.leb 192 n.

(** SQL [LENGTH(s)] on a text: its number of characters. *)
Fixpoint LENGTH (s : string) : Z :=
  match s with
  | EmptyString => 0
  | String a s' => (if starts_character a then 1 else 0) + LENGTH s'
  end.

(** [NUMERIC(10, 6)]: a value is held as its number of units of [10^-6]
    and is less than [10^4] in absolute value. *)
Module Numeric.

(** [x * 10^6] as a fraction: numerator and positive denominator. *)
Definition scaled (x : Num.t) : Z * Z :=
  let e := Num.exponent x + 6 in
  if 0 <=? e then (Num.coefficient x * 10 ^ e, 1)
  else (Num.coefficient x, 10 ^ (- e)).

(** [n / d] rounded to the nearest integer, ties away from zero. *)
Definition round (n d : Z) : Z :=
  if 0 <=? n then (2 * n + d) / (2 * d)
  else - ((2 * (- n) + d) / (2 * d)).

(** [stored + x], rounded to the scale of the column. *)
Definition add (stored : Z) (x : Num.t) : Z :=
  let '(n, d) := scaled x in round (stored * d + n) d.

Definition fits (v : Z) : bool := Z.abs v <? 10 ^ 10.

End Numeric.

Module Sessions.
Record row := mk {
  project_id : option string;
  parent_id : option string;
  directory : option string;
  title : option string;
  status : option string;
  model_provider : option string;
  model_id : option string;
  share_url : option string;
  input_tokens : option Z;
  output_tokens : option Z;
  cache_read_tokens : option Z;
  cache_write_tokens : option Z;
  reasoning_tokens : option Z;
  context_tokens : option Z;
  peak_context_tokens : option Z;
  (** [NUMERIC(10, 6)], counted in units of [10^-6] *)
  estimated_cost : option Z;
  compaction_count : option Z
}.

(** A row inserted with only [status] given: the counters take their
    [DEFAULT 0], the other columns are NULL. *)
Definition fresh (st : option string) : row :=
  {| project_id := None; parent_id := None; directory := None;
     title := None; status := st;
     model_provider := None; model_id := None; share_url := None;
     input_tokens := Some 0; output_tokens := Some 0;
     cache_read_tokens := Some 0; cache_write_tokens := Some 0;
     reasoning_tokens := Some 0; context_tokens := Some 0;
     peak_context_tokens := Some 0; estimated_cost := Some 0;
     compaction_count := Some 0 |}.
End Sessions.

Module Messages.
Record row := mk {
  session_id : string;
  role : string;
  model_provider : option string;
  model_id : option string;
  text : option string;
  summary : option string;
  content : option json;
  system_prompt : option string
}.
End Messages.

Module MessageParts.
Record row := mk {
  message_id : string;
  part_type : string;
  tool_name : option string;
  text : option string;
  content : option json
}.
End MessageParts.

Module ToolExecutions.
Record row := mk {
  started_at : option Z;
  completed_at : option Z;
  session_id : string;
  correlation_id : string;
  tool_name : string;
  args : option json;
  result : option json;
  duration_ms : option Z;
  success : option bool;
  error : option string
}.
End ToolExecutions.

Module SessionErrors.
Record row := mk {
  session_id : string;
  error_type : option string;
  error_message : option string;
  error_data : option json
}.
End SessionErrors.

Module Commands.
Record row := mk {
  session_id : string;
  command_name : string;
  command_args : option string
}.
End Commands.

Module Compactions.
Record row := mk {
  session_id : string;
  context_tokens_before : Z;
  cumulative_input_tokens : Z;
  cumulative_output_tokens : Z;
  cumulative_cache_read : Z;
  cumulative_cache_write : Z;
  cumulative_reasoning : Z;
  cumulative_cost : Z
}.
End Compactions.

(** The Store: the three relations with a supplied primary key are maps
    from the key, the four with a generated key are lists. *)
Record Store := mkStore {
  sessions : gmap string Sessions.row;
  messages : gmap string Messages.row;
  message_parts : gmap string MessageParts.row;
  tool_executions : list ToolExecutions.row;
  session_errors : list SessionErrors.row;
  commands : list Commands.row;
  compactions : list Compactions.row
}.

Definition empty_store : Store :=
  {| sessions := ∅; messages := ∅; message_parts := ∅;
     tool_executions := []; session_errors := []; commands := [];
     compactions := [] |}.

(** ** The statements of [src/index.ts] and what they do to the Store *)

Module Sql.

(** One constructor per SQL statement of [index.ts], with the values the
    template interpolates. *)
Inductive Stmt :=
(* session.created *)
| SessionUpsert (id : string) (title parent_id project_id directory : option string)
(* session.updated *)
| SessionUpdate (id : string) (title share_url : option string)
(* session.deleted *)
| SessionMarkDeleted (id : string)
(* session.idle *)
| SessionMarkIdle (id : string)
(* session.error *)
| SessionErrorInsert (session_id : string) (error_type : string)
    (error_message : option string) (error_data : option json)
| SessionMarkError (id : string)
(* session.compacted *)
| CompactionInsert (r : Compactions.row)
| SessionCompact (id : string)
(* message.updated *)
| SessionTouch (id : string)
| MessageUpsert (id session_id role : string)
    (model_provider model_id text summary : option string)
    (content : option json) (system_prompt : option string)
| SessionAddTokens (id : string)
    (inputTokens outputTokens reasoningTokens cacheRead cacheWrite contextSize : Z)
    (model_provider model_id : option string)
(* message.removed *)
| MessageDelete (id : string)
(* message.part.updated *)
| SessionAddCost (id : string) (cost : Num.t)
| MessageEnsure (id session_id : string)
| SessionEnsure (id : string)
| PartInsert (id message_id part_type : string) (tool_name text : option string)
    (content : json)
| PartUpdateText (id : string) (tool_name : option string) (text : string)
    (content : json)
| PartUpdateStatus (id : string) (tool_name text : option string)
    (content : json) (currentPriority : Z)
| MessageUpdateText (id : string) (text : string)
(* message.part.removed *)
| PartDelete (id : string)
(* command.executed *)
| CommandInsert (session_id command_name : string) (command_args : option string)
(* chat.message *)
| SessionMarkActive (id : string)
(* tool.execute.before *)
| ToolExecutionStart (correlation_id session_id tool_name : string)
    (args : option json) (started_at : Z)
(* tool.execute.after *)
| ToolExecutionComplete (correlation_id : string) (result : option json)
    (completed_at duration_ms : Z)
| ToolExecutionOrphan (correlation_id session_id tool_name : string)
    (args result : option json) (completed_at : Z)
| PartSetOutput (id : string) (outputJson : json).

(** [UPDATE t SET ... WHERE id = k AND cond]: the row under [k], when
    there is one and it satisfies [cond], is replaced by [f] of it. *)
Definition update_where {R} (k : string) (cond : R → bool) (f : R → R)
    (t : gmap string R) : gmap string R :=
  match t !! k with
  | Some r => if cond r then <[k := f r]> t else t
  | None => t
  end.

(** [INSERT ... ON CONFLICT (id) DO UPDATE]: insert [r] when the key is
    free, else replace the row by [f] of it. *)
Definition upsert {R} (k : string) (r : R) (f : R → R)
    (t : gmap string R) : gmap string R :=
  match t !! k with
  | Some old => <[k := f old]> t
  | None => <[k := r]> t
  end.

Definition always {R} (_ : R) : bool := true.

(** [CASE (content->'state'->>'status') WHEN 'pending' THEN 1 WHEN
    'running' THEN 2 WHEN 'completed' THEN 3 WHEN 'error' THEN 3 ELSE 0
    END], inside [COALESCE(_, 0)]. *)
Definition stored_rank (content : option json) : Z :=
  let state := Jsonb.get content "state" in
  if Jsonb.text_is state "status" "pending" then 1
  else if Jsonb.text_is state "status" "running" then 2
  else if Jsonb.text_is state "status" "completed" then 3
  else if Jsonb.text_is state "status" "error" then 3
  else 0.

(** [text IS NULL OR LENGTH(text) < LENGTH(new)]. *)
Definition shorter_than (stored : option string) (new : string) : bool :=
  match stored with
  | None => true
  | Some old => LENGTH old <? LENGTH new
  end.

Definition on_sessions (f : gmap string Sessions.row → gmap string Sessions.row)
    (s : Store) : Store :=
  {| sessions := f (sessions s); messages := messages s;
     message_parts := message_parts s; tool_executions := tool_executions s;
     session_errors := session_errors s; commands := commands s;
     compactions := compactions s |}.

Definition on_messages (f : gmap string Messages.row → gmap string Messages.row)
    (s : Store) : Store :=
  {| sessions := sessions s; messages := f (messages s);
     message_parts := message_parts s; tool_executions := tool_executions s;
     session_errors := session_errors s; commands := commands s;
     compactions := compactions s |}.

Definition on_message_parts
    (f : gmap string MessageParts.row → gmap string MessageParts.row)
    (s : Store) : Store :=
  {| sessions := sessions s; messages := messages s;
     message_parts := f (message_parts s); tool_executions := tool_executions s;
     session_errors := session_errors s; commands := commands s;
     compactions := compactions s |}.

Definition on_tool_executions
    (f : list ToolExecutions.row → list ToolExecutions.row) (s : Store) : Store :=
  {| sessions := sessions s; messages := messages s;
     message_parts := message_parts s; tool_executions := f (tool_executions s);
     session_errors := session_errors s; commands := commands s;
     compactions := compactions s |}.

Definition set_status (st : string) (r : Sessions.row) : Sessions.row :=
  {| Sessions.project_id := Sessions.project_id r;
     Sessions.parent_id := Sessions.parent_id r;
     Sessions.directory := Sessions.directory r;
     Sessions.title := Sessions.title r;
     Sessions.status := Some st;
     Sessions.model_provider := Sessions.model_provider r;
     Sessions.model_id := Sessions.model_id r;
     Sessions.share_url := Sessions.share_url r;
     Sessions.input_tokens := Sessions.input_tokens r;
     Sessions.output_tokens := Sessions.output_tokens r;
     Sessions.cache_read_tokens := Sessions.cache_read_tokens r;
     Sessions.cache_write_tokens := Sessions.cache_write_tokens r;
     Sessions.reasoning_tokens := Sessions.reasoning_tokens r;
     Sessions.context_tokens := Sessions.context_tokens r;
     Sessions.peak_context_tokens := Sessions.peak_context_tokens r;
     Sessions.estimated_cost := Sessions.estimated_cost r;
     Sessions.compaction_count := Sessions.compaction_count r |}.

(** The four columns of the [DO UPDATE] of [session.created]. *)
Definition coalesce_created (title parent_id project_id directory : option string)
    (r : Sessions.row) : Sessions.row :=
  {| Sessions.project_id := COALESCE project_id (Sessions.project_id r);
     Sessions.parent_id := COALESCE parent_id (Sessions.parent_id r);
     Sessions.directory := COALESCE directory (Sessions.directory r);
     Sessions.title := COALESCE title (Sessions.title r);
     Sessions.status := Sessions.status r;
     Sessions.model_provider := Sessions.model_provider r;
     Sessions.model_id := Sessions.model_id r;
     Sessions.share_url := Sessions.share_url r;
     Sessions.input_tokens := Sessions.input_tokens r;
     Sessions.output_tokens := Sessions.output_tokens r;
     Sessions.cache_read_tokens := Sessions.cache_read_tokens r;
     Sessions.cache_write_tokens := Sessions.cache_write_tokens r;
     Sessions.reasoning_tokens := Sessions.reasoning_tokens r;
     Sessions.context_tokens := Sessions.context_tokens r;
     Sessions.peak_context_tokens := Sessions.peak_context_tokens r;
     Sessions.estimated_cost := Sessions.estimated_cost r;
     Sessions.compaction_count := Sessions.compaction_count r |}.

(** The [SET] list of [session.updated]. *)
Definition coalesce_updated (title share_url : option string)
    (r : Sessions.row) : Sessions.row :=
  {| Sessions.project_id := Sessions.project_id r;
     Sessions.parent_id := Sessions.parent_id r;
     Sessions.directory := Sessions.directory r;
     Sessions.title := COALESCE title (Sessions.title r);
     Sessions.status := Sessions.status r;
     Sessions.model_provider := Sessions.model_provider r;
     Sessions.model_id := Sessions.model_id r;
     Sessions.share_url := COALESCE share_url (Sessions.share_url r);
     Sessions.input_tokens := Sessions.input_tokens r;
     Sessions.output_tokens := Sessions.output_tokens r;
     Sessions.cache_read_tokens := Sessions.cache_read_tokens r;
     Sessions.cache_write_tokens := Sessions.cache_write_tokens r;
     Sessions.reasoning_tokens := Sessions.reasoning_tokens r;
     Sessions.context_tokens := Sessions.context_tokens r;
     Sessions.peak_context_tokens := Sessions.peak_context_tokens r;
     Sessions.estimated_cost := Sessions.estimated_cost r;
     Sessions.compaction_count := Sessions.compaction_count r |}.

(** The [SET] list of [session.compacted]; every right-hand side reads
    the row as it was. *)
Definition compact (r : Sessions.row) : Sessions.row :=
  {| Sessions.project_id := Sessions.project_id r;
     Sessions.parent_id := Sessions.parent_id r;
     Sessions.directory := Sessions.directory r;
     Sessions.title := Sessions.title r;
     Sessions.status := Some "compacted";
     Sessions.model_provider := Sessions.model_provider r;
     Sessions.model_id := Sessions.model_id r;
     Sessions.share_url := Sessions.share_url r;
     Sessions.input_tokens := Sessions.input_tokens r;
     Sessions.output_tokens := Sessions.output_tokens r;
     Sessions.cache_read_tokens := Sessions.cache_read_tokens r;
     Sessions.cache_write_tokens := Sessions.cache_write_tokens r;
     Sessions.reasoning_tokens := Sessions.reasoning_tokens r;
     Sessions.context_tokens := Some 0;
     Sessions.peak_context_tokens :=
       GREATEST (Sessions.peak_context_tokens r) (Sessions.context_tokens r);
     Sessions.estimated_cost := Sessions.estimated_cost r;
     Sessions.compaction_count := sql_add (Sessions.compaction_count r) 1 |}.

(** The [SET] list of the token update of [message.updated]. *)
Definition add_tokens
    (inputTokens outputTokens reasoningTokens cacheRead cacheWrite contextSize : Z)
    (model_provider model_id : option string) (r : Sessions.row) : Sessions.row :=
  {| Sessions.project_id := Sessions.project_id r;
     Sessions.parent_id := Sessions.parent_id r;
     Sessions.directory := Sessions.directory r;
     Sessions.title := Sessions.title r;
     Sessions.status := Sessions.status r;
     Sessions.model_provider := COALESCE model_provider (Sessions.model_provider r);
     Sessions.model_id := COALESCE model_id (Sessions.model_id r);
     Sessions.share_url := Sessions.share_url r;
     Sessions.input_tokens := sql_add (Sessions.input_tokens r) inputTokens;
     Sessions.output_tokens := sql_add (Sessions.output_tokens r) outputTokens;
     Sessions.cache_read_tokens := sql_add (Sessions.cache_read_tokens r) cacheRead;
     Sessions.cache_write_tokens := sql_add (Sessions.cache_write_tokens r) cacheWrite;
     Sessions.reasoning_tokens := sql_add (Sessions.reasoning_tokens r) reasoningTokens;
     Sessions.context_tokens := Some contextSize;
     Sessions.peak_context_tokens :=
       GREATEST (Sessions.peak_context_tokens r) (Some contextSize);
     Sessions.estimated_cost := Sessions.estimated_cost r;
     Sessions.compaction_count := Sessions.compaction_count r |}.

(** [estimated_cost = estimated_cost + cost], into [NUMERIC(10, 6)]. *)
Definition add_cost (cost : Num.t) (r : Sessions.row) : Sessions.row :=
  {| Sessions.project_id := Sessions.project_id r;
     Sessions.parent_id := Sessions.parent_id r;
     Sessions.directory := Sessions.directory r;
     Sessions.title := Sessions.title r;
     Sessions.status := Sessions.status r;
     Sessions.model_provider := Sessions.model_provider r;
     Sessions.model_id := Sessions.model_id r;
     Sessions.share_url := Sessions.share_url r;
     Sessions.input_tokens := Sessions.input_tokens r;
     Sessions.output_tokens := Sessions.output_tokens r;
     Sessions.cache_read_tokens := Sessions.cache_read_tokens r;
     Sessions.cache_write_tokens := Sessions.cache_write_tokens r;
     Sessions.reasoning_tokens := Sessions.reasoning_tokens r;
     Sessions.context_tokens := Sessions.context_tokens r;
     Sessions.peak_context_tokens := Sessions.peak_context_tokens r;
     Sessions.estimated_cost :=
       (λ e, Numeric.add e cost) <$> Sessions.estimated_cost r;
     Sessions.compaction_count := Sessions.compaction_count r |}.

(** The row of the [INSERT] of [session.created]. *)
Definition created_row (title parent_id project_id directory : option string)
    : Sessions.row :=
  {| Sessions.project_id := project_id;
     Sessions.parent_id := parent_id;
     Sessions.directory := directory;
     Sessions.title := title;
     Sessions.status := Some "created";
     Sessions.model_provider := None;
     Sessions.model_id := None;
     Sessions.share_url := None;
     Sessions.input_tokens := Some 0;
     Sessions.output_tokens := Some 0;
     Sessions.cache_read_tokens := Some 0;
     Sessions.cache_write_tokens := Some 0;
     Sessions.reasoning_tokens := Some 0;
     Sessions.context_tokens := Some 0;
     Sessions.peak_context_tokens := Some 0;
     Sessions.estimated_cost := Some 0;
     Sessions.compaction_count := Some 0 |}.

(** The [DO UPDATE] of the message upsert of [message.updated];
    [EXCLUDED] is the row proposed for insertion. *)
Definition merge_message (role : string)
    (model_provider model_id text summary : option string)
    (content : option json) (system_prompt : option string)
    (r : Messages.row) : Messages.row :=
  {| Messages.session_id := Messages.session_id r;
     Messages.role := role;
     Messages.model_provider := COALESCE model_provider (Messages.model_provider r);
     Messages.model_id := COALESCE model_id (Messages.model_id r);
     Messages.text := COALESCE text (Messages.text r);
     Messages.summary := COALESCE summary (Messages.summary r);
     Messages.content := COALESCE content (Messages.content r);
     Messages.system_prompt := COALESCE system_prompt (Messages.system_prompt r) |}.

Definition set_message_text (text : string) (r : Messages.row) : Messages.row :=
  {| Messages.session_id := Messages.session_id r;
     Messages.role := Messages.role r;
     Messages.model_provider := Messages.model_provider r;
     Messages.model_id := Messages.model_id r;
     Messages.text := Some text;
     Messages.summary := Messages.summary r;
     Messages.content := Messages.content r;
     Messages.system_prompt := Messages.system_prompt r |}.

(** The row of [INSERT INTO messages (id, session_id, role, created_at)
    VALUES (_, _, 'assistant', NOW())]. *)
Definition placeholder_message (session_id : string) : Messages.row :=
  {| Messages.session_id := session_id;
     Messages.role := "assistant";
     Messages.model_provider := None; Messages.model_id := None;
     Messages.text := None; Messages.summary := None;
     Messages.content := None; Messages.system_prompt := None |}.

(** The [SET] list of the streaming-text update of a part. *)
Definition set_part_text (tool_name : option string) (text : string)
    (content : json) (r : MessageParts.row) : MessageParts.row :=
  {| MessageParts.message_id := MessageParts.message_id r;
     MessageParts.part_type := MessageParts.part_type r;
     MessageParts.tool_name := COALESCE tool_name (MessageParts.tool_name r);
     MessageParts.text := Some text;
     MessageParts.content := Some content |}.

(** The [SET] list of the status-gated update of a part. *)
Definition set_part_snapshot (tool_name text : option string)
    (content : json) (r : MessageParts.row) : MessageParts.row :=
  {| MessageParts.message_id := MessageParts.message_id r;
     MessageParts.part_type := MessageParts.part_type r;
     MessageParts.tool_name := COALESCE tool_name (MessageParts.tool_name r);
     MessageParts.text := COALESCE text (MessageParts.text r);
     MessageParts.content := Some content |}.

(** [content = jsonb_set(COALESCE(content, '{"state":{}}'::jsonb),
    '{state,output}', outputJson::jsonb)]. *)
Definition set_part_output (outputJson : json) (r : MessageParts.row)
    : MessageParts.row :=
  {| MessageParts.message_id := MessageParts.message_id r;
     MessageParts.part_type := MessageParts.part_type r;
     MessageParts.tool_name := MessageParts.tool_name r;
     MessageParts.text := MessageParts.text r;
     MessageParts.content :=
       Some (Jsonb.set_state_output
               (default (JObj {["state" := JObj ∅]}) (MessageParts.content r))
               outputJson) |}.

(** [(content->'state'->>'output') IS NULL]. *)
Definition output_is_null (r : MessageParts.row) : bool :=
  Jsonb.text_is_null (Jsonb.get (MessageParts.content r) "state") "output".

(** The [SET] list of the completion of a tool execution. *)
Definition complete (result : option json) (completed_at duration_ms : Z)
    (r : ToolExecutions.row) : ToolExecutions.row :=
  {| ToolExecutions.started_at := ToolExecutions.started_at r;
     ToolExecutions.completed_at := Some completed_at;
     ToolExecutions.session_id := ToolExecutions.session_id r;
     ToolExecutions.correlation_id := ToolExecutions.correlation_id r;
     ToolExecutions.tool_name := ToolExecutions.tool_name r;
     ToolExecutions.args := ToolExecutions.args r;
     ToolExecutions.result := result;
     ToolExecutions.duration_ms := Some duration_ms;
     ToolExecutions.success := Some true;
     ToolExecutions.error := ToolExecutions.error r |}.

(** [UPDATE tool_executions SET ... WHERE correlation_id = c]: the
    column is not a key, every row that carries [c] is updated. *)
Definition complete_where (c : string) (result : option json)
    (completed_at duration_ms : Z) (r : ToolExecutions.row) : ToolExecutions.row :=
  if bool_decide (ToolExecutions.correlation_id r = c)
  then complete result completed_at duration_ms r
  else r.

(** The constraints of [schema.sql] that a statement of the plugin can
    meet: the foreign keys, by the names PostgreSQL gives them, and the
    range of [NUMERIC(10, 6)]. *)
Inductive Constraint :=
| messages_session_id_fkey
| message_parts_message_id_fkey
| tool_executions_session_id_fkey
| session_errors_session_id_fkey
| commands_session_id_fkey
| compactions_session_id_fkey.

Inductive Violation :=
| foreign_key (k : Constraint)
| numeric_field_overflow.

Definition table_of (k : Constraint) : string :=
  match k with
  | messages_session_id_fkey => "messages"
  | message_parts_message_id_fkey => "message_parts"
  | tool_executions_session_id_fkey => "tool_executions"
  | session_errors_session_id_fkey => "session_errors"
  | commands_session_id_fkey => "commands"
  | compactions_session_id_fkey => "compactions"
  end.

Definition name_of (k : Constraint) : string :=
  match k with
  | messages_session_id_fkey => "messages_session_id_fkey"
  | message_parts_message_id_fkey => "message_parts_message_id_fkey"
  | tool_executions_session_id_fkey => "tool_executions_session_id_fkey"
  | session_errors_session_id_fkey => "session_errors_session_id_fkey"
  | commands_session_id_fkey => "commands_session_id_fkey"
  | compactions_session_id_fkey => "compactions_session_id_fkey"
  end.

(** The error the driver rejects the query with: an [Error] whose message
    is the message of the server. *)
Definition error_of (v : Violation) : Db.Thrown :=
  {| Db.isError := true;
     Db.message :=
       match v with
       | foreign_key k =>
           "insert or update on table " +:+ dquote +:+ table_of k +:+ dquote
           +:+ " violates foreign key constraint "
           +:+ dquote +:+ name_of k +:+ dquote
       | numeric_field_overflow => "numeric field overflow"
       end |}.

(** [REFERENCES sessions(id)] on a row about to be inserted. *)
Definition references_session (k : Constraint) (id : string) (s : Store)
    : option Violation :=
  match sessions s !! id with
  | Some _ => None
  | None => Some (foreign_key k)
  end.

(** [REFERENCES messages(id)] on a row about to be inserted. *)
Definition references_message (k : Constraint) (id : string) (s : Store)
    : option Violation :=
  match messages s !! id with
  | Some _ => None
  | None => Some (foreign_key k)
  end.

(** What stands in the way of a statement, if anything. An [INSERT ...
    ON CONFLICT] that meets its conflict inserts no row and so checks no
    foreign key; an [UPDATE] of the plugin never changes a referencing
    column; the sum of the cost update must fit its column. *)
Definition violation (q : Stmt) (s : Store) : option Violation :=
  match q with
  | SessionErrorInsert sid _ _ _ =>
      references_session session_errors_session_id_fkey sid s
  | CompactionInsert r =>
      references_session compactions_session_id_fkey (Compactions.session_id r) s
  | MessageUpsert id sid _ _ _ _ _ _ _ | MessageEnsure id sid =>
      match messages s !! id with
      | Some _ => None
      | None => references_session messages_session_id_fkey sid s
      end
  | SessionAddCost id cost =>
      match sessions s !! id ≫= Sessions.estimated_cost with
      | Some e =>
          if Numeric.fits (Numeric.add e cost) then None
          else Some numeric_field_overflow
      | None => None
      end
  | PartInsert id mid _ _ _ _ =>
      match message_parts s !! id with
      | Some _ => None
      | None => references_message message_parts_message_id_fkey mid s
      end
  | CommandInsert sid _ _ =>
      references_session commands_session_id_fkey sid s
  | ToolExecutionStart _ sid _ _ _ | ToolExecutionOrphan _ sid _ _ _ _ =>
      references_session tool_executions_session_id_fkey sid s
  | _ => None
  end.

(** What a statement that meets no violation does to the Store. *)
Definition effect (q : Stmt) (s : Store) : Store :=
  match q with
  | SessionUpsert id title parent_id project_id directory =>
      on_sessions
        (upsert id (created_row title parent_id project_id directory)
                (coalesce_created title parent_id project_id directory)) s
  | SessionUpdate id title share_url =>
      on_sessions (update_where id always (coalesce_updated title share_url)) s
  | SessionMarkDeleted id =>
      on_sessions (update_where id always (set_status "deleted")) s
  | SessionMarkIdle id =>
      on_sessions (update_where id always (set_status "idle")) s
  | SessionErrorInsert sid ty msg data =>
      {| sessions := sessions s; messages := messages s;
         message_parts := message_parts s; tool_executions := tool_executions s;
         session_errors :=
           (session_errors s ++
            [ {| SessionErrors.session_id := sid;
                 SessionErrors.error_type := Some ty;
                 SessionErrors.error_message := msg;
                 SessionErrors.error_data := data |} ])%list;
         commands := commands s; compactions := compactions s |}
  | SessionMarkError id =>
      on_sessions (update_where id always (set_status "error")) s
  | CompactionInsert r =>
      {| sessions := sessions s; messages := messages s;
         message_parts := message_parts s; tool_executions := tool_executions s;
         session_errors := session_errors s; commands := commands s;
         compactions := (compactions s ++ [r])%list |}
  | SessionCompact id =>
      on_sessions (update_where id always compact) s
  | SessionTouch id =>
      (* ON CONFLICT (id) DO UPDATE SET updated_at = NOW() *)
      on_sessions (upsert id (Sessions.fresh (Some "active")) (λ r, r)) s
  | MessageUpsert id sid role model_provider model_id text summary content system_prompt =>
      on_messages
        (upsert id
           {| Messages.session_id := sid; Messages.role := role;
              Messages.model_provider := model_provider;
              Messages.model_id := model_id;
              Messages.text := text; Messages.summary := summary;
              Messages.content := content;
              Messages.system_prompt := system_prompt |}
           (merge_message role model_provider model_id text summary content
                          system_prompt)) s
  | SessionAddTokens id i o r cr cw ctx model_provider model_id =>
      on_sessions
        (update_where id always (add_tokens i o r cr cw ctx model_provider model_id)) s
  | MessageDelete id =>
      (* message_parts.message_id REFERENCES messages(id) ON DELETE CASCADE *)
      on_message_parts
        (filter (λ kv, MessageParts.message_id kv.2 ≠ id))
        (on_messages (delete id) s)
  | SessionAddCost id cost =>
      on_sessions (update_where id always (add_cost cost)) s
  | MessageEnsure id sid =>
      (* DO UPDATE SET role = COALESCE(messages.role, 'assistant'):
         role is NOT NULL, the row keeps it *)
      on_messages (upsert id (placeholder_message sid) (λ r, r)) s
  | SessionEnsure id =>
      (* ON CONFLICT (id) DO NOTHING *)
      on_sessions (upsert id (Sessions.fresh (Some "active")) (λ r, r)) s
  | PartInsert id mid ty tool_name text content =>
      (* ON CONFLICT (id) DO NOTHING *)
      on_message_parts
        (upsert id
           {| MessageParts.message_id := mid; MessageParts.part_type := ty;
              MessageParts.tool_name := tool_name; MessageParts.text := text;
              MessageParts.content := Some content |}
           (λ r, r)) s
  | PartUpdateText id tool_name text content =>
      on_message_parts
        (update_where id (λ r, shorter_than (MessageParts.text r) text)
                      (set_part_text tool_name text content)) s
  | PartUpdateStatus id tool_name text content currentPriority =>
      on_message_parts
        (update_where id
           (λ r, stored_rank (MessageParts.content r) <=? currentPriority)
           (set_part_snapshot tool_name text content)) s
  | MessageUpdateText id text =>
      on_messages
        (update_where id (λ r, shorter_than (Messages.text r) text)
                      (set_message_text text)) s
  | PartDelete id =>
      on_message_parts (delete id) s
  | CommandInsert sid name args =>
      {| sessions := sessions s; messages := messages s;
         message_parts := message_parts s; tool_executions := tool_executions s;
         session_errors := session_errors s;
         commands :=
           (commands s ++
            [ {| Commands.session_id := sid; Commands.command_name := name;
                 Commands.command_args := args |} ])%list;
         compactions := compactions s |}
  | SessionMarkActive id =>
      on_sessions (update_where id always (set_status "active")) s
  | ToolExecutionStart c sid tool args started_at =>
      on_tool_executions
        (λ t, (t ++
           [ {| ToolExecutions.started_at := Some started_at;
                ToolExecutions.completed_at := None;
                ToolExecutions.session_id := sid;
                ToolExecutions.correlation_id := c;
                ToolExecutions.tool_name := tool;
                ToolExecutions.args := args;
                ToolExecutions.result := None;
                ToolExecutions.duration_ms := None;
                ToolExecutions.success := None;
                ToolExecutions.error := None |} ])%list) s
  | ToolExecutionComplete c result completed_at duration_ms =>
      on_tool_executions (map (complete_where c result completed_at duration_ms)) s
  | ToolExecutionOrphan c sid tool args result completed_at =>
      on_tool_executions
        (λ t, (t ++
           [ {| ToolExecutions.started_at := None;
                ToolExecutions.completed_at := Some completed_at;
                ToolExecutions.session_id := sid;
                ToolExecutions.correlation_id := c;
                ToolExecutions.tool_name := tool;
                ToolExecutions.args := args;
                ToolExecutions.result := result;
                ToolExecutions.duration_ms := None;
                ToolExecutions.success := Some true;
                ToolExecutions.error := None |} ])%list) s
  | PartSetOutput id outputJson =>
      on_message_parts (update_where id output_is_null (set_part_output outputJson)) s
  end.

(** One statement, executed: it raises and leaves the Store as it is, or
    it has its effect. *)
Definition exec (q : Stmt) (s : Store) : Store :=
  match violation q s with
  | Some _ => s
  | None => effect q s
  end.

(** The statements of one task, awaited one after the other: the first
    that raises ends the task. *)
Fixpoint run (qs : list Stmt) (s : Store) : option Violation * Store :=
  match qs with
  | [] => (None, s)
  | q :: rest =>
      match violation q s with
      | Some v => (Some v, s)
      | None => run rest (effect q s)
      end
  end.

(** What the task raises, if it does, and the Store it leaves. *)
Definition raises (qs : list Stmt) (s : Store) : option Violation := (run qs s).1.
Definition exec_all (qs : list Stmt) (s : Store) : Store := (run qs s).2.

End Sql.

(** ** The payloads of the Event Source (the interfaces of [index.ts]) *)

Module SessionInfo.
Record share_t := mkShare { url : option string }.
Record t := mk {
  id : string;
  title : option string;
  parentID : option string;
  projectID : option string;
  directory : option string;
  share : option share_t
}.
End SessionInfo.

Module Tokens.
Record cache_t := mkCache { read : option Z; write : option Z }.
Record t := mk {
  input : option Z;
  output : option Z;
  reasoning : option Z;
  cache : option cache_t
}.

Definition to_json (k : t) : json :=
  JObj (Jsonb.field "input" (JInt <$> input k)
       (Jsonb.field "output" (JInt <$> output k)
       (Jsonb.field "reasoning" (JInt <$> reasoning k)
       (Jsonb.field "cache"
          ((λ c, JObj (Jsonb.field "read" (JInt <$> read c)
                      (Jsonb.field "write" (JInt <$> write c) ∅))) <$> cache k)
          ∅)))).
End Tokens.

Module MessageInfo.
Record model_t := mkModel { m_providerID : option string; m_modelID : option string }.
Record item := mkItem { type : string; text : option string }.
Record summary_t := mkSummary { title : option string }.
Record t := mk {
  id : string;
  sessionID : string;
  role : string;
  model : option model_t;
  providerID : option string;
  modelID : option string;
  parts : option (list item);
  summary : option summary_t;
  system : option string;
  tokens : option Tokens.t
}.

Definition item_to_json (p : item) : json :=
  JObj (Jsonb.field "type" (Some (JStr (type p)))
       (Jsonb.field "text" (JStr <$> text p) ∅)).

Definition items_to_json (ps : list item) : json := JArr (item_to_json <$> ps).
End MessageInfo.

Module PartInfo.
Record time_t := mkTime { start : option Z; end_ : option Z }.
Record state_t := mkState {
  status : option string;
  s_title : option string;
  input : option json;
  output : option json;
  metadata : option json;
  error : option string;
  time : option time_t
}.
Record t := mk {
  id : string;
  sessionID : string;
  messageID : string;
  type : string;
  tool : option string;
  text : option string;
  callID : option string;
  state : option state_t;
  cost : option Num.t;
  tokens : option Tokens.t
}.

Definition time_to_json (k : time_t) : json :=
  JObj (Jsonb.field "start" (JInt <$> start k)
       (Jsonb.field "end" (JInt <$> end_ k) ∅)).

Definition state_to_json (st : state_t) : json :=
  JObj (Jsonb.field "status" (JStr <$> status st)
       (Jsonb.field "title" (JStr <$> s_title st)
       (Jsonb.field "input" (input st)
       (Jsonb.field "output" (output st)
       (Jsonb.field "metadata" (metadata st)
       (Jsonb.field "error" (JStr <$> error st)
       (Jsonb.field "time" (time_to_json <$> time st) ∅))))))).

(** [sql.json({ ...part })]: the part as a [jsonb] object. *)
Definition to_json (p : t) : json :=
  JObj (Jsonb.field "id" (Some (JStr (id p)))
       (Jsonb.field "sessionID" (Some (JStr (sessionID p)))
       (Jsonb.field "messageID" (Some (JStr (messageID p)))
       (Jsonb.field "type" (Some (JStr (type p)))
       (Jsonb.field "tool" (JStr <$> tool p)
       (Jsonb.field "text" (JStr <$> text p)
       (Jsonb.field "callID" (JStr <$> callID p)
       (Jsonb.field "state" (state_to_json <$> state p)
       (Jsonb.field "cost" (JNum <$> cost p)
       (Jsonb.field "tokens" (Tokens.to_json <$> tokens p) ∅)))))))))).
End PartInfo.

Module ErrorInfo.
Record data_t := mkData { d_message : option string }.
Record t := mk { name : option string; data : option data_t }.

Definition to_json (e : t) : json :=
  JObj (Jsonb.field "name" (JStr <$> name e)
       (Jsonb.field "data"
          ((λ d, JObj (Jsonb.field "message" (JStr <$> d_message d) ∅)) <$> data e)
          ∅)).
End ErrorInfo.

(** The [event] hook switches on [event.type]; a type with no [case] falls
    through the [switch]. *)
Module Event.
Inductive t :=
| session_created (info : SessionInfo.t)
| session_updated (info : SessionInfo.t)
| session_deleted (info : SessionInfo.t)
| session_idle (sessionID : string)
| session_error (sessionID : option string) (error : option ErrorInfo.t)
| session_compacted (sessionID : string)
| message_updated (info : MessageInfo.t)
| message_removed (messageID : string)
| message_part_updated (part : PartInfo.t)
| message_part_removed (partID : string)
| command_executed (name sessionID : string) (arguments : option string)
| other (type : string).
End Event.

(** The arguments of the three other hooks. *)
Module ChatMessage.
Record t := mk {
  sessionID : string;
  (** [output.message.system] *)
  system : option string;
  (** [output.parts] *)
  parts : option (list MessageInfo.item)
}.
End ChatMessage.

Module ToolInput.
Record t := mk {
  callID : string;
  sessionID : string;
  tool : string
}.
End ToolInput.

Module ToolBefore.
Record t := mk { args : option json }.
End ToolBefore.

Module ToolAfter.
Record t := mk {
  title : option string;
  output : option string;
  metadata : option json
}.
End ToolAfter.

(** ** The plugin ([src/index.ts]) *)

Module Plugin.

Definition STALE_ENTRY_TIMEOUT_MS : Z := 15 * 60 * 1000.
Definition CLEANUP_INTERVAL_MS : Z := 60 * 1000.

(** *** Correlation state: the module-level maps *)

Record PendingExecution := mkPendingExecution {
  correlationId : string;
  sessionId : string;
  toolName : string;
  args : json;
  startedAt : Z;
  partId : option string
}.

Record PendingUserMessage := mkPendingUserMessage {
  parts : list MessageInfo.item;
  systemPrompt : option string;
  timestamp : Z
}.

Record Mem := mkMem {
  pendingExecutions : gmap string PendingExecution;
  callIdToPartId : gmap string string;
  pendingUserMessages : gmap string PendingUserMessage;
  tokensCountedBySession : gmap string (gmap string Z);
  callIdTimestamps : gmap string Z
}.

Definition empty_mem : Mem :=
  {| pendingExecutions := ∅; callIdToPartId := ∅; pendingUserMessages := ∅;
     tokensCountedBySession := ∅; callIdTimestamps := ∅ |}.

(** An entry of the error sink: the message given to [logError] and the
    error it reports. *)
Record LogEntry := mkLogEntry {
  log_message : string;
  log_error : Db.Thrown
}.

(** Everything a hook can read or change: the maps, the health
    variables of [db.ts], the Store, the error sink, and the tasks
    handed to [fireAndForget] so far, in order (each task is the list of
    statements it awaits). *)
Record World := mkWorld {
  mem : Mem;
  health : Db.Health;
  store : Store;
  log : list LogEntry;
  dispatched : list (list Sql.Stmt)
}.

(** What a hook reads from outside during one run: the clock
    ([Date.now()], [new Date()]) and the digits of [Math.random()]. *)
Record Clock := mkClock {
  now : Z;
  rnd : string
}.

(** [`${Date.now()}-${Math.random().toString(36).substring(2, 9)}`]. *)
Definition generateCorrelationId (c : Clock) : string :=
  pretty (now c) +:+ "-" +:+ rnd c.

Definition with_mem (f : Mem → Mem) (w : World) : World :=
  {| mem := f (mem w); health := health w; store := store w; log := log w;
     dispatched := dispatched w |}.

Definition set_pendingExecutions (m : gmap string PendingExecution) (x : Mem) : Mem :=
  {| pendingExecutions := m; callIdToPartId := callIdToPartId x;
     pendingUserMessages := pendingUserMessages x;
     tokensCountedBySession := tokensCountedBySession x;
     callIdTimestamps := callIdTimestamps x |}.

Definition set_callIdToPartId (m : gmap string string) (x : Mem) : Mem :=
  {| pendingExecutions := pendingExecutions x; callIdToPartId := m;
     pendingUserMessages := pendingUserMessages x;
     tokensCountedBySession := tokensCountedBySession x;
     callIdTimestamps := callIdTimestamps x |}.

Definition set_pendingUserMessages (m : gmap string PendingUserMessage) (x : Mem) : Mem :=
  {| pendingExecutions := pendingExecutions x; callIdToPartId := callIdToPartId x;
     pendingUserMessages := m;
     tokensCountedBySession := tokensCountedBySession x;
     callIdTimestamps := callIdTimestamps x |}.

Definition set_tokensCountedBySession (m : gmap string (gmap string Z)) (x : Mem) : Mem :=
  {| pendingExecutions := pendingExecutions x; callIdToPartId := callIdToPartId x;
     pendingUserMessages := pendingUserMessages x;
     tokensCountedBySession := m;
     callIdTimestamps := callIdTimestamps x |}.

Definition set_callIdTimestamps (m : gmap string Z) (x : Mem) : Mem :=
  {| pendingExecutions := pendingExecutions x; callIdToPartId := callIdToPartId x;
     pendingUserMessages := pendingUserMessages x;
     tokensCountedBySession := tokensCountedBySession x;
     callIdTimestamps := m |}.

(** [pending.partId = part.id] on the object held by the map. *)
Definition set_partId (p : string) (e : PendingExecution) : PendingExecution :=
  {| correlationId := correlationId e; sessionId := sessionId e;
     toolName := toolName e; args := args e; startedAt := startedAt e;
     partId := Some p |}.

(** [now - t > STALE_ENTRY_TIMEOUT_MS]. *)
Definition stale (now t : Z) : bool := STALE_ENTRY_TIMEOUT_MS <? now - t.

(** [cleanupStaleMaps], run by the interval timer. *)
Definition cleanupStaleMaps (now : Z) (x : Mem) : Mem :=
  {| pendingExecutions :=
       filter (λ kv, stale now (startedAt kv.2) = false) (pendingExecutions x);
     callIdToPartId :=
       filter (λ kv, match callIdTimestamps x !! kv.1 with
                     | Some t => stale now t
                     | None => false
                     end = false) (callIdToPartId x);
     pendingUserMessages :=
       filter (λ kv, stale now (timestamp kv.2) = false) (pendingUserMessages x);
     tokensCountedBySession :=
       filter (λ kv, kv.2 ≠ ∅)
         ((λ ts : gmap string Z, filter (λ kv, stale now kv.2 = false) ts)
            <$> tokensCountedBySession x);
     callIdTimestamps :=
       filter (λ kv, stale now kv.2 = false) (callIdTimestamps x) |}.

(** *** Write-behind dispatch *)

(** [logError(client, message, { error: String(error) })]. *)
Definition logError (message : string) (e : Db.Thrown)
    (sl : Store * list LogEntry) : Store * list LogEntry :=
  (sl.1, (sl.2 ++ [ {| log_message := message; log_error := e |} ])%list).

(** A task, as the operation [Db.safeQuery] runs: its statements are
    executed in order; its promise fulfils when all of them did, and
    rejects with the error of the statement that raised. *)
Definition run_task (task : list Sql.Stmt) (sl : Store * list LogEntry)
    : Db.Outcome unit * (Store * list LogEntry) :=
  let '(raised, s') := Sql.run task sl.1 in
  (match raised with
   | Some v => Db.Rejected (Sql.error_of v)
   | None => Db.Fulfilled tt
   end,
   (s', sl.2)).

(** [fireAndForget(() => task, onError)] of [db.ts], from a hook: the
    task goes through the health gate and, when admitted, runs. *)
Definition fireAndForget (c : Clock) (task : list Sql.Stmt)
    (onError : option string) (w : World) : World :=
  let '(h', (s', l')) :=
    Db.fireAndForget (run_task task) (logError <$> onError)
                     (now c) (now c) (health w) (store w, log w) in
  {| mem := mem w; health := h'; store := s'; log := l';
     dispatched := (dispatched w ++ [task])%list |}.

(** *** The [event] hook, one definition per [case] *)

Definition session_created (c : Clock) (info : SessionInfo.t) (w : World) : World :=
  fireAndForget c
    [ Sql.SessionUpsert (SessionInfo.id info)
        (or_null (SessionInfo.title info))
        (or_null (SessionInfo.parentID info))
        (or_null (SessionInfo.projectID info))
        (or_null (SessionInfo.directory info)) ]
    (Some "Error in session.created") w.

Definition session_updated (c : Clock) (info : SessionInfo.t) (w : World) : World :=
  fireAndForget c
    [ Sql.SessionUpdate (SessionInfo.id info)
        (or_null (SessionInfo.title info))
        (or_null (SessionInfo.share info ≫= SessionInfo.url)) ]
    (Some "Error in session.updated") w.

Definition session_deleted (c : Clock) (info : SessionInfo.t) (w : World) : World :=
  let w := fireAndForget c [ Sql.SessionMarkDeleted (SessionInfo.id info) ]
                         (Some "Error in session.deleted") w in
  with_mem (λ x, set_tokensCountedBySession
                   (delete (SessionInfo.id info) (tokensCountedBySession x)) x) w.

Definition session_idle (c : Clock) (sessionID : string) (w : World) : World :=
  fireAndForget c [ Sql.SessionMarkIdle sessionID ] (Some "Error in session.idle") w.

Definition session_error (c : Clock) (sessionID : option string)
    (error : option ErrorInfo.t) (w : World) : World :=
  match or_null sessionID with
  | Some sessionID =>
      fireAndForget c
        [ Sql.SessionErrorInsert sessionID
            (or_default (error ≫= ErrorInfo.name) "unknown")
            (or_null ((error ≫= ErrorInfo.data) ≫= ErrorInfo.d_message))
            (ErrorInfo.to_json <$> error);
          Sql.SessionMarkError sessionID ]
        None w
  | None => w
  end.

(** The snapshot row of [session.compacted]: [x || 0] on every counter
    read, [parseFloat(estimated_cost || "0")] on the cost. *)
Definition snapshot (sessionID : string) (sessionState : Sessions.row)
    : Compactions.row :=
  {| Compactions.session_id := sessionID;
     Compactions.context_tokens_before :=
       default 0 (Sessions.context_tokens sessionState);
     Compactions.cumulative_input_tokens :=
       default 0 (Sessions.input_tokens sessionState);
     Compactions.cumulative_output_tokens :=
       default 0 (Sessions.output_tokens sessionState);
     Compactions.cumulative_cache_read :=
       default 0 (Sessions.cache_read_tokens sessionState);
     Compactions.cumulative_cache_write :=
       default 0 (Sessions.cache_write_tokens sessionState);
     Compactions.cumulative_reasoning :=
       default 0 (Sessions.reasoning_tokens sessionState);
     Compactions.cumulative_cost :=
       default 0 (Sessions.estimated_cost sessionState) |}.

(** The point read of [session.compacted]: the first row of the result,
    if any. *)
Definition read_session (sessionID : string) (sl : Store * list LogEntry)
    : Db.Outcome (option Sessions.row) * (Store * list LogEntry) :=
  (Db.Fulfilled (sessions sl.1 !! sessionID), sl).

Definition session_compacted (c : Clock) (sessionID : string) (w : World) : World :=
  let '(result, h', (s', l')) :=
    Db.safeQuery (read_session sessionID) (now c) (now c) (health w)
                 (store w, log w) in
  let w := {| mem := mem w; health := h'; store := s'; log := l';
              dispatched := dispatched w |} in
  let w :=
    match result with
    | Db.Threw _ => w (* catch {} *)
    | Db.Returned result =>
        let sessionState := result ≫= (λ first, first) in
        let w :=
          match sessionState with
          | Some sessionState =>
              fireAndForget c [ Sql.CompactionInsert (snapshot sessionID sessionState) ]
                            None w
          | None => w
          end in
        fireAndForget c [ Sql.SessionCompact sessionID ] None w
    end in
  with_mem (λ x, set_tokensCountedBySession
                   (delete sessionID (tokensCountedBySession x)) x) w.

Definition newline : string := String (Ascii.ascii_of_nat 10) "".

(** [parts.filter(p => p.type === "text" && p.text).map(p => p.text)
    .join("\n") || null]. *)
Definition joined_text (ps : list MessageInfo.item) : option string :=
  or_null
    (Some (String.concat newline
             (omap (λ p, if bool_decide (MessageInfo.type p = "text")
                         then or_null (MessageInfo.text p) else None) ps))).

Definition message_updated (c : Clock) (info : MessageInfo.t) (w : World) : World :=
  let sessionID := MessageInfo.sessionID info in
  let w := fireAndForget c [ Sql.SessionTouch sessionID ] None w in
  let pending :=
    if bool_decide (MessageInfo.role info = "user")
    then pendingUserMessages (mem w) !! sessionID else None in
  let messageContent :=
    match pending, MessageInfo.parts info with
    | Some pending, None => Some (parts pending)
    | _, given => given
    end in
  let textContent :=
    match pending, MessageInfo.parts info with
    | Some pending, None => joined_text (parts pending)
    | _, _ => None
    end in
  let systemPrompt :=
    match pending with
    | Some pending => or_else (MessageInfo.system info) (or_null (systemPrompt pending))
    | None => or_null (MessageInfo.system info)
    end in
  let w :=
    match pending with
    | Some _ =>
        with_mem (λ x, set_pendingUserMessages
                         (delete sessionID (pendingUserMessages x)) x) w
    | None => w
    end in
  let modelProvider :=
    or_else (MessageInfo.providerID info)
            (or_null (MessageInfo.model info ≫= MessageInfo.m_providerID)) in
  let modelId :=
    or_else (MessageInfo.modelID info)
            (or_null (MessageInfo.model info ≫= MessageInfo.m_modelID)) in
  let w :=
    fireAndForget c
      [ Sql.MessageUpsert (MessageInfo.id info) sessionID (MessageInfo.role info)
          modelProvider modelId textContent
          (or_null (MessageInfo.summary info ≫= MessageInfo.title))
          (MessageInfo.items_to_json <$> messageContent)
          systemPrompt ]
      (Some "Error in message.updated") w in
  let sessionTokens :=
    default ∅ (tokensCountedBySession (mem w) !! sessionID) in
  match MessageInfo.tokens info with
  | Some tokens =>
      if bool_decide (MessageInfo.role info = "assistant")
         && negb (bool_decide (is_Some (sessionTokens !! MessageInfo.id info)))
      then
        let inputTokens := nullish0 (Tokens.input tokens) in
        let outputTokens := nullish0 (Tokens.output tokens) in
        let reasoningTokens := nullish0 (Tokens.reasoning tokens) in
        let cacheRead := nullish0 (Tokens.cache tokens ≫= Tokens.read) in
        let cacheWrite := nullish0 (Tokens.cache tokens ≫= Tokens.write) in
        if (0 <? inputTokens) || (0 <? outputTokens) then
          let w :=
            with_mem (λ x, set_tokensCountedBySession
                             (<[sessionID := <[MessageInfo.id info := now c]> sessionTokens]>
                                (tokensCountedBySession x)) x) w in
          let contextSize := inputTokens + cacheRead in
          fireAndForget c
            [ Sql.SessionAddTokens sessionID inputTokens outputTokens
                reasoningTokens cacheRead cacheWrite contextSize
                modelProvider modelId ]
            (Some "Error updating session tokens") w
        else w
      else w
  | None => w
  end.

Definition message_removed (c : Clock) (messageID : string) (w : World) : World :=
  fireAndForget c [ Sql.MessageDelete messageID ] None w.

(** The record literal [statusPriority], by its own keys. *)
Definition statusPriority (status : string) : option Z :=
  if bool_decide (status = "pending") then Some 1
  else if bool_decide (status = "running") then Some 2
  else if bool_decide (status = "completed") then Some 3
  else if bool_decide (status = "error") then Some 3
  else None.

(** [statusPriority[part.state?.status || "pending"] || 0]. *)
Definition currentPriority (part : PartInfo.t) : Z :=
  let currentStatus :=
    or_default (PartInfo.state part ≫= PartInfo.status) "pending" in
  default 0 (statusPriority currentStatus).

Definition isStreamingTextPart (part : PartInfo.t) : bool :=
  bool_decide (PartInfo.type part = "text")
  || bool_decide (PartInfo.type part = "reasoning").

(** [part.type === "tool" ? part.tool || null : null]. *)
Definition part_toolName (part : PartInfo.t) : option string :=
  if bool_decide (PartInfo.type part = "tool")
  then or_null (PartInfo.tool part) else None.

(** [part.text || null]. *)
Definition part_textContent (part : PartInfo.t) : option string :=
  or_null (PartInfo.text part).

(** The task that writes the part row: insert-if-absent, then the
    guarded update of its regime. *)
Definition part_task (part : PartInfo.t) : list Sql.Stmt :=
  let toolName := part_toolName part in
  let textContent := part_textContent part in
  let partAsJson := PartInfo.to_json part in
  let insert :=
    Sql.PartInsert (PartInfo.id part) (PartInfo.messageID part)
      (PartInfo.type part) toolName textContent partAsJson in
  if isStreamingTextPart part then
    match textContent with
    | Some textContent =>
        [ insert;
          Sql.PartUpdateText (PartInfo.id part) toolName textContent partAsJson ]
    | None => [ insert ]
    end
  else
    [ insert;
      Sql.PartUpdateStatus (PartInfo.id part) toolName textContent partAsJson
        (currentPriority part) ].

Definition message_part_updated (c : Clock) (part : PartInfo.t) (w : World) : World :=
  let textContent := part_textContent part in
  let w :=
    match or_null (PartInfo.callID part) with
    | Some callID =>
        if bool_decide (PartInfo.type part = "tool") then
          with_mem
            (λ x,
               set_pendingExecutions
                 (alter (set_partId (PartInfo.id part)) callID (pendingExecutions x))
                 (set_callIdTimestamps
                    (<[callID := now c]> (callIdTimestamps x))
                    (set_callIdToPartId
                       (<[callID := PartInfo.id part]> (callIdToPartId x)) x)))
            w
        else w
    | None => w
    end in
  let w :=
    match PartInfo.cost part with
    | Some cost =>
        if bool_decide (PartInfo.type part = "step-finish")
        then fireAndForget c [ Sql.SessionAddCost (PartInfo.sessionID part) cost ] None w
        else w
    | None => w
    end in
  let w :=
    fireAndForget c
      [ Sql.MessageEnsure (PartInfo.messageID part) (PartInfo.sessionID part) ]
      None w in
  let w := fireAndForget c [ Sql.SessionEnsure (PartInfo.sessionID part) ] None w in
  let w := fireAndForget c (part_task part) None w in
  match textContent with
  | Some textContent =>
      if bool_decide (PartInfo.type part = "text")
      then fireAndForget c
             [ Sql.MessageUpdateText (PartInfo.messageID part) textContent ] None w
      else w
  | None => w
  end.

Definition message_part_removed (c : Clock) (partID : string) (w : World) : World :=
  fireAndForget c [ Sql.PartDelete partID ] None w.

Definition command_executed (c : Clock) (name sessionID : string)
    (arguments : option string) (w : World) : World :=
  fireAndForget c [ Sql.CommandInsert sessionID name (or_null arguments) ] None w.

(** The [switch (event.type)] of the [event] hook. *)
Definition event (c : Clock) (e : Event.t) (w : World) : World :=
  match e with
  | Event.session_created info => session_created c info w
  | Event.session_updated info => session_updated c info w
  | Event.session_deleted info => session_deleted c info w
  | Event.session_idle sessionID => session_idle c sessionID w
  | Event.session_error sessionID error => session_error c sessionID error w
  | Event.session_compacted sessionID => session_compacted c sessionID w
  | Event.message_updated info => message_updated c info w
  | Event.message_removed messageID => message_removed c messageID w
  | Event.message_part_updated part => message_part_updated c part w
  | Event.message_part_removed partID => message_part_removed c partID w
  | Event.command_executed name sessionID arguments =>
      command_executed c name sessionID arguments w
  | Event.other _ => w
  end.

(** *** The [chat.message] hook *)

Definition chat_message (c : Clock) (input : ChatMessage.t) (w : World) : World :=
  let sessionID := ChatMessage.sessionID input in
  let w := fireAndForget c [ Sql.SessionMarkActive sessionID ] None w in
  let systemPrompt := ChatMessage.system input in
  let remember (ps : list MessageInfo.item) :=
    with_mem (λ x, set_pendingUserMessages
                     (<[sessionID := {| parts := ps; systemPrompt := systemPrompt;
                                        timestamp := now c |}]>
                        (pendingUserMessages x)) x) w in
  match ChatMessage.parts input with
  | Some (p :: ps) => remember (p :: ps)
  | _ => if truthy systemPrompt then remember [] else w
  end.

(** *** The [tool.execute.before] and [tool.execute.after] hooks *)

(** Truthiness of a JSON value held by a JavaScript variable. *)
Definition json_truthy (j : option json) : bool :=
  match j with
  | None | Some JNull | Some (JBool false) | Some (JStr "") => false
  | Some (JNum n) => negb (Num.is_zero n)
  | Some _ => true
  end.

(** [a ?? null] as a statement parameter: [null] and [undefined] are
    both SQL NULL. *)
Definition nullish (j : option json) : option json :=
  match j with
  | Some JNull => None
  | _ => j
  end.

Definition tool_execute_before (c : Clock) (input : ToolInput.t)
    (output : ToolBefore.t) (w : World) : World :=
  let correlationId := generateCorrelationId c in
  let startedAt := now c in
  let w :=
    with_mem
      (λ x, set_pendingExecutions
              (<[ToolInput.callID input :=
                   {| correlationId := correlationId;
                      sessionId := ToolInput.sessionID input;
                      toolName := ToolInput.tool input;
                      args := if json_truthy (ToolBefore.args output)
                              then default JNull (ToolBefore.args output)
                              else JObj ∅;
                      startedAt := startedAt;
                      partId := None |}]>
                 (pendingExecutions x)) x) w in
  fireAndForget c
    [ Sql.ToolExecutionStart correlationId (ToolInput.sessionID input)
        (ToolInput.tool input) (nullish (ToolBefore.args output)) startedAt ]
    (Some "Error recording tool start") w.

(** The second statement of both tasks of the after hook:
    [if (partId && output.output)]. The parameter is the string
    [JSON.stringify(output.output)]; bound to a [jsonb] parameter it is
    serialised as any value is, so what [jsonb_set] writes is the JSON
    string that holds that text, quotes included. *)
Definition annotate_part (partId : option string) (output : ToolAfter.t)
    : list Sql.Stmt :=
  match partId, or_null (ToolAfter.output output) with
  | Some partId, Some out =>
      let outputJson := JSON.stringify out in
      [ Sql.PartSetOutput partId (JStr outputJson) ]
  | _, _ => []
  end.

Definition tool_execute_after (c : Clock) (input : ToolInput.t)
    (output : ToolAfter.t) (w : World) : World :=
  let callID := ToolInput.callID input in
  let completedAt := now c in
  let pending := pendingExecutions (mem w) !! callID in
  let partId :=
    or_else (pending ≫= partId) (or_null (callIdToPartId (mem w) !! callID)) in
  let w :=
    match pending with
    | Some pending =>
        let durationMs := completedAt - startedAt pending in
        let w :=
          fireAndForget c
            (Sql.ToolExecutionComplete (correlationId pending)
               (JStr <$> ToolAfter.output output) completedAt durationMs
             :: annotate_part partId output)
            None w in
        with_mem (λ x, set_pendingExecutions (delete callID (pendingExecutions x)) x) w
    | None =>
        fireAndForget c
          (Sql.ToolExecutionOrphan (generateCorrelationId c)
             (ToolInput.sessionID input) (ToolInput.tool input)
             (nullish (ToolAfter.metadata output))
             (JStr <$> ToolAfter.output output) completedAt
           :: annotate_part partId output)
          None w
    end in
  with_mem (λ x, set_callIdTimestamps (delete callID (callIdTimestamps x))
                   (set_callIdToPartId (delete callID (callIdToPartId x)) x)) w.

(** The timer of [setInterval(cleanupStaleMaps, CLEANUP_INTERVAL_MS)]. *)
Definition sweep (now : Z) (w : World) : World := with_mem (cleanupStaleMaps now) w.

End Plugin.

(** ** Runs of the plugin *)

(** The plugin right after a successful [ensureConnection]: empty maps,
    no failure on record, and here an empty Store. *)
Definition initial_world : Plugin.World :=
  {| Plugin.mem := Plugin.empty_mem; Plugin.health := Db.markHealthy;
     Plugin.store := empty_store; Plugin.log := []; Plugin.dispatched := [] |}.

(** A call of one of the four hooks by the host, or a tick of the
    cleanup timer. *)
Inductive Call :=
| call_event (e : Event.t)
| call_chat_message (input : ChatMessage.t)
| call_tool_execute_before (input : ToolInput.t) (output : ToolBefore.t)
| call_tool_execute_after (input : ToolInput.t) (output : ToolAfter.t)
| call_sweep.

Definition step (w : Plugin.World) (ck : Plugin.Clock * Call) : Plugin.World :=
  match ck.2 with
  | call_event e => Plugin.event ck.1 e w
  | call_chat_message input => Plugin.chat_message ck.1 input w
  | call_tool_execute_before input output => Plugin.tool_execute_before ck.1 input output w
  | call_tool_execute_after input output => Plugin.tool_execute_after ck.1 input output w
  | call_sweep => Plugin.sweep (Plugin.now ck.1) w
  end.

(** The calls made one after the other, each with its own clock. *)
Definition run (calls : list (Plugin.Clock * Call)) (w : Plugin.World) : Plugin.World :=
  foldl step w calls.

(** The call of the [event] hook for a part event. *)
Definition part_call (cp : Plugin.Clock * PartInfo.t) : Plugin.Clock * Call :=
  (cp.1, call_event (Event.message_part_updated cp.2)).

(** ** Vocabulary of the properties *)

(** *** The gate *)

(** The gate admits at any clock: no failure is on record. *)
Definition healthy (w : Plugin.World) : Prop :=
  Db.consecutiveFailures (Plugin.health w) = 0%nat.

(** The health variables after an admitted task: a task that fulfils
    resets them, a task that a constraint rejects leaves them alone. *)
Definition settled (raised : option Sql.Violation) (h : Db.Health) : Db.Health :=
  match raised with
  | None => Db.markHealthy
  | Some _ => h
  end.

(** The error sink after an admitted task: the rejection is reported when
    the task was dispatched with an [onError]. *)
Definition reported (onError : option string) (raised : option Sql.Violation)
    (l : list Plugin.LogEntry) : list Plugin.LogEntry :=
  match raised, onError with
  | Some v, Some message =>
      (l ++ [ {| Plugin.log_message := message;
                 Plugin.log_error := Sql.error_of v |} ])%list
  | _, _ => l
  end.

(** The gate admits, or refuses, at the clock [c]. *)
Definition admits (c : Plugin.Clock) (w : Plugin.World) : Prop :=
  Db.isDatabaseHealthy (Plugin.now c) (Plugin.health w) = true.

Definition refuses (c : Plugin.Clock) (w : Plugin.World) : Prop :=
  Db.isDatabaseHealthy (Plugin.now c) (Plugin.health w) = false.

(** *** Parent rows *)

(** The session row is stored. *)
Definition has_session (s : Store) (sessionID : string) : Prop :=
  is_Some (sessions s !! sessionID).


(** *** Sessions and token accounting *)

(** A column that holds a value still holds one. *)
Definition kept {A} (old new : option A) : Prop := is_Some old → is_Some new.

(** No nullable column of a session row goes from a value to NULL. *)
Definition keeps_known (r r' : Sessions.row) : Prop :=
  kept (Sessions.project_id r) (Sessions.project_id r')
  ∧ kept (Sessions.parent_id r) (Sessions.parent_id r')
  ∧ kept (Sessions.directory r) (Sessions.directory r')
  ∧ kept (Sessions.title r) (Sessions.title r')
  ∧ kept (Sessions.status r) (Sessions.status r')
  ∧ kept (Sessions.model_provider r) (Sessions.model_provider r')
  ∧ kept (Sessions.model_id r) (Sessions.model_id r')
  ∧ kept (Sessions.share_url r) (Sessions.share_url r')
  ∧ kept (Sessions.input_tokens r) (Sessions.input_tokens r')
  ∧ kept (Sessions.output_tokens r) (Sessions.output_tokens r')
  ∧ kept (Sessions.cache_read_tokens r) (Sessions.cache_read_tokens r')
  ∧ kept (Sessions.cache_write_tokens r) (Sessions.cache_write_tokens r')
  ∧ kept (Sessions.reasoning_tokens r) (Sessions.reasoning_tokens r')
  ∧ kept (Sessions.context_tokens r) (Sessions.context_tokens r')
  ∧ kept (Sessions.peak_context_tokens r) (Sessions.peak_context_tokens r')
  ∧ kept (Sessions.estimated_cost r) (Sessions.estimated_cost r')
  ∧ kept (Sessions.compaction_count r) (Sessions.compaction_count r').

(** The token update of [message.updated], among the statements. *)
Definition is_token_write (q : Sql.Stmt) : bool :=
  match q with
  | Sql.SessionAddTokens _ _ _ _ _ _ _ _ _ => true
  | _ => false
  end.

(** How many token updates were handed to the dispatcher. *)
Definition token_writes (d : list (list Sql.Stmt)) : nat :=
  length (filter (λ q, is_token_write q = true) (concat d)).

(** [tokensCountedBySession.get(sessionID)?.has(messageID)]: the message
    is in the token-applied set of the session. *)
Definition applied (x : Plugin.Mem) (sessionID messageID : string) : Prop :=
  is_Some (default ∅ (Plugin.tokensCountedBySession x !! sessionID) !! messageID).


(** The session row that the upsert at the head of [message.updated]
    leaves behind. *)
Definition touched (sessionID : string) (t : gmap string Sessions.row) : Sessions.row :=
  default (Sessions.fresh (Some "active")) (t !! sessionID).

(** *** Tool executions *)

(** The row a [tool.execute.before] inserts. *)
Definition started_row (c : Plugin.Clock) (input : ToolInput.t) (output : ToolBefore.t)
    : ToolExecutions.row :=
  {| ToolExecutions.started_at := Some (Plugin.now c);
     ToolExecutions.completed_at := None;
     ToolExecutions.session_id := ToolInput.sessionID input;
     ToolExecutions.correlation_id := Plugin.generateCorrelationId c;
     ToolExecutions.tool_name := ToolInput.tool input;
     ToolExecutions.args := Plugin.nullish (ToolBefore.args output);
     ToolExecutions.result := None;
     ToolExecutions.duration_ms := None;
     ToolExecutions.success := None;
     ToolExecutions.error := None |}.

(** The row an unmatched [tool.execute.after] inserts. *)
Definition orphan_row (c : Plugin.Clock) (input : ToolInput.t) (output : ToolAfter.t)
    : ToolExecutions.row :=
  {| ToolExecutions.started_at := None;
     ToolExecutions.completed_at := Some (Plugin.now c);
     ToolExecutions.session_id := ToolInput.sessionID input;
     ToolExecutions.correlation_id := Plugin.generateCorrelationId c;
     ToolExecutions.tool_name := ToolInput.tool input;
     ToolExecutions.args := Plugin.nullish (ToolAfter.metadata output);
     ToolExecutions.result := JStr <$> ToolAfter.output output;
     ToolExecutions.duration_ms := None;
     ToolExecutions.success := Some true;
     ToolExecutions.error := None |}.

(** The columns of a [tool_executions] row that its completion leaves
    alone. *)
Definition origin (r : ToolExecutions.row)
    : option Z * string * string * string * option json * option string :=
  (ToolExecutions.started_at r, ToolExecutions.session_id r,
   ToolExecutions.correlation_id r, ToolExecutions.tool_name r,
   ToolExecutions.args r, ToolExecutions.error r).

(** What ties a pending execution to its row: the correlation id and the
    start time. *)
Definition tie (p : Plugin.PendingExecution) : string * Z :=
  (Plugin.correlationId p, Plugin.startedAt p).

(** A call that leaves alone the pending execution recorded for [callID]
    at [startedAt]: any [event] or [chat.message] call, a tool hook for
    another call id, and a sweep at which the entry is not yet stale. *)
Definition spares (callID : string) (startedAt : Z) (ck : Plugin.Clock * Call) : Prop :=
  match ck.2 with
  | call_event _ | call_chat_message _ => True
  | call_tool_execute_before input _ | call_tool_execute_after input _ =>
      ToolInput.callID input ≠ callID
  | call_sweep => Plugin.stale (Plugin.now ck.1) startedAt = false
  end.

(** The pending execution of [callID] is on record, tied to the row at
    position [n] of [tool_executions], which still has the origin of
    [r0]; and the gate is open. *)
Definition tracked (callID : string) (n : nat) (r0 : ToolExecutions.row) (t0 : Z)
    (w : Plugin.World) : Prop :=
  healthy w
  ∧ tie <$> Plugin.pendingExecutions (Plugin.mem w) !! callID
    = Some (ToolExecutions.correlation_id r0, t0)
  ∧ origin <$> tool_executions (Plugin.store w) !! n = Some (origin r0).

(** From [w] to [w'] the gate stays open if it was, [tool_executions] is
    the same, and every pending execution keeps its tie. *)
Definition undisturbed (w w' : Plugin.World) : Prop :=
  (healthy w → healthy w')
  ∧ tool_executions (Plugin.store w') = tool_executions (Plugin.store w)
  ∧ ∀ k, tie <$> Plugin.pendingExecutions (Plugin.mem w') !! k
         = tie <$> Plugin.pendingExecutions (Plugin.mem w) !! k.

(** A statement other than the three on [tool_executions]. *)
Definition off_tool_executions (q : Sql.Stmt) : bool :=
  match q with
  | Sql.ToolExecutionStart _ _ _ _ _
  | Sql.ToolExecutionComplete _ _ _ _
  | Sql.ToolExecutionOrphan _ _ _ _ _ _ => false
  | _ => true
  end.

(** *** Message parts *)

(** [content->'state'->'status'] of the stored part [pid]. *)
Definition stored_status (s : Store) (pid : string) : option json :=
  Jsonb.get (Jsonb.get (message_parts s !! pid ≫= MessageParts.content) "state")
            "status".

(** The rank of a status as the [CASE] of the update reads it: a word of
    the table has its rank, anything else and no status have rank 0. *)
Definition rank_of (status : option string) : Z :=
  default 0 (status ≫= Plugin.statusPriority).

(** The row a part event proposes for insertion. *)
Definition proposed_row (p : PartInfo.t) : MessageParts.row :=
  {| MessageParts.message_id := PartInfo.messageID p;
     MessageParts.part_type := PartInfo.type p;
     MessageParts.tool_name := Plugin.part_toolName p;
     MessageParts.text := Plugin.part_textContent p;
     MessageParts.content := Some (PartInfo.to_json p) |}.

(** What the task of a part event does to [message_parts]. *)
Definition part_merge (p : PartInfo.t) (t : gmap string MessageParts.row)
    : gmap string MessageParts.row :=
  let inserted := Sql.upsert (PartInfo.id p) (proposed_row p) (λ r, r) t in
  if Plugin.isStreamingTextPart p then
    match Plugin.part_textContent p with
    | Some text =>
        Sql.update_where (PartInfo.id p)
          (λ r, Sql.shorter_than (MessageParts.text r) text)
          (Sql.set_part_text (Plugin.part_toolName p) text (PartInfo.to_json p))
          inserted
    | None => inserted
    end
  else
    Sql.update_where (PartInfo.id p)
      (λ r, Sql.stored_rank (MessageParts.content r) <=? Plugin.currentPriority p)
      (Sql.set_part_snapshot (Plugin.part_toolName p) (Plugin.part_textContent p)
         (PartInfo.to_json p))
      inserted.


(** The text a part event delivers: [textContent = part.text || null]. *)
Definition delivered_text (cp : Plugin.Clock * PartInfo.t) : option string :=
  Plugin.part_textContent cp.2.


(** ** Sample inputs *)

Definition sample_clock : Plugin.Clock :=
  {| Plugin.now := 1700000000000; Plugin.rnd := "k3v9x2a" |}.

Definition sample_later_clock : Plugin.Clock :=
  {| Plugin.now := 1700000000050; Plugin.rnd := "q7w1e5r" |}.

Definition sample_early_sweep_clock : Plugin.Clock :=
  {| Plugin.now := 1700000000020; Plugin.rnd := "" |}.

Definition sample_sweep_clock : Plugin.Clock :=
  {| Plugin.now := 1700000900001; Plugin.rnd := "" |}.

Definition sample_late_clock : Plugin.Clock :=
  {| Plugin.now := 1700000900050; Plugin.rnd := "z9y8x7w" |}.

Definition sample_assistant_message (tokens : option Tokens.t) : MessageInfo.t :=
  {| MessageInfo.id := "msg-1"; MessageInfo.sessionID := "sess-1";
     MessageInfo.role := "assistant"; MessageInfo.model := None;
     MessageInfo.providerID := Some "anthropic";
     MessageInfo.modelID := Some "claude";
     MessageInfo.parts := None; MessageInfo.summary := None;
     MessageInfo.system := None; MessageInfo.tokens := tokens |}.

Definition sample_tokens : Tokens.t :=
  {| Tokens.input := Some 100; Tokens.output := Some 20;
     Tokens.reasoning := Some 5;
     Tokens.cache := Some {| Tokens.read := Some 7; Tokens.write := Some 3 |} |}.


Definition sample_tool_input : ToolInput.t :=
  {| ToolInput.callID := "c1"; ToolInput.sessionID := "sess-1";
     ToolInput.tool := "bash" |}.

Definition other_tool_input : ToolInput.t :=
  {| ToolInput.callID := "c2"; ToolInput.sessionID := "sess-1";
     ToolInput.tool := "read" |}.

Definition sample_tool_args : ToolBefore.t :=
  {| ToolBefore.args := Some (JObj {["cmd" := JStr "ls"]}) |}.

Definition sample_tool_output : ToolAfter.t :=
  {| ToolAfter.title := Some "Bash"; ToolAfter.output := Some "a.txt";
     ToolAfter.metadata := Some (JObj ∅) |}.

Definition state_with_status (status : string) : PartInfo.state_t :=
  {| PartInfo.status := Some status; PartInfo.s_title := None;
     PartInfo.input := None; PartInfo.output := None;
     PartInfo.metadata := None; PartInfo.error := None; PartInfo.time := None |}.

Definition state_with_output (status : string) (output : option json)
    : PartInfo.state_t :=
  {| PartInfo.status := Some status; PartInfo.s_title := None;
     PartInfo.input := None; PartInfo.output := output;
     PartInfo.metadata := None; PartInfo.error := None; PartInfo.time := None |}.

Definition sample_tool_part (state : option PartInfo.state_t) (text : option string)
    : PartInfo.t :=
  {| PartInfo.id := "p1"; PartInfo.sessionID := "sess-1";
     PartInfo.messageID := "msg-1"; PartInfo.type := "tool";
     PartInfo.tool := Some "bash"; PartInfo.text := text;
     PartInfo.callID := Some "c1"; PartInfo.state := state;
     PartInfo.cost := None; PartInfo.tokens := None |}.

Definition sample_text_part (text : option string) : PartInfo.t :=
  {| PartInfo.id := "p-text"; PartInfo.sessionID := "sess-1";
     PartInfo.messageID := "msg-1"; PartInfo.type := "text";
     PartInfo.tool := None; PartInfo.text := text;
     PartInfo.callID := None; PartInfo.state := None;
     PartInfo.cost := None; PartInfo.tokens := None |}.

Definition sample_session : SessionInfo.t :=
  {| SessionInfo.id := "sess-1"; SessionInfo.title := Some "T";
     SessionInfo.parentID := None; SessionInfo.projectID := None;
     SessionInfo.directory := None; SessionInfo.share := None |}.

(** The plugin after the [session.created] event of ["sess-1"]. *)
Definition session_world : Plugin.World :=
  Plugin.event sample_clock (Event.session_created sample_session) initial_world.


Definition sample_step_finish (cost : Num.t) : PartInfo.t :=
  {| PartInfo.id := "p-finish"; PartInfo.sessionID := "sess-1";
     PartInfo.messageID := "msg-1"; PartInfo.type := "step-finish";
     PartInfo.tool := None; PartInfo.text := None; PartInfo.callID := None;
     PartInfo.state := None; PartInfo.cost := Some cost;
     PartInfo.tokens := None |}.

(** An operation that counts how often it is invoked. *)
Definition counting_query (n : nat) : Db.Outcome string * nat :=
  (Db.Fulfilled "row", S n).

(** *** Further vocabulary *)

Section MoreVocabulary.
Import Plugin.

(** [s'] is [s] after some statements, each executed on its own. *)
Definition written (s s' : Store) : Prop :=
  ∃ qs, s' = foldl (λ acc q, Sql.exec q acc) s qs.

(** The peak of a session row is set, is not negative, and is not below
    the current context size. *)
Definition peak_ok (r : Sessions.row) : Prop :=
  ∃ p c, Sessions.peak_context_tokens r = Some p
         ∧ Sessions.context_tokens r = Some c
         ∧ 0 ≤ p ∧ c ≤ p.

Definition peaks_ok (s : Store) : Prop :=
  ∀ k r, sessions s !! k = Some r → peak_ok r.

(** The peak of [r'] is not below the peak of [r]. *)
Definition peak_grows (r r' : Sessions.row) : Prop :=
  ∀ p, Sessions.peak_context_tokens r = Some p →
       ∃ p', Sessions.peak_context_tokens r' = Some p' ∧ p ≤ p'.

(** What an append-only relation may do: keep what it holds, in place. *)
Definition grows (s s' : Store) : Prop :=
  session_errors s `prefix_of` session_errors s'
  ∧ commands s `prefix_of` commands s'
  ∧ compactions s `prefix_of` compactions s'
  ∧ ∀ n r, tool_executions s !! n = Some r →
           ∃ r', tool_executions s' !! n = Some r' ∧ origin r' = origin r.

(** The words [safeQuery] looks for in the message of an [Error]. *)
Definition connectivity_words : list string :=
  [ "connection"; "timeout"; "ECONNREFUSED"; "ENOTFOUND"; "ETIMEDOUT" ].

(** [sub] occurs in [s]. *)
Definition occurs_in (sub s : string) : Prop :=
  ∃ pre post, s = pre +:+ sub +:+ post.

(** From [w] to [w'] nothing but the maps and the record of dispatched
    tasks has changed. *)
Definition quiet (w w' : World) : Prop :=
  store w' = store w ∧ health w' = health w ∧ log w' = log w.

(** An entry stamped [t] is at most fifteen minutes old at [now]. *)
Definition fresh_at (now t : Z) : Prop := now - t ≤ 900000.

(** Every part link has a timestamp, and every timestamp a part link. *)
Definition linked (x : Mem) : Prop :=
  ∀ k, is_Some (callIdToPartId x !! k) ↔ is_Some (callIdTimestamps x !! k).

(** No session holds an empty token-applied set. *)
Definition inhabited (x : Mem) : Prop :=
  ∀ sid m, tokensCountedBySession x !! sid = Some m → m ≠ ∅.

(** The token-applied set of a session, empty when the session has none. *)
Definition applied_set (x : Mem) (sessionID : string) : gmap string Z :=
  default ∅ (tokensCountedBySession x !! sessionID).

(** [pending?.partId || callIdToPartId.get(callID) || null]: the part the
    after hook of [callID] would annotate. *)
Definition correlated_part (x : Mem) (callID : string) : option string :=
  or_else (pendingExecutions x !! callID ≫= partId)
          (or_null (callIdToPartId x !! callID)).


(** The cost a delivery of a part sends to its session:
    [part.type === "step-finish" && part.cost !== undefined]. *)
Definition charge (p : PartInfo.t) : option Num.t :=
  if bool_decide (PartInfo.type p = "step-finish") then PartInfo.cost p else None.

(** That cost in units of [10^-6], rounded as the column rounds it; 0
    when the delivery sends none. *)
Definition cost_of (p : PartInfo.t) : Z :=
  match charge p with
  | Some k => Numeric.add 0 k
  | None => 0
  end.

(** The cost the delivery sends, if any, is not negative. *)
Definition charges_no_refund (p : PartInfo.t) : Prop :=
  ∀ k, charge p = Some k → 0 ≤ Num.coefficient k.

(** The tasks a part event dispatches, in the order of the handler: the
    cost of a [step-finish] part, the message row, the session row, the
    part row, the text of the message. *)
Definition part_event_tasks (p : PartInfo.t) : list (list Sql.Stmt) :=
  (match charge p with
   | Some cost => [ [ Sql.SessionAddCost (PartInfo.sessionID p) cost ] ]
   | None => []
   end
   ++ [ [ Sql.MessageEnsure (PartInfo.messageID p) (PartInfo.sessionID p) ];
        [ Sql.SessionEnsure (PartInfo.sessionID p) ];
        part_task p ]
   ++ match part_textContent p with
      | Some text =>
          if bool_decide (PartInfo.type p = "text")
          then [ [ Sql.MessageUpdateText (PartInfo.messageID p) text ] ]
          else []
      | None => []
      end)%list.

(** The Store after some tasks, each run until it ends or raises. *)
Definition run_tasks (tasks : list (list Sql.Stmt)) (s : Store) : Store :=
  foldl (λ acc task, Sql.exec_all task acc) s tasks.

(** The Store as the cost update of a part event leaves it. *)
Definition charged (p : PartInfo.t) (s : Store) : Store :=
  match charge p with
  | Some cost => Sql.exec (Sql.SessionAddCost (PartInfo.sessionID p) cost) s
  | None => s
  end.

(** [messages] after the insert of the message row of a part event: the
    row is inserted when the message is new and its session row is
    stored; a stored message row stays as it is. *)
Definition ensured_messages (p : PartInfo.t) (s : Store) : gmap string Messages.row :=
  match messages s !! PartInfo.messageID p, sessions s !! PartInfo.sessionID p with
  | None, None => messages s
  | _, _ =>
      Sql.upsert (PartInfo.messageID p)
        (Sql.placeholder_message (PartInfo.sessionID p)) (λ r, r) (messages s)
  end.

(** The update of the message text a part event of type [text] sends. *)
Definition offer_text (p : PartInfo.t) (t : gmap string Messages.row)
    : gmap string Messages.row :=
  match part_textContent p with
  | Some text =>
      if bool_decide (PartInfo.type p = "text")
      then Sql.update_where (PartInfo.messageID p)
             (λ r, Sql.shorter_than (Messages.text r) text)
             (Sql.set_message_text text) t
      else t
  | None => t
  end.

(** The cost update on one session row: the sum when it fits the
    column, the row as it was when the update is rejected. *)
Definition charge_row (cost : Num.t) (r : Sessions.row) : Sessions.row :=
  match Sessions.estimated_cost r with
  | Some e => if Numeric.fits (Numeric.add e cost) then Sql.add_cost cost r else r
  | None => Sql.add_cost cost r
  end.

(** Two part events of one session leave the same cost in either order:
    one of them sends no cost, or neither cost is negative, the stored
    cost is not negative and the sum stays within the column. *)
Definition costs_add_up (s : Store) (p1 p2 : PartInfo.t) : Prop :=
  charge p1 = None ∨ charge p2 = None
  ∨ (charges_no_refund p1 ∧ charges_no_refund p2
     ∧ ∀ r e, sessions s !! PartInfo.sessionID p1 = Some r →
              Sessions.estimated_cost r = Some e →
              0 ≤ e ∧ Numeric.fits (e + cost_of p1 + cost_of p2) = true).

(** [info.role === "user" ? pendingUserMessages.get(info.sessionID) :
    undefined]: the buffered chat message a [message.updated] event
    finds. *)
Definition pending_for (info : MessageInfo.t) (x : Mem) : option PendingUserMessage :=
  if bool_decide (MessageInfo.role info = "user")
  then pendingUserMessages x !! MessageInfo.sessionID info else None.

(** [textContent] of the message upsert. *)
Definition message_text (info : MessageInfo.t) (pending : option PendingUserMessage)
    : option string :=
  match pending, MessageInfo.parts info with
  | Some pending, None => joined_text (parts pending)
  | _, _ => None
  end.

(** [messageContent] of the message upsert, as [jsonb]. *)
Definition message_content (info : MessageInfo.t) (pending : option PendingUserMessage)
    : option json :=
  MessageInfo.items_to_json <$>
    match pending, MessageInfo.parts info with
    | Some pending, None => Some (parts pending)
    | _, given => given
    end.

(** [systemPrompt] of the message upsert. *)
Definition message_system (info : MessageInfo.t) (pending : option PendingUserMessage)
    : option string :=
  match pending with
  | Some pending => or_else (MessageInfo.system info) (or_null (systemPrompt pending))
  | None => or_null (MessageInfo.system info)
  end.

Definition message_provider (info : MessageInfo.t) : option string :=
  or_else (MessageInfo.providerID info)
          (or_null (MessageInfo.model info ≫= MessageInfo.m_providerID)).

Definition message_model (info : MessageInfo.t) : option string :=
  or_else (MessageInfo.modelID info)
          (or_null (MessageInfo.model info ≫= MessageInfo.m_modelID)).

Definition message_summary (info : MessageInfo.t) : option string :=
  or_null (MessageInfo.summary info ≫= MessageInfo.title).

(** The row the message upsert proposes for insertion. *)
Definition message_row (info : MessageInfo.t) (pending : option PendingUserMessage)
    : Messages.row :=
  {| Messages.session_id := MessageInfo.sessionID info;
     Messages.role := MessageInfo.role info;
     Messages.model_provider := message_provider info;
     Messages.model_id := message_model info;
     Messages.text := message_text info pending;
     Messages.summary := message_summary info;
     Messages.content := message_content info pending;
     Messages.system_prompt := message_system info pending |}.

(** What the message upsert does to a row that exists. *)
Definition message_merge (info : MessageInfo.t) (pending : option PendingUserMessage)
    : Messages.row → Messages.row :=
  Sql.merge_message (MessageInfo.role info) (message_provider info)
    (message_model info) (message_text info pending) (message_summary info)
    (message_content info pending) (message_system info pending).





(** The statements that can insert a session row. *)
Definition inserts_session (q : Sql.Stmt) : bool :=
  match q with
  | Sql.SessionUpsert _ _ _ _ _ | Sql.SessionTouch _ | Sql.SessionEnsure _ => true
  | _ => false
  end.

(** From [w] to [w'] the set of session ids is the same. *)
Definition same_session_ids (w w' : World) : Prop :=
  ∀ id, is_Some (sessions (store w') !! id) ↔ is_Some (sessions (store w) !! id).

(** The calls that can insert a session row. *)
Definition creates_sessions (k : Call) : bool :=
  match k with
  | call_event (Event.session_created _)
  | call_event (Event.message_updated _)
  | call_event (Event.message_part_updated _) => true
  | _ => false
  end.

(** The texts [joined_text] joins: those of the items of type [text]
    whose text is not empty. *)
Definition text_items (ps : list MessageInfo.item) : list string :=
  omap (λ p, if bool_decide (MessageInfo.type p = "text")
             then or_null (MessageInfo.text p) else None) ps.



(** [F] changes a keyed relation at the key [k] only, and what it leaves
    there depends only on what was there. *)
Definition acts_at {R} (k : string) (g : option R → option R)
    (F : gmap string R → gmap string R) : Prop :=
  ∀ t k', F t !! k' = if decide (k' = k) then g (t !! k) else t !! k'.

End MoreVocabulary.

(** * Properties *)

(** ** The health gate *)

Section HealthGate.
Import Db.

Lemma backoffMs_eq (f : nat) (t : Z) :
  backoffMs (mkHealth f t) = Z.min (1000 * 2 ^ (Z.of_nat f - 1)) 60000.
Proof. reflexivity. Qed.

Lemma isDatabaseHealthy_spec (now : Z) (h : Health) :
  isDatabaseHealthy now h = true ↔
  consecutiveFailures h = 0%nat ∨ backoffMs h ≤ now - lastFailureTime h.
Proof.
  unfold isDatabaseHealthy.
  destruct (Nat.eqb_spec (consecutiveFailures h) 0) as [Hz | Hnz].
  - split; [ intros _; left; exact Hz | reflexivity ].
  - rewrite Z.leb_le. split; [ intros Hle; right; exact Hle | ].
    intros [Hz | Hle]; [ contradiction | exact Hle ].
Qed.

Lemma safeQuery_closed {W T} (queryFn : W → Outcome T * W) now later h w :
  isDatabaseHealthy now h = false →
  safeQuery queryFn now later h w = (Returned None, h, w).
Proof. intros Hc. unfold safeQuery. rewrite Hc. reflexivity. Qed.

Lemma safeQuery_fulfilled {W T} (queryFn : W → Outcome T * W) now later h w v w' :
  isDatabaseHealthy now h = true →
  queryFn w = (Fulfilled v, w') →
  safeQuery queryFn now later h w = (Returned (Some v), markHealthy, w').
Proof. intros Ho Hq. unfold safeQuery. rewrite Ho, Hq. reflexivity. Qed.

(** A connectivity failure, a timeout included, counts one more
    failure; any other failure leaves the counter alone. *)
Lemma safeQuery_rejected {W T} (queryFn : W → Outcome T * W) now later h w o w' e :
  isDatabaseHealthy now h = true →
  queryFn w = (o, w') →
  race o = inr e →
  safeQuery queryFn now later h w =
    (Threw e, if isConnectivityError e then markUnhealthy later h else h, w').
Proof. intros Ho Hq Hr. unfold safeQuery. rewrite Ho, Hq. simpl. rewrite Hr. reflexivity. Qed.

Lemma timeout_is_connectivity_error :
  ∀ T, ∃ e, race (@Pending T) = inr e ∧ isConnectivityError e = true.
Proof. intros T. eexists. split; reflexivity. Qed.

(** C7. For every failure count [f] and every elapsed time since the
    last failure, the gate admits an operation exactly when [f = 0] or
    the elapsed time is at least [min(1000 * 2^(f-1), 60000)]
    milliseconds. When it does not admit, [safeQuery] returns
    [undefined] whatever the operation is, and leaves both the health
    variables and what the operation acts on as they were (the
    operation is not invoked). When it admits and the operation
    fulfils, the value is returned and the failure count is reset to
    zero. *)
Theorem health_gate_capped_backoff :
  ∀ (f : nat) (lastFailure now : Z),
    let h := mkHealth f lastFailure in
    let elapsed := now - lastFailure in
    (isDatabaseHealthy now h = true ↔
       f = 0%nat ∨ Z.min (1000 * 2 ^ (Z.of_nat f - 1)) 60000 ≤ elapsed)
    ∧ (∀ (W T : Type) (queryFn : W → Outcome T * W) (later : Z) (w : W),
         isDatabaseHealthy now h = false →
         safeQuery queryFn now later h w = (Returned None, h, w))
    ∧ (∀ (W T : Type) (queryFn : W → Outcome T * W) (later : Z) (w w' : W) (v : T),
         isDatabaseHealthy now h = true →
         queryFn w = (Fulfilled v, w') →
         ∃ h', safeQuery queryFn now later h w = (Returned (Some v), h', w')
               ∧ consecutiveFailures h' = 0%nat).
Proof.
  intros f lastFailure now h elapsed. split; [ | split ].
  - rewrite isDatabaseHealthy_spec. reflexivity.
  - intros W T queryFn later w Hc. apply safeQuery_closed, Hc.
  - intros W T queryFn later w w' v Ho Hq. exists markHealthy.
    split; [ apply safeQuery_fulfilled; assumption | reflexivity ].
Qed.

Lemma health_gate_capped_backoff_witness :
  let h := mkHealth 3 1000 in
  isDatabaseHealthy 5000 h = true
  ∧ isDatabaseHealthy 4999 h = false
  ∧ safeQuery counting_query 4999 4999 h 0%nat = (Returned None, h, 0%nat)
  ∧ ∃ h', safeQuery counting_query 5000 5000 h 0%nat = (Returned (Some "row"), h', 1%nat)
          ∧ consecutiveFailures h' = 0%nat.
Proof.
  intros h.
  destruct (health_gate_capped_backoff 3 1000 5000) as (Hopen & _ & Hrun).
  destruct (health_gate_capped_backoff 3 1000 4999) as (Hshut & Hskip & _).
  split; [ apply Hopen; right; vm_compute; discriminate | ].
  assert (Hc : isDatabaseHealthy 4999 h = false).
  { destruct (isDatabaseHealthy 4999 h) eqn:E; [ | reflexivity ].
    apply Hshut in E. destruct E as [E | E]; [ discriminate E | ].
    exfalso. apply E. reflexivity. }
  split; [ exact Hc | ]. split.
  - apply Hskip, Hc.
  - apply Hrun; reflexivity.
Defined.

End HealthGate.

(** ** Statements, tasks and constraints *)

Section Tasks.

(** No constraint of the schema reads as a connectivity failure. *)
Lemma error_of_not_connectivity v : Db.isConnectivityError (Sql.error_of v) = false.
Proof. destruct v as [[] |]; vm_compute; reflexivity. Qed.

Lemma run_cons_eq q qs s :
  Sql.run (q :: qs) s =
    match Sql.violation q s with
    | Some v => (Some v, s)
    | None => Sql.run qs (Sql.effect q s)
    end.
Proof. reflexivity. Qed.

Lemma exec_all_nil s : Sql.exec_all [] s = s.
Proof. reflexivity. Qed.

Lemma exec_all_cons q qs s :
  Sql.exec_all (q :: qs) s =
    match Sql.violation q s with
    | Some _ => s
    | None => Sql.exec_all qs (Sql.effect q s)
    end.
Proof. unfold Sql.exec_all. rewrite run_cons_eq. destruct (Sql.violation q s); reflexivity. Qed.

Lemma raises_cons q qs s :
  Sql.raises (q :: qs) s =
    match Sql.violation q s with
    | Some v => Some v
    | None => Sql.raises qs (Sql.effect q s)
    end.
Proof. unfold Sql.raises. rewrite run_cons_eq. destruct (Sql.violation q s); reflexivity. Qed.

Lemma exec_all_single q s : Sql.exec_all [ q ] s = Sql.exec q s.
Proof. rewrite exec_all_cons. unfold Sql.exec. destruct (Sql.violation q s); reflexivity. Qed.

Lemma raises_single q s : Sql.raises [ q ] s = Sql.violation q s.
Proof. rewrite raises_cons. destruct (Sql.violation q s); reflexivity. Qed.

(** A statement that meets no violation has its effect. *)
Lemma exec_effect q s : Sql.violation q s = None → Sql.exec q s = Sql.effect q s.
Proof. unfold Sql.exec. intros ->. reflexivity. Qed.

(** A statement that meets one changes nothing. *)
Lemma exec_raised q s v : Sql.violation q s = Some v → Sql.exec q s = s.
Proof. unfold Sql.exec. intros ->. reflexivity. Qed.

(** The Store a task leaves is the Store after some of its statements,
    each executed on its own. *)
Lemma exec_all_written qs s : written s (Sql.exec_all qs s).
Proof.
  revert s. induction qs as [| q qs IH]; intros s; [ exists []; reflexivity | ].
  rewrite exec_all_cons. destruct (Sql.violation q s) as [v |] eqn:E.
  - exists []. reflexivity.
  - destruct (IH (Sql.effect q s)) as [qs' ->]. exists (q :: qs'). cbn [foldl].
    rewrite (exec_effect _ _ E). reflexivity.
Qed.

End Tasks.

(** ** Write-behind dispatch through the gate *)

Section Dispatch.
Import Plugin.

Lemma healthy_admits now w : healthy w → Db.isDatabaseHealthy now (health w) = true.
Proof. unfold healthy, Db.isDatabaseHealthy. intros ->. reflexivity. Qed.

(** An admitted task runs until it ends or raises. A task that ends
    resets the health variables; one that a constraint rejects leaves
    them as they were and is reported to its [onError]. *)
Lemma fireAndForget_admitted c task onError w :
  Db.isDatabaseHealthy (now c) (health w) = true →
  fireAndForget c task onError w =
    {| mem := mem w;
       health := settled (Sql.raises task (store w)) (health w);
       store := Sql.exec_all task (store w);
       log := reported onError (Sql.raises task (store w)) (log w);
       dispatched := (dispatched w ++ [task])%list |}.
Proof.
  intros Ho. unfold fireAndForget, Db.fireAndForget, Db.safeQuery, run_task,
    Sql.raises, Sql.exec_all.
  rewrite Ho. cbn [negb fst snd]. destruct (Sql.run task (store w)) as [[v |] s'].
  - cbn [Db.race fst snd settled reported]. rewrite error_of_not_connectivity.
    destruct onError; reflexivity.
  - cbn [Db.race fst snd settled reported]. destruct onError; reflexivity.
Qed.

(** A refused task is recorded as dispatched and nothing else happens. *)
Lemma fireAndForget_refused c task onError w :
  Db.isDatabaseHealthy (now c) (health w) = false →
  fireAndForget c task onError w =
    {| mem := mem w; health := health w; store := store w; log := log w;
       dispatched := (dispatched w ++ [task])%list |}.
Proof.
  intros Hc. unfold fireAndForget, Db.fireAndForget, Db.safeQuery.
  rewrite Hc. reflexivity.
Qed.

Lemma fireAndForget_healthy c task onError w :
  healthy w →
  fireAndForget c task onError w =
    {| mem := mem w;
       health := settled (Sql.raises task (store w)) (health w);
       store := Sql.exec_all task (store w);
       log := reported onError (Sql.raises task (store w)) (log w);
       dispatched := (dispatched w ++ [task])%list |}.
Proof. intros H. apply fireAndForget_admitted, healthy_admits, H. Qed.

Lemma fireAndForget_dispatched c task onError w :
  dispatched (fireAndForget c task onError w) = (dispatched w ++ [task])%list.
Proof.
  destruct (Db.isDatabaseHealthy (now c) (health w)) eqn:E.
  - rewrite fireAndForget_admitted by exact E. reflexivity.
  - rewrite fireAndForget_refused by exact E. reflexivity.
Qed.

Lemma fireAndForget_mem c task onError w :
  mem (fireAndForget c task onError w) = mem w.
Proof.
  destruct (Db.isDatabaseHealthy (now c) (health w)) eqn:E.
  - rewrite fireAndForget_admitted by exact E. reflexivity.
  - rewrite fireAndForget_refused by exact E. reflexivity.
Qed.

(** The Store after a dispatch: what the task leaves when the gate
    admits it, the Store as it was when the gate refuses. *)
Lemma fireAndForget_store c task onError w :
  store (fireAndForget c task onError w) =
    if Db.isDatabaseHealthy (now c) (health w)
    then Sql.exec_all task (store w) else store w.
Proof.
  destruct (Db.isDatabaseHealthy (now c) (health w)) eqn:E.
  - rewrite fireAndForget_admitted by exact E. reflexivity.
  - rewrite fireAndForget_refused by exact E. reflexivity.
Qed.

Lemma healthy_markHealthy m s l d :
  healthy {| mem := m; health := Db.markHealthy; store := s; log := l; dispatched := d |}.
Proof. reflexivity. Qed.

Lemma healthy_settled raised w m s l d :
  healthy w →
  healthy {| mem := m; health := settled raised (health w); store := s; log := l;
             dispatched := d |}.
Proof. intros H. destruct raised; [ exact H | reflexivity ]. Qed.

Lemma healthy_fireAndForget c task onError w :
  healthy w → healthy (fireAndForget c task onError w).
Proof. intros H. rewrite fireAndForget_healthy by exact H. apply healthy_settled, H. Qed.

Lemma healthy_with_mem f w : healthy w → healthy (with_mem f w).
Proof. intros H. exact H. Qed.

Lemma healthy_admits_at c w : healthy w → admits c w.
Proof. apply healthy_admits. Qed.

Lemma admits_settled c raised w m s l d :
  admits c w →
  admits c {| mem := m; health := settled raised (health w); store := s; log := l;
              dispatched := d |}.
Proof. intros H. destruct raised; [ exact H | reflexivity ]. Qed.

Lemma admits_fireAndForget c task onError w :
  admits c w → admits c (fireAndForget c task onError w).
Proof. intros H. rewrite fireAndForget_admitted by exact H. apply admits_settled, H. Qed.

Lemma admits_with_mem c f w : admits c w → admits c (with_mem f w).
Proof. intros H. exact H. Qed.

Lemma admits_markHealthy c m s l d :
  admits c {| mem := m; health := Db.markHealthy; store := s; log := l; dispatched := d |}.
Proof. reflexivity. Qed.

Lemma refuses_fireAndForget c task onError w :
  refuses c w → refuses c (fireAndForget c task onError w).
Proof. intros H. rewrite fireAndForget_refused by exact H. exact H. Qed.

Lemma refuses_with_mem c f w : refuses c w → refuses c (with_mem f w).
Proof. intros H. exact H. Qed.


(** A task that ends through a gate that admits leaves the gate open. *)
Lemma healthy_after_success c task onError w :
  admits c w → Sql.raises task (store w) = None →
  healthy (fireAndForget c task onError w).
Proof. intros Ha Hr. rewrite fireAndForget_admitted by exact Ha. rewrite Hr. reflexivity. Qed.

End Dispatch.

(** The gate is open after any chain of dispatches from an open gate. *)
Ltac solve_healthy :=
  first [ assumption
        | apply healthy_markHealthy
        | apply healthy_settled; solve_healthy
        | apply healthy_with_mem; solve_healthy
        | apply healthy_fireAndForget; solve_healthy ].

Ltac solve_admits :=
  first [ assumption
        | apply admits_markHealthy
        | apply admits_settled; solve_admits
        | apply admits_with_mem; solve_admits
        | apply admits_fireAndForget; solve_admits ].

Ltac solve_refuses :=
  first [ assumption
        | apply refuses_with_mem; solve_refuses
        | apply refuses_fireAndForget; solve_refuses ].

(** Runs every dispatch of the goal through a gate that admits, or that
    refuses, at the clock of the hook. *)
Ltac dispatch_admitted :=
  repeat (rewrite fireAndForget_admitted by solve_admits).

Ltac dispatch_refused :=
  repeat (rewrite fireAndForget_refused by solve_refuses).

(** Runs every dispatch of the goal through an open gate. *)
Ltac dispatch_healthy :=
  repeat (rewrite fireAndForget_healthy by solve_healthy).

(** ** Keyed relations *)

Section KeyedRelations.
Context {R : Type}.
Implicit Types (t : gmap string R) (k : string).

Lemma update_where_lookup k k' cond f t :
  Sql.update_where k cond f t !! k' =
    if decide (k = k') then (λ r, if cond r then f r else r) <$> t !! k'
    else t !! k'.
Proof.
  unfold Sql.update_where. destruct (decide (k = k')) as [-> | Hne].
  - destruct (t !! k') as [r |] eqn:E; simpl; [ | exact E ].
    destruct (cond r); [ apply lookup_insert_eq | exact E ].
  - destruct (t !! k) as [r |]; [ | reflexivity ].
    destruct (cond r); [ apply lookup_insert_ne, Hne | reflexivity ].
Qed.

Lemma update_where_eq k cond f t r :
  t !! k = Some r →
  Sql.update_where k cond f t !! k = Some (if cond r then f r else r).
Proof. intros E. rewrite update_where_lookup, decide_True by reflexivity. rewrite E. reflexivity. Qed.

Lemma update_where_ne k k' cond f t :
  k ≠ k' → Sql.update_where k cond f t !! k' = t !! k'.
Proof. intros Hne. rewrite update_where_lookup, decide_False by exact Hne. reflexivity. Qed.

Lemma update_where_missing k cond f t :
  t !! k = None → Sql.update_where k cond f t = t.
Proof. intros E. unfold Sql.update_where. rewrite E. reflexivity. Qed.


Lemma update_where_is_Some k k' cond f t :
  is_Some (Sql.update_where k cond f t !! k') ↔ is_Some (t !! k').
Proof.
  rewrite update_where_lookup. destruct (decide (k = k')); [ | reflexivity ].
  rewrite fmap_is_Some. reflexivity.
Qed.

Lemma upsert_eq k r f t :
  Sql.upsert k r f t !! k = Some (match t !! k with Some old => f old | None => r end).
Proof. unfold Sql.upsert. destruct (t !! k); apply lookup_insert_eq. Qed.

Lemma upsert_ne k k' r f t :
  k ≠ k' → Sql.upsert k r f t !! k' = t !! k'.
Proof. intros Hne. unfold Sql.upsert. destruct (t !! k); apply lookup_insert_ne, Hne. Qed.


(** An upsert never removes a row. *)
Lemma upsert_is_Some k k' r f t :
  is_Some (t !! k') → is_Some (Sql.upsert k r f t !! k').
Proof.
  intros H. destruct (decide (k = k')) as [-> | Hne].
  - rewrite upsert_eq. eauto.
  - rewrite upsert_ne by exact Hne. exact H.
Qed.

End KeyedRelations.

(** ** Session events *)

Section SessionEvents.
Import Plugin.

Lemma or_null_Some s : s ≠ "" → or_null (Some s) = Some s.
Proof. destruct s; [ contradiction | reflexivity ]. Qed.


(** The task of [session.error] on a session that is stored, and on one
    that is not: there the insert raises and the update is never sent. *)
Lemma session_error_task sid type message data s :
  let task := [ Sql.SessionErrorInsert sid type message data; Sql.SessionMarkError sid ] in
  match sessions s !! sid with
  | Some row =>
      Sql.raises task s = None
      ∧ session_errors (Sql.exec_all task s)
        = (session_errors s ++
             [ {| SessionErrors.session_id := sid;
                  SessionErrors.error_type := Some type;
                  SessionErrors.error_message := message;
                  SessionErrors.error_data := data |} ])%list
      ∧ sessions (Sql.exec_all task s)
        = Sql.update_where sid Sql.always (Sql.set_status "error") (sessions s)
  | None =>
      Sql.raises task s = Some (Sql.foreign_key Sql.session_errors_session_id_fkey)
      ∧ Sql.exec_all task s = s
  end.
Proof.
  intros task. subst task. rewrite raises_cons, exec_all_cons.
  cbn [Sql.violation]. unfold Sql.references_session.
  destruct (sessions s !! sid) as [row |]; [ | split; reflexivity ].
  split; [ reflexivity | ]. split; reflexivity.
Qed.

(** C9. A [session.error] event without a session id changes nothing: no
    task is handed to the dispatcher and the World is as it was. With a
    session id (a non-empty string, which is what [if (sessionID)]
    accepts) one task is dispatched that holds both the insert of the
    error record and the change of the session status to ['error'].
    When the gate admits the task and the session row is stored, the
    record is appended to [session_errors] and the status of the row
    becomes ['error'], every other column and every other row staying as
    it was. When the session row is not stored the insert meets the
    foreign key and nothing is written, and when the gate refuses the
    task nothing is written either. *)
Theorem session_error_needs_session_id :
  ∀ (c : Clock) (error : option ErrorInfo.t) (w : World),
    event c (Event.session_error None error) w = w
    ∧ ∀ sid : string, sid ≠ "" →
        let w' := event c (Event.session_error (Some sid) error) w in
        let type := or_default (error ≫= ErrorInfo.name) "unknown" in
        let message := or_null ((error ≫= ErrorInfo.data) ≫= ErrorInfo.d_message) in
        let data := ErrorInfo.to_json <$> error in
        dispatched w' =
          (dispatched w ++
             [ [ Sql.SessionErrorInsert sid type message data;
                 Sql.SessionMarkError sid ] ])%list
        ∧ (∀ row : Sessions.row,
             admits c w →
             sessions (store w) !! sid = Some row →
             session_errors (store w') =
               (session_errors (store w) ++
                  [ {| SessionErrors.session_id := sid;
                       SessionErrors.error_type := Some type;
                       SessionErrors.error_message := message;
                       SessionErrors.error_data := data |} ])%list
             ∧ (∃ row', sessions (store w') !! sid = Some row'
                        ∧ Sessions.status row' = Some "error"
                        ∧ row' = Sql.set_status "error" row)
             ∧ ∀ k, k ≠ sid → sessions (store w') !! k = sessions (store w) !! k)
        ∧ (sessions (store w) !! sid = None → store w' = store w)
        ∧ (refuses c w → store w' = store w).
Proof.
  intros c error w. split; [ reflexivity | ].
  intros sid Hsid. cbn zeta.
  unfold event, session_error. rewrite (or_null_Some _ Hsid).
  pose proof (session_error_task sid (or_default (error ≫= ErrorInfo.name) "unknown")
                (or_null ((error ≫= ErrorInfo.data) ≫= ErrorInfo.d_message))
                (ErrorInfo.to_json <$> error) (store w)) as Htask.
  cbv zeta in Htask.
  split; [ apply fireAndForget_dispatched | ]. split; [ | split ].
  - intros row Ha E. rewrite E in Htask. destruct Htask as (_ & He & Hs).
    rewrite fireAndForget_admitted by exact Ha. cbn [store].
    split; [ exact He | ]. rewrite Hs. split.
    + rewrite (update_where_eq _ _ _ _ _ E). eexists. split; [ reflexivity | ].
      repeat split.
    + intros k Hne. apply update_where_ne. congruence.
  - intros E. rewrite E in Htask. destruct Htask as [_ Hs].
    rewrite fireAndForget_store. destruct (Db.isDatabaseHealthy _ _); [ exact Hs | reflexivity ].
  - intros Hr. rewrite fireAndForget_refused by exact Hr. reflexivity.
Qed.

Lemma session_error_needs_session_id_witness :
  let error := Some {| ErrorInfo.name := Some "TestError";
                       ErrorInfo.data := Some {| ErrorInfo.d_message := Some "boom" |} |} in
  let w' := event sample_later_clock (Event.session_error (Some "sess-1") error)
              session_world in
  let lost := event sample_later_clock (Event.session_error (Some "sess-9") error)
                session_world in
  event sample_later_clock (Event.session_error None error) session_world = session_world
  ∧ length (dispatched w') = 2%nat
  ∧ length (session_errors (store w')) = 1%nat
  ∧ Sessions.status <$> sessions (store w') !! "sess-1" = Some (Some "error")
  ∧ store lost = store session_world.
Proof.
  intros error w' lost.
  destruct (session_error_needs_session_id sample_later_clock error session_world)
    as [Habsent Hpresent].
  split; [ exact Habsent | ].
  assert (Hne : "sess-1" ≠ "") by discriminate.
  assert (Hne9 : "sess-9" ≠ "") by discriminate.
  destruct (Hpresent "sess-1" Hne) as (Hd & Hs & _).
  destruct (Hpresent "sess-9" Hne9) as (_ & _ & Hlost & _).
  assert (Ha : admits sample_later_clock session_world) by reflexivity.
  assert (E : sessions (store session_world) !! "sess-1"
              = Some (Sql.created_row (Some "T") None None None)).
  { vm_compute. reflexivity. }
  destruct (Hs _ Ha E) as (He & (row' & Erow & Hst & _) & _).
  subst w' lost. split; [ rewrite Hd; reflexivity | ].
  split; [ rewrite He; reflexivity | ].
  split; [ rewrite Erow; cbn [fmap option_fmap option_map]; rewrite Hst; reflexivity | ].
  apply Hlost. vm_compute. reflexivity.
Defined.

Lemma kept_refl {A} (a : option A) : kept a a.
Proof. intros H. exact H. Qed.

Lemma kept_COALESCE {A} (new old : option A) : kept old (COALESCE new old).
Proof. intros [x ->]. destruct new; simpl; eauto. Qed.

Lemma kept_Some {A} (old : option A) (x : A) : kept old (Some x).
Proof. intros _. eauto. Qed.

Lemma kept_sql_add a k : kept a (sql_add a k).
Proof. intros [x ->]. simpl. eauto. Qed.

Lemma kept_fmap {A} (f : A → A) (a : option A) : kept a (f <$> a).
Proof. intros [x ->]. simpl. eauto. Qed.

Lemma kept_GREATEST a b : kept a (GREATEST a b).
Proof. intros [x ->]. destruct b; simpl; eauto. Qed.

Create HintDb kept.
#[local] Hint Resolve kept_refl kept_COALESCE kept_Some kept_sql_add kept_fmap
  kept_GREATEST : kept.

Ltac solve_keeps_known := unfold keeps_known; simpl; repeat split; auto with kept.

Lemma keeps_known_refl r : keeps_known r r.
Proof. solve_keeps_known. Qed.

(** Whatever statement has its effect, a session row that exists still
    exists and none of its columns has gone from a value to NULL. *)
Lemma effect_keeps_known (q : Sql.Stmt) (s : Store) (k : string) (r : Sessions.row) :
  sessions s !! k = Some r →
  ∃ r', sessions (Sql.effect q s) !! k = Some r' ∧ keeps_known r r'.
Proof.
  intros E.
  destruct q; simpl;
    try (exists r; split; [ exact E | apply keeps_known_refl ]);
    match goal with
    | |- context [ Sql.update_where ?id _ _ _ ] =>
        destruct (decide (id = k)) as [-> | Hne];
        [ rewrite (update_where_eq _ _ _ _ _ E); simpl; eexists; split;
          [ reflexivity | solve_keeps_known ]
        | rewrite update_where_ne by exact Hne; exists r; split;
          [ exact E | apply keeps_known_refl ] ]
    | |- context [ Sql.upsert ?id _ _ _ ] =>
        destruct (decide (id = k)) as [-> | Hne];
        [ rewrite upsert_eq, E; eexists; split;
          [ reflexivity | solve_keeps_known ]
        | rewrite upsert_ne by exact Hne; exists r; split;
          [ exact E | apply keeps_known_refl ] ]
    end.
Qed.

(** The same of every statement executed, whether it raises or not. *)
Lemma exec_keeps_known (q : Sql.Stmt) (s : Store) (k : string) (r : Sessions.row) :
  sessions s !! k = Some r →
  ∃ r', sessions (Sql.exec q s) !! k = Some r' ∧ keeps_known r r'.
Proof.
  intros E. unfold Sql.exec. destruct (Sql.violation q s).
  - exists r. split; [ exact E | apply keeps_known_refl ].
  - apply effect_keeps_known, E.
Qed.

(** C8. On a session whose row exists, [session.updated] writes
    [COALESCE(new, existing)] to [title] and [share_url], so an event
    with a null title leaves the stored title as it is; the [DO UPDATE]
    of [session.created] does the same to [title], [parent_id],
    [project_id] and [directory]; and no statement of the plugin takes a
    column of a session row from a value to NULL. *)
Theorem session_known_fields_survive :
  ∀ (c : Clock) (info : SessionInfo.t) (w : World) (row : Sessions.row),
    healthy w →
    sessions (store w) !! SessionInfo.id info = Some row →
    (∃ row',
        sessions (store (event c (Event.session_updated info) w))
          !! SessionInfo.id info = Some row'
        ∧ Sessions.title row' =
            COALESCE (or_null (SessionInfo.title info)) (Sessions.title row)
        ∧ Sessions.share_url row' =
            COALESCE (or_null (SessionInfo.share info ≫= SessionInfo.url))
                     (Sessions.share_url row)
        ∧ (SessionInfo.title info = None → Sessions.title row' = Sessions.title row)
        ∧ keeps_known row row')
    ∧ (∃ row',
        sessions (store (event c (Event.session_created info) w))
          !! SessionInfo.id info = Some row'
        ∧ Sessions.title row' =
            COALESCE (or_null (SessionInfo.title info)) (Sessions.title row)
        ∧ Sessions.parent_id row' =
            COALESCE (or_null (SessionInfo.parentID info)) (Sessions.parent_id row)
        ∧ Sessions.project_id row' =
            COALESCE (or_null (SessionInfo.projectID info)) (Sessions.project_id row)
        ∧ Sessions.directory row' =
            COALESCE (or_null (SessionInfo.directory info)) (Sessions.directory row)
        ∧ keeps_known row row')
    ∧ (∀ (q : Sql.Stmt) (s : Store) (k : string) (r : Sessions.row),
        sessions s !! k = Some r →
        ∃ r', sessions (Sql.exec q s) !! k = Some r' ∧ keeps_known r r').
Proof.
  intros c info w row Hh E. split; [ | split ].
  - unfold event, session_updated. rewrite fireAndForget_healthy by exact Hh.
    cbn [store]. rewrite exec_all_single. unfold Sql.exec.
    cbn [Sql.violation Sql.effect Sql.on_sessions sessions].
    rewrite (update_where_eq _ _ _ _ _ E). simpl.
    eexists. split; [ reflexivity | ]. simpl.
    split; [ reflexivity | ]. split; [ reflexivity | ].
    split; [ intros ->; reflexivity | solve_keeps_known ].
  - unfold event, session_created. rewrite fireAndForget_healthy by exact Hh.
    cbn [store]. rewrite exec_all_single. unfold Sql.exec.
    cbn [Sql.violation Sql.effect Sql.on_sessions sessions].
    rewrite upsert_eq, E.
    eexists. split; [ reflexivity | ]. simpl.
    repeat (split; [ reflexivity | ]). solve_keeps_known.
  - apply exec_keeps_known.
Qed.

Lemma session_known_fields_survive_witness :
  let c := {| now := 1700000000000; rnd := "k3v9x2a" |} in
  let created := {| SessionInfo.id := "s1"; SessionInfo.title := Some "T";
                    SessionInfo.parentID := None; SessionInfo.projectID := None;
                    SessionInfo.directory := None; SessionInfo.share := None |} in
  let updated := {| SessionInfo.id := "s1"; SessionInfo.title := None;
                    SessionInfo.parentID := None; SessionInfo.projectID := None;
                    SessionInfo.directory := None; SessionInfo.share := None |} in
  let w1 := event c (Event.session_created created) initial_world in
  let w2 := event c (Event.session_updated updated) w1 in
  Sessions.title <$> sessions (store w2) !! "s1" = Some (Some "T").
Proof.
  intros c created updated w1 w2.
  assert (Hh : healthy w1) by reflexivity.
  assert (E : sessions (store w1) !! SessionInfo.id updated
              = Some (Sql.created_row (Some "T") None None None)).
  { vm_compute. reflexivity. }
  destruct (session_known_fields_survive c updated w1 _ Hh E)
    as [(row' & E' & _ & _ & Htitle & _) _].
  change (SessionInfo.id updated) with "s1" in E'.
  subst w2. rewrite E'. simpl. rewrite Htitle by reflexivity. reflexivity.
Defined.

(** The empty string is no session id either. *)
Lemma session_error_empty_session_id c error w :
  event c (Event.session_error (Some "") error) w = w.
Proof. reflexivity. Qed.

End SessionEvents.

(** ** Token accounting *)

Section TokenAccounting.
Import Plugin.

Lemma token_writes_snoc d q :
  token_writes (d ++ [[q]]) =
    (token_writes d + (if is_token_write q then 1 else 0))%nat.
Proof.
  unfold token_writes. rewrite concat_app, filter_app, length_app. f_equal.
  cbn [concat app]. rewrite filter_cons, filter_nil.
  destruct (is_token_write q).
  - rewrite decide_True by reflexivity. reflexivity.
  - rewrite decide_False by discriminate. reflexivity.
Qed.

Lemma touch_lookup sessionID (t : gmap string Sessions.row) :
  Sql.upsert sessionID (Sessions.fresh (Some "active")) (λ r, r) t !! sessionID
  = Some (touched sessionID t).
Proof. rewrite upsert_eq. unfold touched. destruct (t !! sessionID); reflexivity. Qed.

Lemma touched_touch sessionID (t : gmap string Sessions.row) :
  touched sessionID (Sql.upsert sessionID (Sessions.fresh (Some "active")) (λ r, r) t)
  = touched sessionID t.
Proof. unfold touched at 1. rewrite touch_lookup. reflexivity. Qed.

(** The upsert of a message whose session row is stored raises nothing,
    and touches [messages] only. *)
Lemma message_upsert_stored id sid role model_provider model_id text summary content
    system_prompt s :
  is_Some (sessions s !! sid) →
  let q := Sql.MessageUpsert id sid role model_provider model_id text summary content
             system_prompt in
  Sql.raises [ q ] s = None
  ∧ Sql.exec_all [ q ] s = Sql.effect q s.
Proof.
  intros [r E] q. subst q. rewrite raises_single, exec_all_single. unfold Sql.exec.
  cbn [Sql.violation]. unfold Sql.references_session. rewrite E.
  destruct (messages s !! id); split; reflexivity.
Qed.

(** The two upserts at the head of [message.updated], through a gate
    that admits: the session row is there afterwards, the message
    upsert meets no foreign key, and the gate is open. *)
Lemma message_updated_head c sid q onError w :
  admits c w →
  (∃ id role model_provider model_id text summary content system_prompt,
      q = Sql.MessageUpsert id sid role model_provider model_id text summary content
            system_prompt) →
  let w1 := fireAndForget c [ q ] onError
              (fireAndForget c [ Sql.SessionTouch sid ] None w) in
  healthy w1
  ∧ log w1 = log w
  ∧ sessions (store w1)
    = Sql.upsert sid (Sessions.fresh (Some "active")) (λ r, r) (sessions (store w))
  ∧ messages (store w1) = messages (Sql.effect q (store w))
  ∧ message_parts (store w1) = message_parts (store w)
  ∧ tool_executions (store w1) = tool_executions (store w)
  ∧ session_errors (store w1) = session_errors (store w)
  ∧ commands (store w1) = commands (store w)
  ∧ compactions (store w1) = compactions (store w).
Proof.
  intros Ha (id & role & mp & mi & tx & su & co & sp & ->) w1. subst w1.
  dispatch_admitted.
  set (s1 := Sql.exec_all [ Sql.SessionTouch sid ] (store w)).
  assert (Hs1 : sessions s1
                = Sql.upsert sid (Sessions.fresh (Some "active")) (λ r, r)
                    (sessions (store w))) by reflexivity.
  assert (Hin : is_Some (sessions s1 !! sid)) by (rewrite Hs1, upsert_eq; eauto).
  destruct (message_upsert_stored id sid role mp mi tx su co sp s1 Hin) as [Hr He].
  cbn [mem health store log dispatched]. rewrite Hr, He.
  split; [ reflexivity | ]. split; [ reflexivity | ].
  repeat split.
Qed.

Ltac run_message_updated Hrole Htok :=
  cbv beta iota zeta delta [event message_updated];
  rewrite Hrole, Htok;
  rewrite (bool_decide_eq_false_2 ("assistant" = "user")) by discriminate;
  rewrite (bool_decide_eq_true_2 ("assistant" = "assistant")) by reflexivity;
  cbv beta iota;
  rewrite !fireAndForget_mem.

(** A first contributing update marks its id and hands one token update
    to the dispatcher, whatever the gate does with it. *)
Lemma message_updated_marks (c : Clock) (info : MessageInfo.t) (tokens : Tokens.t)
    (w : World) :
  MessageInfo.role info = "assistant" →
  MessageInfo.tokens info = Some tokens →
  ¬ applied (mem w) (MessageInfo.sessionID info) (MessageInfo.id info) →
  0 < nullish0 (Tokens.input tokens) ∨ 0 < nullish0 (Tokens.output tokens) →
  let w1 := event c (Event.message_updated info) w in
  applied (mem w1) (MessageInfo.sessionID info) (MessageInfo.id info)
  ∧ token_writes (dispatched w1) = S (token_writes (dispatched w)).
Proof.
  intros Hrole Htok Hnew Hpos. run_message_updated Hrole Htok.
  unfold applied in Hnew. rewrite (bool_decide_eq_false_2 _ Hnew).
  assert (Hgt : (0 <? nullish0 (Tokens.input tokens))
                || (0 <? nullish0 (Tokens.output tokens)) = true).
  { apply orb_true_iff. rewrite !Z.ltb_lt. exact Hpos. }
  cbn [andb negb]. rewrite Hgt.
  rewrite !fireAndForget_mem, !fireAndForget_dispatched.
  cbn [mem dispatched with_mem]. rewrite !fireAndForget_dispatched.
  split.
  - unfold applied. cbn [tokensCountedBySession set_tokensCountedBySession].
    rewrite lookup_insert_eq. cbn [default from_option id]. rewrite lookup_insert_eq. eauto.
  - rewrite !token_writes_snoc. cbn [is_token_write]. lia.
Qed.


(** An update that does not contribute: already applied, or reporting no
    input and no output tokens. Nothing is marked, no token update is
    dispatched, and through a gate that admits the session row is the
    one the upsert at the head of the handler leaves. *)
Lemma message_updated_skips (c : Clock) (info : MessageInfo.t) (tokens : Tokens.t)
    (w : World) :
  MessageInfo.role info = "assistant" →
  MessageInfo.tokens info = Some tokens →
  applied (mem w) (MessageInfo.sessionID info) (MessageInfo.id info)
  ∨ (nullish0 (Tokens.input tokens) ≤ 0 ∧ nullish0 (Tokens.output tokens) ≤ 0) →
  let w1 := event c (Event.message_updated info) w in
  mem w1 = mem w
  ∧ token_writes (dispatched w1) = token_writes (dispatched w)
  ∧ (admits c w →
       healthy w1
       ∧ sessions (store w1) !! MessageInfo.sessionID info =
           Some (touched (MessageInfo.sessionID info) (sessions (store w))))
  ∧ (refuses c w → store w1 = store w).
Proof.
  intros Hrole Htok Hskip. run_message_updated Hrole Htok.
  assert (Hout :
    ∀ w1 w2 : World,
      (if true && negb (bool_decide (is_Some
            (default ∅ (tokensCountedBySession (mem w) !! MessageInfo.sessionID info)
               !! MessageInfo.id info)))
       then if (0 <? nullish0 (Tokens.input tokens))
               || (0 <? nullish0 (Tokens.output tokens))
            then w1 else w2
       else w2) = w2).
  { intros w1 w2. destruct Hskip as [Happ | [Hi Ho]].
    - unfold applied in Happ. rewrite (bool_decide_eq_true_2 _ Happ). reflexivity.
    - assert (Hle : (0 <? nullish0 (Tokens.input tokens))
                    || (0 <? nullish0 (Tokens.output tokens)) = false).
      { apply orb_false_iff. rewrite !Z.ltb_ge. split; assumption. }
      rewrite Hle. destruct (negb _); reflexivity. }
  rewrite Hout. rewrite !fireAndForget_mem, !fireAndForget_dispatched.
  split; [ reflexivity | ]. split; [ | split ].
  - rewrite !token_writes_snoc. cbn [is_token_write]. lia.
  - intros Ha.
    match goal with
    | |- context [ fireAndForget c [ ?q ] ?err
                     (fireAndForget c [ Sql.SessionTouch ?sid ] None w) ] =>
        destruct (message_updated_head c sid q err w Ha) as (Hh1 & _ & Hs1 & _);
        [ do 8 eexists; reflexivity | ]
    end.
    split; [ exact Hh1 | ]. rewrite Hs1. apply touch_lookup.
  - intros Hr. dispatch_refused. reflexivity.
Qed.









End TokenAccounting.

(** ** Tool executions *)

Section ToolHooks.
Import Plugin.

(** The annotation of a part raises nothing and does not touch
    [tool_executions]. *)
Lemma annotate_part_run partId output s :
  Sql.raises (annotate_part partId output) s = None
  ∧ tool_executions (Sql.exec_all (annotate_part partId output) s) = tool_executions s
  ∧ sessions (Sql.exec_all (annotate_part partId output) s) = sessions s
  ∧ messages (Sql.exec_all (annotate_part partId output) s) = messages s
  ∧ message_parts (Sql.exec_all (annotate_part partId output) s)
    = match partId, or_null (ToolAfter.output output) with
      | Some pid, Some out =>
          Sql.update_where pid Sql.output_is_null
            (Sql.set_part_output (JStr (JSON.stringify out))) (message_parts s)
      | _, _ => message_parts s
      end.
Proof.
  unfold annotate_part.
  destruct partId; [ destruct (or_null (ToolAfter.output output)) | ]; repeat split.
Qed.

(** The insert of the before hook: the row is appended when the session
    row is stored, and the foreign key rejects it otherwise. *)
Lemma tool_execution_start c input output s :
  let q := Sql.ToolExecutionStart (generateCorrelationId c) (ToolInput.sessionID input)
             (ToolInput.tool input) (nullish (ToolBefore.args output)) (now c) in
  tool_executions (Sql.exec_all [ q ] s)
  = (tool_executions s ++
       match sessions s !! ToolInput.sessionID input with
       | Some _ => [ started_row c input output ]
       | None => []
       end)%list
  ∧ sessions (Sql.exec_all [ q ] s) = sessions s
  ∧ messages (Sql.exec_all [ q ] s) = messages s
  ∧ message_parts (Sql.exec_all [ q ] s) = message_parts s.
Proof.
  intros q. subst q. rewrite exec_all_single. unfold Sql.exec.
  cbn [Sql.violation]. unfold Sql.references_session.
  destruct (sessions s !! ToolInput.sessionID input); repeat split.
  symmetry. apply app_nil_r.
Qed.

Lemma tool_execute_before_spec c input output w :
  healthy w →
  let w1 := tool_execute_before c input output w in
  healthy w1
  ∧ tool_executions (store w1) =
      (tool_executions (store w) ++
         match sessions (store w) !! ToolInput.sessionID input with
         | Some _ => [ started_row c input output ]
         | None => []
         end)%list
  ∧ sessions (store w1) = sessions (store w)
  ∧ ∃ p, pendingExecutions (mem w1) !! ToolInput.callID input = Some p
         ∧ correlationId p = generateCorrelationId c
         ∧ startedAt p = now c.
Proof.
  intros Hh. unfold tool_execute_before. cbv zeta.
  rewrite fireAndForget_healthy by solve_healthy.
  cbn [mem health store log dispatched with_mem].
  destruct (tool_execution_start c input output (store w)) as (Ht & Hs & _).
  split; [ apply healthy_settled, Hh | ]. split; [ exact Ht | ]. split; [ exact Hs | ].
  cbn [pendingExecutions set_pendingExecutions]. rewrite lookup_insert_eq.
  eexists. split; [ reflexivity | ]. split; reflexivity.
Qed.

Lemma tool_execute_after_matched c input output w p :
  healthy w →
  pendingExecutions (mem w) !! ToolInput.callID input = Some p →
  let w2 := tool_execute_after c input output w in
  healthy w2
  ∧ tool_executions (store w2) =
      map (Sql.complete_where (correlationId p) (JStr <$> ToolAfter.output output)
             (now c) (now c - startedAt p))
          (tool_executions (store w))
  ∧ sessions (store w2) = sessions (store w)
  ∧ pendingExecutions (mem w2) !! ToolInput.callID input = None.
Proof.
  intros Hh Hp. unfold tool_execute_after. cbv zeta. rewrite Hp.
  rewrite fireAndForget_healthy by solve_healthy.
  cbn [mem health store log dispatched with_mem].
  split; [ apply healthy_settled, Hh | ]. rewrite exec_all_cons. cbn [Sql.violation].
  match goal with
  | |- context [ Sql.exec_all (annotate_part ?pid output) ?s ] =>
      destruct (annotate_part_run pid output s) as (_ & Ht & Hs & _)
  end.
  split; [ rewrite Ht; reflexivity | ]. split; [ rewrite Hs; reflexivity | ].
  cbn [pendingExecutions set_pendingExecutions set_callIdToPartId
       set_callIdTimestamps]. apply lookup_delete_eq.
Qed.

Lemma tool_execute_after_orphan c input output w :
  healthy w →
  pendingExecutions (mem w) !! ToolInput.callID input = None →
  let w2 := tool_execute_after c input output w in
  healthy w2
  ∧ tool_executions (store w2) =
      (tool_executions (store w) ++
         match sessions (store w) !! ToolInput.sessionID input with
         | Some _ => [ orphan_row c input output ]
         | None => []
         end)%list
  ∧ sessions (store w2) = sessions (store w)
  ∧ pendingExecutions (mem w2) !! ToolInput.callID input = None.
Proof.
  intros Hh Hp. unfold tool_execute_after. cbv zeta. rewrite Hp.
  rewrite fireAndForget_healthy by solve_healthy.
  cbn [mem health store log dispatched with_mem].
  split; [ apply healthy_settled, Hh | ]. rewrite exec_all_cons. cbn [Sql.violation].
  unfold Sql.references_session.
  destruct (sessions (store w) !! ToolInput.sessionID input) as [r |].
  - match goal with
    | |- context [ Sql.exec_all (annotate_part ?pid output) ?s ] =>
        destruct (annotate_part_run pid output s) as (_ & Ht & Hs & _)
    end.
    split; [ rewrite Ht; reflexivity | ]. split; [ rewrite Hs; reflexivity | ].
    cbn [pendingExecutions set_pendingExecutions set_callIdToPartId
         set_callIdTimestamps]. exact Hp.
  - split; [ symmetry; apply app_nil_r | ]. split; [ reflexivity | ].
    cbn [pendingExecutions set_pendingExecutions set_callIdToPartId
         set_callIdTimestamps]. exact Hp.
Qed.

Lemma effect_off_tool_executions q s :
  off_tool_executions q = true → tool_executions (Sql.effect q s) = tool_executions s.
Proof. destruct q; simpl; intros H; try discriminate H; reflexivity. Qed.

Lemma exec_all_off_tool_executions qs s :
  forallb off_tool_executions qs = true →
  tool_executions (Sql.exec_all qs s) = tool_executions s.
Proof.
  revert s. induction qs as [| q qs IH]; intros s H; [ reflexivity | ].
  simpl in H. apply andb_true_iff in H as [Hq Hqs].
  rewrite exec_all_cons. destruct (Sql.violation q s); [ reflexivity | ].
  rewrite IH by exact Hqs. apply effect_off_tool_executions, Hq.
Qed.

Lemma undisturbed_refl w : undisturbed w w.
Proof. repeat split; auto. Qed.

Lemma undisturbed_trans w1 w2 w3 :
  undisturbed w1 w2 → undisturbed w2 w3 → undisturbed w1 w3.
Proof.
  intros (Hh & Ht & Hp) (Hh' & Ht' & Hp'). split; [ auto | ]. split.
  - rewrite Ht'. exact Ht.
  - intros k. rewrite Hp'. apply Hp.
Qed.

Lemma undisturbed_fireAndForget c task onError w :
  forallb off_tool_executions task = true →
  undisturbed w (fireAndForget c task onError w).
Proof.
  intros Hoff. split; [ apply healthy_fireAndForget | ]. split.
  - rewrite fireAndForget_store. destruct (Db.isDatabaseHealthy (now c) (health w)).
    + apply exec_all_off_tool_executions, Hoff.
    + reflexivity.
  - intros k. rewrite fireAndForget_mem. reflexivity.
Qed.

Lemma undisturbed_with_mem f w :
  (∀ k, tie <$> pendingExecutions (f (mem w)) !! k = tie <$> pendingExecutions (mem w) !! k) →
  undisturbed w (with_mem f w).
Proof. intros H. split; [ auto | ]. split; [ reflexivity | exact H ]. Qed.

Lemma part_task_off_tool_executions part :
  forallb off_tool_executions (part_task part) = true.
Proof.
  unfold part_task. destruct (isStreamingTextPart part); [ | reflexivity ].
  destruct (part_textContent part); reflexivity.
Qed.

Lemma alter_set_partId_tie p callID (m : gmap string PendingExecution) k :
  tie <$> alter (set_partId p) callID m !! k = tie <$> m !! k.
Proof.
  rewrite lookup_alter. destruct (decide (callID = k)) as [-> | ]; [ | reflexivity ].
  destruct (m !! k); reflexivity.
Qed.

Ltac undisturbed_step :=
  match goal with
  | |- undisturbed ?w ?w => apply undisturbed_refl
  | |- undisturbed _ (fireAndForget _ (part_task _) _ _) =>
      eapply undisturbed_trans;
      [ | apply undisturbed_fireAndForget, part_task_off_tool_executions ]
  | |- undisturbed _ (fireAndForget _ _ _ _) =>
      eapply undisturbed_trans; [ | apply undisturbed_fireAndForget; reflexivity ]
  | |- undisturbed _ (with_mem _ _) =>
      eapply undisturbed_trans;
      [ | apply undisturbed_with_mem; intros ?;
          first [ reflexivity | apply alter_set_partId_tie ] ]
  | |- undisturbed _ (match ?x with _ => _ end) => destruct x
  end.

Lemma undisturbed_session_compacted c sessionID w :
  undisturbed w (session_compacted c sessionID w).
Proof.
  unfold session_compacted, Db.safeQuery, read_session.
  destruct (Db.isDatabaseHealthy (now c) (health w)) eqn:E; cbn [negb Db.race];
    cbv beta iota zeta.
  - eapply undisturbed_trans with
      (w2 := {| mem := mem w; health := Db.markHealthy; store := store w;
                log := log w; dispatched := dispatched w |}).
    { split; [ reflexivity | ]. split; [ reflexivity | ]. intros k. reflexivity. }
    cbn [fst snd mbind option_bind]. repeat undisturbed_step.
  - eapply undisturbed_trans with
      (w2 := {| mem := mem w; health := health w; store := store w;
                log := log w; dispatched := dispatched w |}).
    { split; [ intros H; exact H | ]. split; [ reflexivity | ]. intros k. reflexivity. }
    cbn [mbind option_bind]. repeat undisturbed_step.
Qed.

Lemma undisturbed_event c e w : undisturbed w (event c e w).
Proof.
  destruct e; cbv beta iota zeta delta
    [event session_created session_updated session_deleted session_idle
     session_error message_removed message_part_removed command_executed
     message_updated message_part_updated];
    try apply undisturbed_session_compacted; repeat undisturbed_step.
Qed.

Lemma undisturbed_chat_message c input w : undisturbed w (chat_message c input w).
Proof.
  cbv beta iota zeta delta [chat_message]. repeat undisturbed_step.
Qed.

(** The part the after hook annotates:
    [pending?.partId || callIdToPartId.get(input.callID) || null]. The
    annotation is the second statement of its task: with no pending
    entry the first is the insert of a row of its own, and when the
    session row is missing that insert raises and the annotation is
    never sent. *)
Lemma tool_execute_after_message_parts c input output w :
  let callID := ToolInput.callID input in
  let partId :=
    or_else (pendingExecutions (mem w) !! callID ≫= partId)
            (or_null (callIdToPartId (mem w) !! callID)) in
  message_parts (store (tool_execute_after c input output w)) =
    if Db.isDatabaseHealthy (now c) (health w) then
      match pendingExecutions (mem w) !! callID,
            sessions (store w) !! ToolInput.sessionID input with
      | None, None => message_parts (store w)
      | _, _ =>
          match partId, or_null (ToolAfter.output output) with
          | Some pid, Some out =>
              Sql.update_where pid Sql.output_is_null
                (Sql.set_part_output (JStr (JSON.stringify out)))
                (message_parts (store w))
          | _, _ => message_parts (store w)
          end
      end
    else message_parts (store w).
Proof.
  cbv zeta. unfold tool_execute_after. cbv zeta.
  destruct (Db.isDatabaseHealthy (now c) (health w)) eqn:E.
  - destruct (pendingExecutions (mem w) !! ToolInput.callID input) as [p |];
      rewrite fireAndForget_admitted by exact E;
      cbn [mem health store log dispatched with_mem];
      rewrite exec_all_cons; cbn [Sql.violation]; unfold Sql.references_session;
      try destruct (sessions (store w) !! ToolInput.sessionID input) as [r |];
      try reflexivity;
      match goal with
      | |- context [ Sql.exec_all (annotate_part ?pid output) ?s ] =>
          destruct (annotate_part_run pid output s) as (_ & _ & _ & _ & ->)
      end; reflexivity.
  - destruct (pendingExecutions (mem w) !! ToolInput.callID input) as [p |];
      rewrite fireAndForget_refused by exact E; reflexivity.
Qed.

Lemma tool_execute_before_pending c input output w :
  pendingExecutions (mem (tool_execute_before c input output w))
  = <[ToolInput.callID input :=
        {| correlationId := generateCorrelationId c;
           sessionId := ToolInput.sessionID input;
           toolName := ToolInput.tool input;
           args := if json_truthy (ToolBefore.args output)
                   then default JNull (ToolBefore.args output) else JObj ∅;
           startedAt := now c;
           partId := None |}]> (pendingExecutions (mem w)).
Proof. unfold tool_execute_before. cbv zeta. rewrite fireAndForget_mem. reflexivity. Qed.

Lemma tool_execute_after_pending c input output w :
  pendingExecutions (mem (tool_execute_after c input output w))
  = delete (ToolInput.callID input) (pendingExecutions (mem w)).
Proof.
  unfold tool_execute_after. cbv zeta.
  destruct (pendingExecutions (mem w) !! ToolInput.callID input) eqn:E;
    cbn [mem with_mem pendingExecutions set_pendingExecutions set_callIdTimestamps
         set_callIdToPartId]; rewrite fireAndForget_mem; [ reflexivity | ].
  symmetry. apply delete_id, E.
Qed.

Lemma origin_complete_where c result completed_at duration_ms r :
  origin (Sql.complete_where c result completed_at duration_ms r) = origin r.
Proof. unfold Sql.complete_where. destruct (bool_decide _); reflexivity. Qed.

Lemma tracked_before c input output w :
  healthy w →
  is_Some (sessions (store w) !! ToolInput.sessionID input) →
  tracked (ToolInput.callID input) (length (tool_executions (store w)))
          (started_row c input output) (now c)
          (tool_execute_before c input output w).
Proof.
  intros Hh [r Er]. destruct (tool_execute_before_spec c input output w Hh)
    as (Hh1 & Ht & _). rewrite Er in Ht.
  split; [ exact Hh1 | ]. split.
  - rewrite tool_execute_before_pending, lookup_insert_eq. reflexivity.
  - rewrite Ht, lookup_app_r by lia. rewrite Nat.sub_diag. reflexivity.
Qed.

Lemma tracked_step callID n r0 t0 ck w :
  spares callID t0 ck →
  tracked callID n r0 t0 w →
  tracked callID n r0 t0 (step w ck).
Proof.
  destruct ck as [c k]. unfold spares, step. cbn [fst snd].
  intros Hspare (Hh & Hp & Hr). destruct k as [e | m | input out | input out |].
  - destruct (undisturbed_event c e w) as (Hh' & Ht' & Hp').
    split; [ auto | ]. split; [ rewrite Hp'; exact Hp | rewrite Ht'; exact Hr ].
  - destruct (undisturbed_chat_message c m w) as (Hh' & Ht' & Hp').
    split; [ auto | ]. split; [ rewrite Hp'; exact Hp | rewrite Ht'; exact Hr ].
  - destruct (tool_execute_before_spec c input out w Hh) as (Hh' & Ht' & _).
    split; [ exact Hh' | ]. split.
    + rewrite tool_execute_before_pending, lookup_insert_ne by exact Hspare. exact Hp.
    + rewrite Ht'. destruct (tool_executions (store w) !! n) as [r |] eqn:E;
        [ | discriminate Hr ].
      rewrite (lookup_app_l_Some _ _ _ _ E). exact Hr.
  - split; [ | split ].
    + destruct (pendingExecutions (mem w) !! ToolInput.callID input) as [p |] eqn:E.
      * apply (tool_execute_after_matched c input out w p Hh E).
      * apply (tool_execute_after_orphan c input out w Hh E).
    + rewrite tool_execute_after_pending, lookup_delete_ne by exact Hspare. exact Hp.
    + destruct (tool_executions (store w) !! n) as [r |] eqn:Er;
        [ | discriminate Hr ].
      destruct (pendingExecutions (mem w) !! ToolInput.callID input) as [p |] eqn:E.
      * destruct (tool_execute_after_matched c input out w p Hh E) as (_ & -> & _).
        rewrite list_lookup_fmap, Er. simpl. rewrite origin_complete_where. exact Hr.
      * destruct (tool_execute_after_orphan c input out w Hh E) as (_ & -> & _).
        rewrite (lookup_app_l_Some _ _ _ _ Er). exact Hr.
  - split; [ exact Hh | ]. split; [ | exact Hr ].
    unfold sweep. cbn [mem with_mem cleanupStaleMaps pendingExecutions].
    destruct (pendingExecutions (mem w) !! callID) as [p |] eqn:E; [ | discriminate Hp ].
    assert (Hstart : startedAt p = t0) by (injection Hp; auto).
    rewrite (map_lookup_filter_Some_2 _ _ _ _ E); [ exact Hp | ].
    simpl. rewrite Hstart. exact Hspare.
Qed.

Lemma tracked_run callID n r0 t0 calls w :
  Forall (spares callID t0) calls →
  tracked callID n r0 t0 w →
  tracked callID n r0 t0 (run calls w).
Proof.
  revert w. induction calls as [| ck calls IH]; intros w Hall Ht; [ exact Ht | ].
  apply Forall_cons in Hall as [Hck Hall].
  change (run (ck :: calls) w) with (run calls (step w ck)).
  apply IH; [ exact Hall | ]. apply tracked_step; assumption.
Qed.

Lemma complete_from_origin result completed_at duration_ms r r0 :
  origin r = origin r0 →
  Sql.complete result completed_at duration_ms r
  = Sql.complete result completed_at duration_ms r0.
Proof. unfold origin, Sql.complete. intros [= -> -> -> -> -> ->]. reflexivity. Qed.

(** C1, where the claim fails: on a session that is stored, a before
    hook, a tick of the cleanup timer more than fifteen minutes later,
    then the after hook of the same call. The sweep has dropped the
    pending entry, the after hook inserts a row of its own, and the pair
    leaves two rows: the started one, never completed, and the orphan
    one. *)
Lemma swept_tool_call_leaves_two_rows :
  let w1 := tool_execute_before sample_clock sample_tool_input sample_tool_args
              session_world in
  let w2 := step w1 (sample_sweep_clock, call_sweep) in
  let w3 := tool_execute_after sample_late_clock sample_tool_input
              sample_tool_output w2 in
  stale (now sample_sweep_clock) (now sample_clock) = true
  ∧ Sessions.status <$> sessions (store session_world) !! "sess-1"
    = Some (Some "created")
  ∧ pendingExecutions (mem w2) !! "c1" = None
  ∧ length (tool_executions (store w3)) = 2%nat
  ∧ ToolExecutions.started_at <$> tool_executions (store w3)
    = [ Some 1700000000000; None ]
  ∧ ToolExecutions.duration_ms <$> tool_executions (store w3) = [ None; None ]
  ∧ ToolExecutions.success <$> tool_executions (store w3) = [ None; Some true ].
Proof. vm_compute. repeat split; reflexivity. Qed.

(** C1, amended. Through an open gate and on a session whose row is
    stored: a [tool.execute.before] and a [tool.execute.after] with the
    same call id, with in between any calls that spare the pending
    entry (calls of the [event] and [chat.message] hooks, tool hooks of
    other call ids, sweeps at which the entry is not yet stale): the
    before hook adds one row to [tool_executions], the after hook adds
    none and completes that row with [duration_ms = completedAt -
    startedAt] and [success = true], whatever happened to it in between.
    A [tool.execute.after] whose call id has no pending entry adds
    exactly one row, with [success = true] and no duration. *)
Theorem unswept_tool_call_yields_one_execution_row :
  ∀ (c1 c2 : Clock) (input input' : ToolInput.t) (args : ToolBefore.t)
    (output : ToolAfter.t) (between : list (Clock * Call)) (w : World),
    healthy w →
    is_Some (sessions (store w) !! ToolInput.sessionID input) →
    (ToolInput.callID input' = ToolInput.callID input →
     Forall (spares (ToolInput.callID input) (now c1)) between →
     let n := length (tool_executions (store w)) in
     let w0 := tool_execute_before c1 input args w in
     let w1 := run between w0 in
     let w2 := tool_execute_after c2 input' output w1 in
     length (tool_executions (store w0)) = S n
     ∧ length (tool_executions (store w2)) = length (tool_executions (store w1))
     ∧ tool_executions (store w2) !! n
       = Some (Sql.complete (JStr <$> ToolAfter.output output) (now c2)
                 (now c2 - now c1) (started_row c1 input args))
     ∧ ToolExecutions.duration_ms
         (Sql.complete (JStr <$> ToolAfter.output output) (now c2)
            (now c2 - now c1) (started_row c1 input args))
       = Some (now c2 - now c1)
     ∧ ToolExecutions.success
         (Sql.complete (JStr <$> ToolAfter.output output) (now c2)
            (now c2 - now c1) (started_row c1 input args))
       = Some true
     ∧ pendingExecutions (mem w2) !! ToolInput.callID input = None)
    ∧ (pendingExecutions (mem w) !! ToolInput.callID input = None →
       let w' := tool_execute_after c2 input output w in
       ∃ row : ToolExecutions.row,
         tool_executions (store w') = (tool_executions (store w) ++ [row])%list
         ∧ length (tool_executions (store w')) = S (length (tool_executions (store w)))
         ∧ ToolExecutions.duration_ms row = None
         ∧ ToolExecutions.started_at row = None
         ∧ ToolExecutions.completed_at row = Some (now c2)
         ∧ ToolExecutions.success row = Some true
         ∧ ToolExecutions.result row = JStr <$> ToolAfter.output output).
Proof.
  intros c1 c2 input input' args output between w Hh Hsess. split.
  - intros Hcall Hspared n w0 w1 w2.
    destruct (tool_execute_before_spec c1 input args w Hh) as (_ & Ht0 & _).
    fold w0 in Ht0. destruct Hsess as [r0 Er0]. rewrite Er0 in Ht0.
    pose proof (tracked_run _ _ _ _ between w0 Hspared
                  (tracked_before c1 input args w Hh (ex_intro _ r0 Er0)))
      as (Hh1 & Hp1 & Hr1).
    fold n w1 in Hh1, Hp1, Hr1.
    destruct (pendingExecutions (mem w1) !! ToolInput.callID input) as [p |] eqn:Hp;
      [ | discriminate Hp1 ].
    injection Hp1 as Hcorr Hstart. cbn [started_row ToolExecutions.correlation_id] in Hcorr.
    destruct (tool_executions (store w1) !! n) as [r |] eqn:Er; [ | discriminate Hr1 ].
    apply (inj Some) in Hr1.
    rewrite <- Hcall in Hp.
    destruct (tool_execute_after_matched c2 input' output w1 p Hh1 Hp)
      as (_ & Ht2 & _ & Hp2).
    fold w2 in Ht2, Hp2. rewrite Hcall in Hp2. rewrite Hcorr, Hstart in Ht2.
    split; [ rewrite Ht0, length_app; simpl; lia | ].
    split; [ rewrite Ht2; apply length_map | ].
    split; [ | split; [ reflexivity | split; [ reflexivity | exact Hp2 ] ] ].
    rewrite Ht2, list_lookup_fmap, Er. simpl. f_equal.
    unfold Sql.complete_where.
    assert (Hc : ToolExecutions.correlation_id r = generateCorrelationId c1).
    { unfold origin in Hr1. injection Hr1. auto. }
    rewrite bool_decide_eq_true_2 by exact Hc.
    apply complete_from_origin, Hr1.
  - intros Hp w'.
    destruct (tool_execute_after_orphan c2 input output w Hh Hp) as (_ & Ht & _).
    fold w' in Ht. destruct Hsess as [r0 Er0]. rewrite Er0 in Ht.
    eexists. split; [ exact Ht | ]. split.
    { rewrite Ht, length_app. simpl. lia. }
    repeat split; reflexivity.
Qed.

Lemma unswept_tool_call_yields_one_execution_row_witness :
  let part := sample_tool_part (Some (state_with_status "running")) None in
  let between :=
    [ (sample_clock, call_event (Event.message_part_updated part));
      (sample_early_sweep_clock, call_sweep);
      (sample_early_sweep_clock,
       call_tool_execute_before other_tool_input sample_tool_args) ] in
  let w1 := run between
              (tool_execute_before sample_clock sample_tool_input sample_tool_args
                 session_world) in
  let w2 := tool_execute_after sample_later_clock sample_tool_input
              sample_tool_output w1 in
  let w' := tool_execute_after sample_later_clock sample_tool_input
              sample_tool_output session_world in
  (length (tool_executions (store w2)) = length (tool_executions (store w1))
   ∧ ToolExecutions.duration_ms <$> tool_executions (store w2) !! 0%nat
     = Some (Some 50)
   ∧ ToolExecutions.success <$> tool_executions (store w2) !! 0%nat
     = Some (Some true))
  ∧ ToolExecutions.duration_ms <$> tool_executions (store w') = [ None ]
  ∧ ToolExecutions.success <$> tool_executions (store w') = [ Some true ].
Proof.
  intros part between w1 w2 w'.
  assert (Hh : healthy session_world) by reflexivity.
  assert (Hs : is_Some (sessions (store session_world)
                          !! ToolInput.sessionID sample_tool_input)).
  { eexists. vm_compute. reflexivity. }
  destruct (unswept_tool_call_yields_one_execution_row sample_clock sample_later_clock
              sample_tool_input sample_tool_input sample_tool_args
              sample_tool_output between session_world Hh Hs) as [Hpair Horphan].
  split.
  - assert (Hq : Forall (spares (ToolInput.callID sample_tool_input) (now sample_clock))
                        between).
    { repeat constructor. discriminate. }
    destruct (Hpair eq_refl Hq) as (_ & Hlen & Hrow & _).
    subst w2 w1. split; [ exact Hlen | ].
    change (length (tool_executions (store session_world))) with 0%nat in Hrow.
    rewrite Hrow. split; reflexivity.
  - assert (Hp : pendingExecutions (mem session_world)
                   !! ToolInput.callID sample_tool_input = None).
    { vm_compute. reflexivity. }
    destruct (Horphan Hp) as (row & Ht & _ & Hd & _ & _ & Hsu & _).
    subst w'. rewrite Ht.
    change (tool_executions (store session_world)) with (@nil ToolExecutions.row).
    cbn [map fmap list_fmap app]. rewrite Hd, Hsu. split; reflexivity.
Defined.

(** C10. The after hook, with or without a pending entry for the call
    id, leaves every part that holds a non-null [content.state.output]
    as it is, and touches no part but the one correlated with the call;
    that part is written only when its [content.state.output] is null,
    and then only the output is set, by [jsonb_set], to the JSON string
    that holds [JSON.stringify] of the output of the call. *)
Theorem after_sets_output_only_when_null :
  ∀ (c : Clock) (input : ToolInput.t) (output : ToolAfter.t) (w : World),
    let w' := tool_execute_after c input output w in
    let callID := ToolInput.callID input in
    let correlated :=
      or_else (pendingExecutions (mem w) !! callID ≫= partId)
              (or_null (callIdToPartId (mem w) !! callID)) in
    (∀ (pid : string) (row : MessageParts.row),
        message_parts (store w) !! pid = Some row →
        Sql.output_is_null row = false →
        message_parts (store w') !! pid = Some row)
    ∧ (∀ pid : string,
        correlated ≠ Some pid →
        message_parts (store w') !! pid = message_parts (store w) !! pid)
    ∧ (∀ (pid : string) (row : MessageParts.row),
        message_parts (store w) !! pid = Some row →
        message_parts (store w') !! pid ≠ Some row →
        Sql.output_is_null row = true
        ∧ ∃ out, or_null (ToolAfter.output output) = Some out
                 ∧ message_parts (store w') !! pid
                   = Some (Sql.set_part_output (JStr (JSON.stringify out)) row)).
Proof.
  intros c input output w w' callID correlated.
  assert (Hmp := tool_execute_after_message_parts c input output w).
  cbv zeta in Hmp. fold w' callID correlated in Hmp.
  assert (Hsame : message_parts (store w') = message_parts (store w) →
    (∀ (pid : string) (row : MessageParts.row),
        message_parts (store w) !! pid = Some row →
        Sql.output_is_null row = false →
        message_parts (store w') !! pid = Some row)
    ∧ (∀ pid : string,
        correlated ≠ Some pid →
        message_parts (store w') !! pid = message_parts (store w) !! pid)
    ∧ (∀ (pid : string) (row : MessageParts.row),
        message_parts (store w) !! pid = Some row →
        message_parts (store w') !! pid ≠ Some row →
        Sql.output_is_null row = true
        ∧ ∃ out, or_null (ToolAfter.output output) = Some out
                 ∧ message_parts (store w') !! pid
                   = Some (Sql.set_part_output (JStr (JSON.stringify out)) row))).
  { intros ->. split; [ intros pid row E _; exact E | ]. split; [ reflexivity | ].
    intros pid row E Hne. contradiction. }
  assert (Hwrite : ∀ target out,
    correlated = Some target →
    or_null (ToolAfter.output output) = Some out →
    message_parts (store w')
    = Sql.update_where target Sql.output_is_null
        (Sql.set_part_output (JStr (JSON.stringify out))) (message_parts (store w)) →
    (∀ (pid : string) (row : MessageParts.row),
        message_parts (store w) !! pid = Some row →
        Sql.output_is_null row = false →
        message_parts (store w') !! pid = Some row)
    ∧ (∀ pid : string,
        correlated ≠ Some pid →
        message_parts (store w') !! pid = message_parts (store w) !! pid)
    ∧ (∀ (pid : string) (row : MessageParts.row),
        message_parts (store w) !! pid = Some row →
        message_parts (store w') !! pid ≠ Some row →
        Sql.output_is_null row = true
        ∧ ∃ out, or_null (ToolAfter.output output) = Some out
                 ∧ message_parts (store w') !! pid
                   = Some (Sql.set_part_output (JStr (JSON.stringify out)) row))).
  { intros target out Hc Ho ->. split; [ | split ].
    - intros pid row E Hnn. destruct (decide (target = pid)) as [-> | Hne].
      + rewrite (update_where_eq _ _ _ _ _ E), Hnn. reflexivity.
      + rewrite update_where_ne by exact Hne. exact E.
    - intros pid Hne. apply update_where_ne. congruence.
    - intros pid row E Hchanged. destruct (decide (target = pid)) as [-> | Hne].
      + rewrite (update_where_eq _ _ _ _ _ E) in Hchanged |- *.
        destruct (Sql.output_is_null row); [ | contradiction ].
        split; [ reflexivity | ]. exists out. split; [ exact Ho | reflexivity ].
      + rewrite update_where_ne in Hchanged by exact Hne. contradiction. }
  destruct (Db.isDatabaseHealthy (now c) (health w)); [ | apply Hsame, Hmp ].
  destruct (pendingExecutions (mem w) !! callID) as [p |],
           (sessions (store w) !! ToolInput.sessionID input) as [r |];
    try (apply Hsame, Hmp);
    (destruct correlated as [target |] eqn:Hc; [ | apply Hsame, Hmp ]);
    (destruct (or_null (ToolAfter.output output)) as [out |] eqn:Ho;
     [ | apply Hsame, Hmp ]);
    apply (Hwrite target out eq_refl eq_refl Hmp).
Qed.

Lemma after_sets_output_only_when_null_witness :
  let part := sample_tool_part
                (Some (state_with_output "completed" (Some (JStr "first")))) None in
  let w1 := event sample_clock (Event.message_part_updated part) session_world in
  let orphan := tool_execute_after sample_later_clock sample_tool_input
                  sample_tool_output w1 in
  let matched :=
    tool_execute_after sample_later_clock sample_tool_input sample_tool_output
      (tool_execute_before sample_clock sample_tool_input sample_tool_args w1) in
  message_parts (store orphan) !! "p1" = Some (proposed_row part)
  ∧ message_parts (store matched) !! "p1" = Some (proposed_row part).
Proof.
  intros part w1 orphan matched.
  assert (E : message_parts (store w1) !! "p1" = Some (proposed_row part)).
  { vm_compute. reflexivity. }
  assert (Hout : Sql.output_is_null (proposed_row part) = false).
  { vm_compute. reflexivity. }
  split.
  - destruct (after_sets_output_only_when_null sample_later_clock sample_tool_input
                sample_tool_output w1) as (Hkeep & _).
    apply Hkeep; assumption.
  - destruct (after_sets_output_only_when_null sample_later_clock sample_tool_input
                sample_tool_output
                (tool_execute_before sample_clock sample_tool_input sample_tool_args w1))
      as (Hkeep & _).
    apply Hkeep; [ | exact Hout ]. vm_compute. reflexivity.
Defined.

(** A part stored without an output receives the output of the call, as
    the JSON string that holds its JSON text. *)
Example after_sets_null_output :
  let part := sample_tool_part (Some (state_with_status "running")) None in
  let w1 := event sample_clock (Event.message_part_updated part) session_world in
  let w2 := tool_execute_after sample_later_clock sample_tool_input
              sample_tool_output w1 in
  Jsonb.get (Jsonb.get (message_parts (store w2) !! "p1" ≫= MessageParts.content)
                       "state") "output"
  = Some (JStr (dquote +:+ "a.txt" +:+ dquote))
  ∧ stored_status (store w2) "p1" = Some (JStr "running").
Proof. vm_compute. split; reflexivity. Qed.

End ToolHooks.

(** ** Message parts *)

Section PartEvents.
Import Plugin.

Lemma store_ext (s s' : Store) :
  sessions s = sessions s' → messages s = messages s' →
  message_parts s = message_parts s' → tool_executions s = tool_executions s' →
  session_errors s = session_errors s' → commands s = commands s' →
  compactions s = compactions s' → s = s'.
Proof. destruct s, s'. simpl. intros. congruence. Qed.

(** The task of the part row: its insert raises when the part is new and
    its message row is missing, and the task then changes nothing. *)
Lemma part_task_message_parts p s :
  message_parts (Sql.exec_all (part_task p) s) =
    match message_parts s !! PartInfo.id p, messages s !! PartInfo.messageID p with
    | None, None => message_parts s
    | _, _ => part_merge p (message_parts s)
    end.
Proof.
  assert (Hrun : Sql.violation
                   (Sql.PartInsert (PartInfo.id p) (PartInfo.messageID p)
                      (PartInfo.type p) (part_toolName p) (part_textContent p)
                      (PartInfo.to_json p)) s = None →
                 message_parts (Sql.exec_all (part_task p) s)
                 = part_merge p (message_parts s)).
  { intros Hv. unfold part_task, part_merge, proposed_row. cbv zeta.
    destruct (isStreamingTextPart p); [ destruct (part_textContent p) | ];
      rewrite exec_all_cons, Hv; reflexivity. }
  assert (Hraise : ∀ v, Sql.violation
                   (Sql.PartInsert (PartInfo.id p) (PartInfo.messageID p)
                      (PartInfo.type p) (part_toolName p) (part_textContent p)
                      (PartInfo.to_json p)) s = Some v →
                 message_parts (Sql.exec_all (part_task p) s) = message_parts s).
  { intros v Hv. unfold part_task. cbv zeta.
    destruct (isStreamingTextPart p); [ destruct (part_textContent p) | ];
      rewrite exec_all_cons, Hv; reflexivity. }
  cbn [Sql.violation] in Hrun, Hraise. unfold Sql.references_message in Hrun, Hraise.
  destruct (message_parts s !! PartInfo.id p); [ apply Hrun; reflexivity | ].
  destruct (messages s !! PartInfo.messageID p);
    [ apply Hrun; reflexivity | eapply Hraise; reflexivity ].
Qed.

Lemma effect_off_message_parts q s :
  match q with
  | Sql.PartInsert _ _ _ _ _ _ | Sql.PartUpdateText _ _ _ _
  | Sql.PartUpdateStatus _ _ _ _ _ =>
      sessions (Sql.effect q s) = sessions s
      ∧ messages (Sql.effect q s) = messages s
      ∧ tool_executions (Sql.effect q s) = tool_executions s
      ∧ session_errors (Sql.effect q s) = session_errors s
      ∧ commands (Sql.effect q s) = commands s
      ∧ compactions (Sql.effect q s) = compactions s
  | _ => True
  end.
Proof. destruct q; try exact I; repeat split. Qed.

Lemma part_task_rest p s :
  let s' := Sql.exec_all (part_task p) s in
  sessions s' = sessions s
  ∧ messages s' = messages s
  ∧ tool_executions s' = tool_executions s
  ∧ session_errors s' = session_errors s
  ∧ commands s' = commands s
  ∧ compactions s' = compactions s.
Proof.
  cbv zeta. unfold part_task. cbv zeta.
  destruct (isStreamingTextPart p); [ destruct (part_textContent p) | ];
    rewrite exec_all_cons;
    (destruct (Sql.violation _ s); [ repeat split | ]);
    rewrite ?exec_all_single; unfold Sql.exec; cbn [Sql.violation]; repeat split.
Qed.

(** A part event that the gate admits runs its tasks one after the
    other, and leaves the gate open: the insert of the session row never
    raises. *)
Lemma message_part_updated_store c p w :
  admits c w →
  let w' := event c (Event.message_part_updated p) w in
  healthy w' ∧ store w' = run_tasks (part_event_tasks p) (store w).
Proof.
  intros Ha. cbv beta iota zeta delta [event message_part_updated].
  unfold part_event_tasks, charge, run_tasks.
  destruct (or_null (PartInfo.callID p));
    [ destruct (bool_decide (PartInfo.type p = "tool")) | ];
    destruct (bool_decide (PartInfo.type p = "step-finish"));
    destruct (PartInfo.cost p);
    (destruct (part_textContent p);
     [ destruct (bool_decide (PartInfo.type p = "text")) | ]);
    dispatch_admitted; cbn [mem health store log dispatched with_mem app foldl];
    (split; [ unfold healthy; cbn [health];
              repeat match goal with
                     | |- Db.consecutiveFailures
                            (settled (Sql.raises (part_task _) _) _) = _ =>
                         destruct (Sql.raises (part_task p) _); cbn [settled]
                     | |- Db.consecutiveFailures
                            (settled (Sql.raises [ Sql.MessageUpdateText _ _ ] _) _)
                          = _ => rewrite raises_single; cbn [Sql.violation settled]
                     | |- Db.consecutiveFailures
                            (settled (Sql.raises [ Sql.SessionEnsure _ ] _) _)
                          = _ => rewrite raises_single; cbn [Sql.violation settled]
                     end; reflexivity
            | reflexivity ]).
Qed.


(** The cost update keeps the keys of [sessions] and touches nothing
    else. *)
Lemma session_add_cost_exec id cost s :
  let s1 := Sql.exec (Sql.SessionAddCost id cost) s in
  messages s1 = messages s
  ∧ message_parts s1 = message_parts s
  ∧ tool_executions s1 = tool_executions s
  ∧ session_errors s1 = session_errors s
  ∧ commands s1 = commands s
  ∧ compactions s1 = compactions s
  ∧ ∀ k, is_Some (sessions s1 !! k) ↔ is_Some (sessions s !! k).
Proof.
  cbv zeta. unfold Sql.exec. destruct (Sql.violation _ s); [ repeat split; auto | ].
  cbn [Sql.effect Sql.on_sessions sessions messages message_parts tool_executions
       session_errors commands compactions].
  repeat split; try reflexivity; apply update_where_is_Some.
Qed.

Lemma charged_rest p s :
  let s1 := charged p s in
  messages s1 = messages s
  ∧ message_parts s1 = message_parts s
  ∧ tool_executions s1 = tool_executions s
  ∧ session_errors s1 = session_errors s
  ∧ commands s1 = commands s
  ∧ compactions s1 = compactions s
  ∧ ∀ k, is_Some (sessions s1 !! k) ↔ is_Some (sessions s !! k).
Proof.
  unfold charged. destruct (charge p); [ apply session_add_cost_exec | ].
  repeat split; auto.
Qed.

(** What a part event leaves in each relation, from the Store after its
    cost update. *)
Lemma part_event_core p s1 :
  let text_task :=
    match part_textContent p with
    | Some text =>
        if bool_decide (PartInfo.type p = "text")
        then [ [ Sql.MessageUpdateText (PartInfo.messageID p) text ] ]
        else []
    | None => []
    end in
  let s' :=
    run_tasks
      ([ [ Sql.MessageEnsure (PartInfo.messageID p) (PartInfo.sessionID p) ];
         [ Sql.SessionEnsure (PartInfo.sessionID p) ];
         part_task p ] ++ text_task) s1 in
  sessions s'
  = Sql.upsert (PartInfo.sessionID p) (Sessions.fresh (Some "active")) (λ r, r)
      (sessions s1)
  ∧ messages s' = offer_text p (ensured_messages p s1)
  ∧ message_parts s'
    = match message_parts s1 !! PartInfo.id p, messages s1 !! PartInfo.messageID p,
            sessions s1 !! PartInfo.sessionID p with
      | None, None, None => message_parts s1
      | _, _, _ => part_merge p (message_parts s1)
      end
  ∧ tool_executions s' = tool_executions s1
  ∧ session_errors s' = session_errors s1
  ∧ commands s' = commands s1
  ∧ compactions s' = compactions s1.
Proof.
  cbv zeta. unfold run_tasks. cbn [app foldl]. rewrite !exec_all_single.
  set (s2 := Sql.exec (Sql.MessageEnsure (PartInfo.messageID p) (PartInfo.sessionID p)) s1).
  assert (H2 : sessions s2 = sessions s1
               ∧ messages s2 = ensured_messages p s1
               ∧ message_parts s2 = message_parts s1
               ∧ tool_executions s2 = tool_executions s1
               ∧ session_errors s2 = session_errors s1
               ∧ commands s2 = commands s1
               ∧ compactions s2 = compactions s1).
  { subst s2. unfold Sql.exec, ensured_messages. cbn [Sql.violation].
    unfold Sql.references_session.
    destruct (messages s1 !! PartInfo.messageID p);
      [ | destruct (sessions s1 !! PartInfo.sessionID p) ]; repeat split. }
  destruct H2 as (Hs2 & Hm2 & Hp2 & Ht2 & He2 & Hc2 & Hk2).
  set (s3 := Sql.exec (Sql.SessionEnsure (PartInfo.sessionID p)) s2).
  assert (H3 : sessions s3
               = Sql.upsert (PartInfo.sessionID p) (Sessions.fresh (Some "active"))
                   (λ r, r) (sessions s1)
               ∧ messages s3 = ensured_messages p s1
               ∧ message_parts s3 = message_parts s1
               ∧ tool_executions s3 = tool_executions s1
               ∧ session_errors s3 = session_errors s1
               ∧ commands s3 = commands s1
               ∧ compactions s3 = compactions s1).
  { subst s3. unfold Sql.exec. cbn [Sql.violation Sql.effect Sql.on_sessions sessions
      messages message_parts tool_executions session_errors commands compactions].
    rewrite Hs2. repeat split; assumption. }
  clearbody s3. clear s2 Hs2 Hm2 Hp2 Ht2 He2 Hc2 Hk2.
  destruct H3 as (Hs3 & Hm3 & Hp3 & Ht3 & He3 & Hc3 & Hk3).
  set (s4 := Sql.exec_all (part_task p) s3).
  destruct (part_task_rest p s3) as (Hs4 & Hm4 & Ht4 & He4 & Hc4 & Hk4).
  pose proof (part_task_message_parts p s3) as Hp4. fold s4 in Hs4, Hm4, Ht4, He4, Hc4, Hk4, Hp4.
  assert (Hparts : message_parts s4
    = match message_parts s1 !! PartInfo.id p, messages s1 !! PartInfo.messageID p,
            sessions s1 !! PartInfo.sessionID p with
      | None, None, None => message_parts s1
      | _, _, _ => part_merge p (message_parts s1)
      end).
  { rewrite Hp4, Hp3, Hm3. unfold ensured_messages.
    destruct (message_parts s1 !! PartInfo.id p); [ reflexivity | ].
    destruct (messages s1 !! PartInfo.messageID p) eqn:Em.
    - rewrite upsert_eq. reflexivity.
    - destruct (sessions s1 !! PartInfo.sessionID p).
      + rewrite upsert_eq. reflexivity.
      + rewrite Em. reflexivity. }
  clearbody s4.
  unfold offer_text.
  destruct (part_textContent p) as [text |];
    [ destruct (bool_decide (PartInfo.type p = "text")) | ];
    cbn [foldl]; rewrite ?exec_all_single; unfold Sql.exec;
    cbn [Sql.violation Sql.effect Sql.on_messages sessions
      messages message_parts tool_executions session_errors commands compactions];
    rewrite ?Hs4, ?Hm4, ?Ht4, ?He4, ?Hc4, ?Hk4, ?Hparts, ?Hs3, ?Hm3, ?Ht3, ?He3, ?Hc3, ?Hk3;
    repeat split; reflexivity.
Qed.

Lemma run_tasks_app ts ts' s : run_tasks (ts ++ ts') s = run_tasks ts' (run_tasks ts s).
Proof. apply foldl_app. Qed.

Lemma part_event_tasks_charged p s :
  run_tasks (part_event_tasks p) s
  = run_tasks
      ([ [ Sql.MessageEnsure (PartInfo.messageID p) (PartInfo.sessionID p) ];
         [ Sql.SessionEnsure (PartInfo.sessionID p) ];
         part_task p ]
       ++ match part_textContent p with
          | Some text =>
              if bool_decide (PartInfo.type p = "text")
              then [ [ Sql.MessageUpdateText (PartInfo.messageID p) text ] ]
              else []
          | None => []
          end) (charged p s).
Proof.
  unfold part_event_tasks, charged. rewrite run_tasks_app.
  destruct (charge p); [ | reflexivity ].
  unfold run_tasks at 2. cbn [foldl]. rewrite exec_all_single. reflexivity.
Qed.

Lemma is_Some_iff_match {A B C} (a : option A) (b : option B) (x y : C) :
  (is_Some a ↔ is_Some b) →
  match a with Some _ => x | None => y end = match b with Some _ => x | None => y end.
Proof.
  intros [H1 H2]. destruct a, b; try reflexivity.
  - destruct (H1 (ex_intro _ _ eq_refl)) as [? [=]].
  - destruct (H2 (ex_intro _ _ eq_refl)) as [? [=]].
Qed.

(** What a part event that the gate admits leaves in each relation. *)
Lemma part_event_run p s :
  let s' := run_tasks (part_event_tasks p) s in
  sessions s'
  = Sql.upsert (PartInfo.sessionID p) (Sessions.fresh (Some "active")) (λ r, r)
      (sessions (charged p s))
  ∧ messages s' = offer_text p (ensured_messages p s)
  ∧ message_parts s'
    = match message_parts s !! PartInfo.id p, messages s !! PartInfo.messageID p,
            sessions s !! PartInfo.sessionID p with
      | None, None, None => message_parts s
      | _, _, _ => part_merge p (message_parts s)
      end
  ∧ tool_executions s' = tool_executions s
  ∧ session_errors s' = session_errors s
  ∧ commands s' = commands s
  ∧ compactions s' = compactions s.
Proof.
  cbv zeta. rewrite part_event_tasks_charged.
  destruct (part_event_core p (charged p s)) as (Hs & Hm & Hp & Ht & He & Hc & Hk).
  destruct (charged_rest p s) as (Hm1 & Hp1 & Ht1 & He1 & Hc1 & Hk1 & Hdom).
  split; [ exact Hs | ].
  split.
  { rewrite Hm. unfold ensured_messages. rewrite Hm1.
    destruct (messages s !! PartInfo.messageID p); [ reflexivity | ].
    rewrite (is_Some_iff_match _ _ _ _ (Hdom (PartInfo.sessionID p))). reflexivity. }
  split.
  { rewrite Hp, Hp1, Hm1.
    destruct (message_parts s !! PartInfo.id p); [ reflexivity | ].
    destruct (messages s !! PartInfo.messageID p); [ reflexivity | ].
    apply is_Some_iff_match, Hdom. }
  repeat split; congruence.
Qed.



End PartEvents.

Section PartMerge.
Import Plugin.







Lemma rank_le_current (p : PartInfo.t) :
  rank_of (PartInfo.state p ≫= PartInfo.status) ≤ currentPriority p.
Proof.
  unfold currentPriority, rank_of. cbv zeta.
  destruct (PartInfo.state p ≫= PartInfo.status) as [[| a s] |]; simpl;
    [ vm_compute; discriminate | reflexivity | vm_compute; discriminate ].
Qed.




Lemma part_merge_other p (t : gmap string MessageParts.row) k :
  PartInfo.id p ≠ k → part_merge p t !! k = t !! k.
Proof.
  intros Hne. unfold part_merge. cbv zeta.
  destruct (isStreamingTextPart p); [ destruct (part_textContent p) | ];
    rewrite ?update_where_ne by exact Hne; apply upsert_ne, Hne.
Qed.





Lemma stored_status_content s pid r :
  message_parts s !! pid = Some r →
  stored_status s pid = Jsonb.get (Jsonb.get (MessageParts.content r) "state") "status".
Proof. intros E. unfold stored_status. rewrite E. reflexivity. Qed.


(** The same loss without the gate: the first part event of a session
    that is not stored inserts the session row, but its message row and
    its part row are rejected by their foreign keys, the message insert
    being sent before the session insert. *)
Example first_part_event_of_unknown_session_stores_no_part :
  let running := sample_tool_part (Some (state_with_status "running")) None in
  let completed := sample_tool_part (Some (state_with_status "completed")) None in
  let w1 := event sample_clock (Event.message_part_updated completed) initial_world in
  let w2 := event sample_later_clock (Event.message_part_updated running) w1 in
  message_parts (store w1) !! "p1" = None
  ∧ messages (store w1) !! "msg-1" = None
  ∧ Sessions.status <$> sessions (store w1) !! "sess-1" = Some (Some "active")
  ∧ stored_status (store w2) "p1" = Some (JStr "running").
Proof. vm_compute. repeat split; reflexivity. Qed.










(** [LENGTH] counts the characters of a text, not its bytes: the two
    bytes of one accented letter count once. *)
Example LENGTH_counts_characters :
  LENGTH (String (Ascii.ascii_of_nat 195) (String (Ascii.ascii_of_nat 169) "t")) = 2.
Proof. reflexivity. Qed.












(** The same loss without the gate: the first part event of a session
    that is not stored stores no part, whatever text it brings. *)
Example first_text_of_unknown_session_is_lost :
  let w' := run (part_call <$>
                   [ (sample_clock, sample_text_part (Some "Hello"));
                     (sample_clock, sample_text_part (Some "Hel"));
                     (sample_later_clock, sample_text_part (Some "He")) ])
              initial_world in
  MessageParts.text <$> message_parts (store w') !! "p-text" = Some (Some "Hel").
Proof. vm_compute. reflexivity. Qed.


(** An event whose text is the empty string delivers no text: the part
    is stored with a NULL text. *)
Example empty_text_is_no_text :
  let w' := event sample_clock (Event.message_part_updated (sample_text_part (Some "")))
              session_world in
  delivered_text (sample_clock, sample_text_part (Some "")) = None
  ∧ MessageParts.text <$> message_parts (store w') !! "p-text" = Some None.
Proof. vm_compute. split; reflexivity. Qed.


End PartMerge.

(** ** Every write is a statement *)

Section StoreLifting.
Import Plugin.

Lemma written_refl s : written s s.
Proof. exists []. reflexivity. Qed.

Lemma written_trans s1 s2 s3 : written s1 s2 → written s2 s3 → written s1 s3.
Proof.
  intros [qs ->] [qs' ->]. exists (qs ++ qs')%list. symmetry. apply foldl_app.
Qed.

Lemma written_fireAndForget c task onError w :
  written (store w) (store (fireAndForget c task onError w)).
Proof.
  rewrite fireAndForget_store. destruct (Db.isDatabaseHealthy (now c) (health w)).
  - apply exec_all_written.
  - apply written_refl.
Qed.

Ltac written_step :=
  match goal with
  | |- written (store ?w) (store ?w) => apply written_refl
  | |- written _ (store {| mem := _; health := _; store := _; log := _;
                           dispatched := _ |}) => apply written_refl
  | |- written _ (store (fireAndForget _ _ _ _)) =>
      eapply written_trans; [ | apply written_fireAndForget ]
  | |- written _ (store (with_mem _ ?w)) =>
      change (store (with_mem _ w)) with (store w)
  | |- written _ (store (match ?x with _ => _ end)) => destruct x
  end.

(** The point read of [session.compacted] writes nothing. *)
Lemma written_session_compacted c sessionID w :
  written (store w) (store (session_compacted c sessionID w)).
Proof.
  unfold session_compacted, Db.safeQuery, read_session.
  destruct (Db.isDatabaseHealthy (now c) (health w)); cbn [negb Db.race];
    cbv beta iota zeta; cbn [fst snd mbind option_bind];
    (eapply written_trans; [ | repeat written_step ]); apply written_refl.
Qed.

Lemma written_event c e w : written (store w) (store (event c e w)).
Proof.
  destruct e; cbv beta iota zeta delta
    [event session_created session_updated session_deleted session_idle
     session_error message_removed message_part_removed command_executed
     message_updated message_part_updated];
    try apply written_session_compacted; repeat written_step.
Qed.

Lemma written_step_call w ck : written (store w) (store (step w ck)).
Proof.
  destruct ck as [c k]. unfold step. cbn [fst snd]. destruct k.
  - apply written_event.
  - cbv beta iota zeta delta [chat_message]. repeat written_step.
  - cbv beta iota zeta delta [tool_execute_before]. repeat written_step.
  - cbv beta iota zeta delta [tool_execute_after]. repeat written_step.
  - apply written_refl.
Qed.

Lemma written_run calls w : written (store w) (store (run calls w)).
Proof.
  revert w. induction calls as [| ck calls IH]; intros w; [ apply written_refl | ].
  change (run (ck :: calls) w) with (run calls (step w ck)).
  eapply written_trans; [ apply written_step_call | apply IH ].
Qed.

(** A property of the Store that every statement keeps is kept by every
    run of the plugin. *)
Lemma store_invariant_run (P : Store → Prop) calls w :
  (∀ q s, P s → P (Sql.exec q s)) →
  P (store w) → P (store (run calls w)).
Proof.
  intros Hq Hs. destruct (written_run calls w) as [qs ->].
  revert Hs. generalize (store w). induction qs as [| q qs IH]; intros s Hs;
    [ exact Hs | ].
  cbn [foldl]. apply IH, Hq, Hs.
Qed.

End StoreLifting.

(** ** Invariants of the Store over every run *)

Section StoreInvariants.
Import Plugin.

Lemma keeps_known_trans r1 r2 r3 :
  keeps_known r1 r2 → keeps_known r2 r3 → keeps_known r1 r3.
Proof.
  unfold keeps_known, kept. intros H1 H2.
  repeat match goal with H : _ ∧ _ |- _ => destruct H end.
  repeat split; auto.
Qed.

(** X1. No run of the plugin removes a session row or takes one of its
    columns from a value to NULL. *)
Theorem session_rows_outlive_every_run :
  ∀ (calls : list (Clock * Call)) (w : World) (k : string) (r : Sessions.row),
    sessions (store w) !! k = Some r →
    ∃ r', sessions (store (run calls w)) !! k = Some r' ∧ keeps_known r r'.
Proof.
  intros calls w k r E.
  apply (store_invariant_run
           (λ s, ∃ r', sessions s !! k = Some r' ∧ keeps_known r r')).
  - intros q s (r1 & E1 & K1).
    destruct (exec_keeps_known q s k r1 E1) as (r2 & E2 & K2).
    exists r2. split; [ exact E2 | eapply keeps_known_trans; eassumption ].
  - exists r. split; [ exact E | apply keeps_known_refl ].
Qed.

Lemma grows_refl s : grows s s.
Proof. repeat split; try reflexivity. intros n r E. eauto. Qed.

Lemma grows_trans s1 s2 s3 : grows s1 s2 → grows s2 s3 → grows s1 s3.
Proof.
  intros (A1 & B1 & C1 & D1) (A2 & B2 & C2 & D2).
  split; [ etrans; eassumption | ]. split; [ etrans; eassumption | ].
  split; [ etrans; eassumption | ].
  intros n r E. destruct (D1 n r E) as (r' & E' & O').
  destruct (D2 n r' E') as (r'' & E'' & O''). exists r''. split; congruence.
Qed.

Lemma effect_grows q s : grows s (Sql.effect q s).
Proof.
  destruct q; (split; [ | split; [ | split ] ]); simpl;
    try reflexivity; try (apply prefix_app_r; reflexivity);
    intros n r' E; eauto.
  - exists r'. split; [ apply lookup_app_l_Some, E | reflexivity ].
  - eexists. split.
    + rewrite list_lookup_fmap, E. reflexivity.
    + apply origin_complete_where.
  - exists r'. split; [ apply lookup_app_l_Some, E | reflexivity ].
Qed.

Lemma exec_grows q s : grows s (Sql.exec q s).
Proof.
  unfold Sql.exec. destruct (Sql.violation q s); [ apply grows_refl | apply effect_grows ].
Qed.

(** X2. [session_errors], [commands] and [compactions] are append-only and
    [tool_executions] keeps every row in place with its origin columns. *)
Theorem generated_key_relations_only_grow :
  ∀ (calls : list (Clock * Call)) (w : World),
    grows (store w) (store (run calls w)).
Proof.
  intros calls w. apply (store_invariant_run (grows (store w))).
  - intros q s H. eapply grows_trans; [ exact H | apply exec_grows ].
  - apply grows_refl.
Qed.

Lemma peak_ok_fresh st : peak_ok (Sessions.fresh st).
Proof. exists 0, 0. repeat split; reflexivity. Qed.

Lemma peak_grows_refl r : peak_grows r r.
Proof. intros p E. exists p. split; [ exact E | lia ]. Qed.

Lemma peak_grows_trans r1 r2 r3 :
  peak_grows r1 r2 → peak_grows r2 r3 → peak_grows r1 r3.
Proof.
  intros H1 H2 p E. destruct (H1 p E) as (p' & E' & L').
  destruct (H2 p' E') as (p'' & E'' & L''). exists p''. split; [ exact E'' | lia ].
Qed.

Lemma GREATEST_peak p x :
  0 ≤ p → ∃ p', GREATEST (Some p) x = Some p' ∧ 0 ≤ p' ∧ p ≤ p'
                ∧ ∀ y, x = Some y → y ≤ p'.
Proof.
  intros H0. destruct x as [y |]; simpl.
  - exists (Z.max p y). repeat split; try lia. intros y' [= ->]. lia.
  - exists p. repeat split; try lia. intros y' [=].
Qed.

Ltac solve_peak :=
  let r := fresh "r" in let p := fresh "p" in let c := fresh "c" in
  let Ep := fresh "Ep" in let Ec := fresh "Ec" in
  let H0 := fresh "H0" in let Hc := fresh "Hc" in
  intros r (p & c & Ep & Ec & H0 & Hc);
  unfold peak_ok, peak_grows; simpl; rewrite ?Ep, ?Ec;
  first
    [ split; [ exists p, c; repeat split; (reflexivity || lia)
             | intros ? [= <-]; exists p; split; [ reflexivity | lia ] ]
    | match goal with
      | |- context [ GREATEST (Some p) ?x ] =>
          destruct (GREATEST_peak p x H0) as (p' & -> & ? & ? & Hx);
          split; [ eexists p', _; split; [ reflexivity | ];
                   split; [ reflexivity | ]; split; [ lia | ];
                   first [ apply Hx; reflexivity | lia ]
                 | intros ? [= <-]; exists p'; split; [ reflexivity | lia ] ]
      end ].

Lemma update_where_peaks id f (t : gmap string Sessions.row) :
  (∀ r, peak_ok r → peak_ok (f r) ∧ peak_grows r (f r)) →
  (∀ k r, t !! k = Some r → peak_ok r) →
  (∀ k r, Sql.update_where id Sql.always f t !! k = Some r → peak_ok r)
  ∧ ∀ k r, t !! k = Some r →
           ∃ r', Sql.update_where id Sql.always f t !! k = Some r' ∧ peak_grows r r'.
Proof.
  intros Hf Ht. split.
  - intros k r. rewrite update_where_lookup. destruct (decide (id = k)) as [-> | ].
    + destruct (t !! k) as [r0 |] eqn:E; simpl; [ | discriminate ].
      intros [= <-]. apply Hf, (Ht k r0 E).
    + apply Ht.
  - intros k r E. rewrite update_where_lookup. destruct (decide (id = k)) as [-> | ].
    + rewrite E. simpl. eexists. split; [ reflexivity | ]. apply Hf, (Ht k r E).
    + exists r. split; [ exact E | apply peak_grows_refl ].
Qed.

Lemma upsert_peaks id r0 f (t : gmap string Sessions.row) :
  peak_ok r0 →
  (∀ r, peak_ok r → peak_ok (f r) ∧ peak_grows r (f r)) →
  (∀ k r, t !! k = Some r → peak_ok r) →
  (∀ k r, Sql.upsert id r0 f t !! k = Some r → peak_ok r)
  ∧ ∀ k r, t !! k = Some r →
           ∃ r', Sql.upsert id r0 f t !! k = Some r' ∧ peak_grows r r'.
Proof.
  intros H0 Hf Ht. split.
  - intros k r. destruct (decide (id = k)) as [-> | Hne].
    + rewrite upsert_eq. intros [= <-]. destruct (t !! k) as [r1 |] eqn:E.
      * apply Hf, (Ht k r1 E).
      * exact H0.
    + rewrite upsert_ne by exact Hne. apply Ht.
  - intros k r E. destruct (decide (id = k)) as [-> | Hne].
    + rewrite upsert_eq, E. eexists. split; [ reflexivity | ]. apply Hf, (Ht k r E).
    + rewrite upsert_ne by exact Hne. exists r. split; [ exact E | apply peak_grows_refl ].
Qed.

Lemma peak_ok_created a b c d : peak_ok (Sql.created_row a b c d).
Proof. exists 0, 0. repeat split; (reflexivity || lia). Qed.

Lemma effect_peaks q s :
  peaks_ok s →
  peaks_ok (Sql.effect q s)
  ∧ ∀ k r, sessions s !! k = Some r →
           ∃ r', sessions (Sql.effect q s) !! k = Some r' ∧ peak_grows r r'.
Proof.
  intros Hs. unfold peaks_ok.
  destruct q; simpl;
    try (split; [ exact Hs | intros k0 r0 E0; exists r0; split;
                              [ exact E0 | apply peak_grows_refl ] ]);
    first [ apply update_where_peaks; [ solve_peak | exact Hs ]
          | apply upsert_peaks;
            [ first [ apply peak_ok_created | apply peak_ok_fresh ]
            | solve_peak | exact Hs ] ].
Qed.

Lemma exec_peaks q s :
  peaks_ok s →
  peaks_ok (Sql.exec q s)
  ∧ ∀ k r, sessions s !! k = Some r →
           ∃ r', sessions (Sql.exec q s) !! k = Some r' ∧ peak_grows r r'.
Proof.
  intros Hs. unfold Sql.exec. destruct (Sql.violation q s); [ | apply effect_peaks, Hs ].
  split; [ exact Hs | ]. intros k r E. exists r. split; [ exact E | apply peak_grows_refl ].
Qed.

(** X3. The peak context size of a session is a high-water mark. From a
    Store in which every session row has its peak set, not negative and
    not below its context size, every run of the plugin leads to such a
    Store, and no peak is ever lowered. *)
Theorem peak_context_is_a_high_water_mark :
  ∀ (calls : list (Clock * Call)) (w : World),
    peaks_ok (store w) →
    peaks_ok (store (run calls w))
    ∧ ∀ k r, sessions (store w) !! k = Some r →
             ∃ r', sessions (store (run calls w)) !! k = Some r' ∧ peak_grows r r'.
Proof.
  intros calls w Hw.
  apply (store_invariant_run
           (λ s, peaks_ok s
                 ∧ ∀ k r, sessions (store w) !! k = Some r →
                          ∃ r', sessions s !! k = Some r' ∧ peak_grows r r')).
  - intros q s [Hs Hg]. destruct (exec_peaks q s Hs) as [Hs' Hg'].
    split; [ exact Hs' | ]. intros k r E.
    destruct (Hg k r E) as (r1 & E1 & G1). destruct (Hg' k r1 E1) as (r2 & E2 & G2).
    exists r2. split; [ exact E2 | eapply peak_grows_trans; eassumption ].
  - split; [ exact Hw | ]. intros k r E. exists r.
    split; [ exact E | apply peak_grows_refl ].
Qed.

Lemma peak_context_is_a_high_water_mark_witness :
  let w1 := run [ (sample_clock,
                   call_event (Event.message_updated
                                 (sample_assistant_message (Some sample_tokens)))) ]
                initial_world in
  let calls := [ (sample_later_clock, call_event (Event.session_compacted "sess-1")) ] in
  ∃ r', sessions (store (run calls w1)) !! "sess-1" = Some r'
        ∧ ∃ p', Sessions.peak_context_tokens r' = Some p' ∧ 107 ≤ p'.
Proof.
  intros w1 calls.
  assert (H0 : peaks_ok (store initial_world)).
  { intros k r E. change ((∅ : gmap string Sessions.row) !! k = Some r) in E.
    rewrite lookup_empty in E. discriminate E. }
  destruct (peak_context_is_a_high_water_mark
              [ (sample_clock,
                 call_event (Event.message_updated
                               (sample_assistant_message (Some sample_tokens)))) ]
              initial_world H0) as [H1 _].
  destruct (peak_context_is_a_high_water_mark calls w1 H1) as [_ Hg].
  assert (E : ∃ r, sessions (store w1) !! "sess-1" = Some r
                   ∧ Sessions.peak_context_tokens r = Some 107).
  { eexists. split; vm_compute; reflexivity. }
  destruct E as (r & E & Ep). destruct (Hg "sess-1" r E) as (r' & E' & G).
  exists r'. split; [ exact E' | exact (G 107 Ep) ].
Defined.

Lemma session_rows_outlive_every_run_witness :
  let w1 := run [ (sample_clock,
                   call_event (Event.message_updated
                                 (sample_assistant_message (Some sample_tokens)))) ]
                initial_world in
  let calls := [ (sample_later_clock,
                  call_event (Event.session_deleted
                    {| SessionInfo.id := "sess-1"; SessionInfo.title := None;
                       SessionInfo.parentID := None; SessionInfo.projectID := None;
                       SessionInfo.directory := None; SessionInfo.share := None |}));
                 (sample_late_clock, call_sweep) ] in
  ∃ r', sessions (store (run calls w1)) !! "sess-1" = Some r'
        ∧ is_Some (Sessions.model_id r').
Proof.
  intros w1 calls.
  assert (E : ∃ r, sessions (store w1) !! "sess-1" = Some r
                   ∧ Sessions.model_id r = Some "claude").
  { eexists. split; vm_compute; reflexivity. }
  destruct E as (r & E & Em).
  destruct (session_rows_outlive_every_run calls w1 "sess-1" r E) as (r' & E' & K).
  exists r'. split; [ exact E' | ].
  destruct K as (_ & _ & _ & _ & _ & _ & Hm & _). apply Hm. rewrite Em. eauto.
Defined.
End StoreInvariants.

(** ** The wait of the gate, failures, and a gate that refuses *)

Section Backoff.
Import Plugin.
Import Db.

Lemma pow2_ge_1 n : 0 ≤ n → 1 ≤ 2 ^ n.
Proof. intros H. change 1 with (2 ^ 0). apply Z.pow_le_mono_r; lia. Qed.

Lemma backoffMs_bounds (f : nat) (t : Z) :
  (1 ≤ f)%nat → 1000 ≤ backoffMs (mkHealth f t) ≤ 60000.
Proof.
  intros Hf. rewrite backoffMs_eq.
  assert (H1 : 1 ≤ 2 ^ (Z.of_nat f - 1)) by (apply pow2_ge_1; lia).
  lia.
Qed.

(** X4. The wait of the gate. After at least one failure the wait is
    between one second and one minute, it does not shrink as failures
    accumulate, it doubles with each failure up to the sixth, and from
    the seventh failure on it is one minute. *)
Theorem backoff_between_one_second_and_one_minute :
  ∀ (f : nat) (t : Z),
    (1 ≤ f)%nat →
    let h := mkHealth f t in
    1000 ≤ backoffMs h ≤ 60000
    ∧ (∀ (f' : nat) (t' : Z), (f ≤ f')%nat → backoffMs h ≤ backoffMs (mkHealth f' t'))
    ∧ ((f ≤ 6)%nat → backoffMs h = 1000 * 2 ^ (Z.of_nat f - 1))
    ∧ ((7 ≤ f)%nat → backoffMs h = 60000).
Proof.
  intros f t Hf h. subst h. split; [ apply backoffMs_bounds, Hf | ].
  rewrite backoffMs_eq.
  assert (H1 : 1 ≤ 2 ^ (Z.of_nat f - 1)) by (apply pow2_ge_1; lia).
  split; [ | split ].
  - intros f' t' Hle. rewrite backoffMs_eq.
    assert (2 ^ (Z.of_nat f - 1) ≤ 2 ^ (Z.of_nat f' - 1))
      by (apply Z.pow_le_mono_r; lia).
    lia.
  - intros H6.
    assert (2 ^ (Z.of_nat f - 1) ≤ 2 ^ 5) by (apply Z.pow_le_mono_r; lia).
    change (2 ^ 5) with 32 in *. lia.
  - intros H7.
    assert (2 ^ 6 ≤ 2 ^ (Z.of_nat f - 1)) by (apply Z.pow_le_mono_r; lia).
    change (2 ^ 6) with 64 in *. lia.
Qed.

Lemma backoff_between_one_second_and_one_minute_witness :
  backoffMs (mkHealth 3 0) = 4000
  ∧ backoffMs (mkHealth 3 0) ≤ backoffMs (mkHealth 9 0)
  ∧ 1000 ≤ backoffMs (mkHealth 3 0).
Proof.
  assert (H : (1 ≤ 3)%nat) by lia.
  destruct (backoff_between_one_second_and_one_minute 3 0 H) as ([Hlo _] & Hmono & Hexact & _).
  split; [ rewrite Hexact by lia; reflexivity | ].
  split; [ apply Hmono; lia | exact Hlo ].
Defined.

(** X5. A recorded failure closes the gate for at least one second and
    for at most one minute, whatever the number of failures before. *)
Theorem failure_closes_gate_for_a_bounded_time :
  ∀ (h : Health) (later now : Z),
    let h' := markUnhealthy later h in
    (now - later < 1000 → isDatabaseHealthy now h' = false)
    ∧ (60000 ≤ now - later → isDatabaseHealthy now h' = true)
    ∧ (∀ now', now ≤ now' →
         isDatabaseHealthy now h' = true → isDatabaseHealthy now' h' = true).
Proof.
  intros h later now h'.
  assert (Hf : (1 ≤ S (consecutiveFailures h))%nat) by lia.
  pose proof (backoffMs_bounds _ later Hf) as Hb.
  change (mkHealth (S (consecutiveFailures h)) later) with h' in Hb.
  assert (Hs : ∀ n, isDatabaseHealthy n h' = (backoffMs h' <=? n - later)) by reflexivity.
  rewrite !Hs. split; [ | split ].
  - intros Hlt. apply Z.leb_gt. lia.
  - intros Hge. apply Z.leb_le. lia.
  - intros now' Hle. rewrite Hs, !Z.leb_le. lia.
Qed.

Lemma failure_closes_gate_for_a_bounded_time_witness :
  let h' := markUnhealthy 5000 (mkHealth 2 100) in
  isDatabaseHealthy 5999 h' = false
  ∧ isDatabaseHealthy 65000 h' = true.
Proof.
  intros h'.
  destruct (failure_closes_gate_for_a_bounded_time (mkHealth 2 100) 5000 5999) as (H1 & _).
  destruct (failure_closes_gate_for_a_bounded_time (mkHealth 2 100) 5000 65000) as (_ & H2 & _).
  split; [ apply H1; lia | apply H2; lia ].
Defined.

End Backoff.

Section FailureAccounting.
Import Plugin.
Import Db.

Lemma prefix_occurs sub s :
  String.prefix sub s = true ↔ ∃ post, s = sub +:+ post.
Proof.
  revert s. induction sub as [| a sub IH]; intros s.
  - split; [ intros _; exists s; reflexivity | intros _; destruct s; reflexivity ].
  - destruct s as [| b s]; simpl.
    + split; [ discriminate | intros [post E]; discriminate E ].
    + destruct (Ascii.ascii_dec a b) as [-> | Hne].
      * rewrite IH. split; intros [post E]; exists post.
        -- rewrite E. reflexivity.
        -- injection E as E. exact E.
      * split; [ discriminate | ]. intros [post E]. injection E as E1 E2.
        congruence.
Qed.

Lemma includes_eq s sub :
  includes s sub =
    if String.prefix sub s then true
    else match s with
         | EmptyString => false
         | String _ s' => includes s' sub
         end.
Proof. destruct s; reflexivity. Qed.

(** [includes] is the substring test. *)
Lemma includes_occurs s sub : includes s sub = true ↔ occurs_in sub s.
Proof.
  unfold occurs_in. induction s as [| a s IH]; rewrite includes_eq.
  - destruct (String.prefix sub "") eqn:E.
    + apply prefix_occurs in E as [post E]. split; [ | reflexivity ].
      intros _. exists "", post. exact E.
    + split; [ discriminate | ]. intros (pre & post & E').
      destruct pre; [ | discriminate E' ].
      assert (String.prefix sub "" = true) by (apply prefix_occurs; eauto).
      congruence.
  - destruct (String.prefix sub (String a s)) eqn:E.
    + apply prefix_occurs in E as [post E]. split; [ | reflexivity ].
      intros _. exists "", post. exact E.
    + rewrite IH. split.
      * intros (pre & post & ->). exists (String a pre), post. reflexivity.
      * intros (pre & post & E'). destruct pre as [| b pre].
        -- assert (String.prefix sub (String a s) = true) by (apply prefix_occurs; eauto).
           congruence.
        -- injection E' as _ E'. eauto.
Qed.

Lemma isConnectivityError_spec e :
  isConnectivityError e = true ↔
  isError e = true ∧ ∃ word, word ∈ connectivity_words ∧ occurs_in word (message e).
Proof.
  unfold isConnectivityError, connectivity_words.
  rewrite andb_true_iff, !orb_true_iff, !includes_occurs.
  split; intros [He Hw]; (split; [ exact He | ]).
  - destruct Hw as [[[[H | H] | H] | H] | H]; eexists; (split; [ | exact H ]);
      set_solver.
  - destruct Hw as (word & Hin & H).
    repeat (apply elem_of_cons in Hin as [-> | Hin]; [ tauto | ]).
    apply elem_of_nil in Hin. contradiction.
Qed.

(** X6. How [safeQuery] accounts for a failure of an admitted operation.
    The error is rethrown in every case. The failure is counted (one
    more consecutive failure, stamped with the clock) exactly when the
    error is an [Error] whose message contains one of the five
    connectivity words; otherwise the health variables stay as they
    were. An operation still pending when the timer fires fails with
    ["Query timeout"] and is counted. *)
Theorem safeQuery_counts_connectivity_failures :
  ∀ (W T : Type) (queryFn : W → Outcome T * W) (now later : Z) (h : Health)
    (w w' : W) (o : Outcome T) (e : Thrown),
    isDatabaseHealthy now h = true →
    queryFn w = (o, w') →
    race o = inr e →
    ∃ h', safeQuery queryFn now later h w = (Threw e, h', w')
          ∧ ((isError e = true
              ∧ ∃ word, word ∈ connectivity_words ∧ occurs_in word (message e)) →
             consecutiveFailures h' = S (consecutiveFailures h)
             ∧ lastFailureTime h' = later)
          ∧ (¬ (isError e = true
                ∧ ∃ word, word ∈ connectivity_words ∧ occurs_in word (message e)) →
             h' = h)
          ∧ (o = Pending → h' = markUnhealthy later h).
Proof.
  intros W T queryFn now later h w w' o e Ho Hq Hr.
  rewrite (safeQuery_rejected queryFn now later h w o w' e Ho Hq Hr).
  eexists. split; [ reflexivity | ].
  rewrite <- isConnectivityError_spec. split; [ | split ].
  - intros ->. split; reflexivity.
  - intros Hn. apply not_true_is_false in Hn. rewrite Hn. reflexivity.
  - intros ->. injection Hr as <-. reflexivity.
Qed.

Lemma safeQuery_counts_connectivity_failures_witness :
  let refused (n : nat) : Outcome string * nat :=
    (Rejected {| isError := true; message := "connect ECONNREFUSED 127.0.0.1:5432" |},
     S n) in
  ∃ h', safeQuery refused 10 20 markHealthy 0%nat
        = (Threw {| isError := true; message := "connect ECONNREFUSED 127.0.0.1:5432" |},
           h', 1%nat)
        ∧ consecutiveFailures h' = 1%nat ∧ lastFailureTime h' = 20.
Proof.
  intros refused.
  destruct (safeQuery_counts_connectivity_failures nat string refused 10 20 markHealthy
              0%nat 1%nat _ _ eq_refl eq_refl eq_refl) as (h' & E & Hc & _).
  exists h'. split; [ exact E | ]. apply Hc. split; [ reflexivity | ].
  exists "ECONNREFUSED". split; [ unfold connectivity_words; rewrite !elem_of_cons; tauto | ].
  exists "connect ", " 127.0.0.1:5432". reflexivity.
Defined.

End FailureAccounting.

Section ClosedGate.
Import Plugin.

Lemma quiet_refl w : quiet w w.
Proof. repeat split. Qed.

Lemma quiet_with_mem f w w0 : quiet w w0 → quiet w (with_mem f w0).
Proof. intros H. exact H. Qed.

Lemma quiet_fireAndForget c task onError w w0 :
  refuses c w → quiet w w0 → quiet w (fireAndForget c task onError w0).
Proof.
  intros Hr (Hs & Hh & Hl).
  rewrite fireAndForget_refused by (unfold refuses in Hr; rewrite Hh; exact Hr).
  repeat split; assumption.
Qed.

Ltac quiet_step :=
  match goal with
  | |- quiet ?w ?w => apply quiet_refl
  | |- quiet _ (fireAndForget _ _ _ _) =>
      apply quiet_fireAndForget; [ assumption | ]
  | |- quiet _ (with_mem _ _) => apply quiet_with_mem
  | |- quiet _ (match ?x with _ => _ end) => destruct x
  end.

Lemma quiet_session_compacted c sessionID w :
  refuses c w → quiet w (session_compacted c sessionID w).
Proof.
  intros Hr. unfold session_compacted, Db.safeQuery.
  unfold refuses in Hr. rewrite Hr. cbn [negb]. cbv beta iota zeta.
  cbn [mbind option_bind].
  apply quiet_with_mem, quiet_fireAndForget; [ exact Hr | ].
  destruct w; repeat split.
Qed.

Lemma quiet_step_call c k w : refuses c w → quiet w (step w (c, k)).
Proof.
  intros Hr. unfold step. cbn [fst snd].
  destruct k as [e | input | input output | input output |].
  - destruct e; cbv beta iota zeta delta
      [event session_created session_updated session_deleted session_idle
       session_error message_removed message_part_removed command_executed
       message_updated message_part_updated];
      try (apply quiet_session_compacted; exact Hr); repeat quiet_step.
  - cbv beta iota zeta delta [chat_message]. repeat quiet_step.
  - cbv beta iota zeta delta [tool_execute_before]. repeat quiet_step.
  - cbv beta iota zeta delta [tool_execute_after]. repeat quiet_step.
  - repeat split.
Qed.

(** X7. While the gate refuses, no hook reaches the Store. Whatever the
    call, the Store, the health variables and the error sink are as
    they were; only the maps and the record of dispatched tasks may
    change. *)
Theorem refused_gate_writes_nothing :
  ∀ (c : Clock) (k : Call) (w : World),
    refuses c w →
    let w' := step w (c, k) in
    store w' = store w ∧ health w' = health w ∧ log w' = log w ∧ refuses c w'.
Proof.
  intros c k w Hr w'.
  destruct (quiet_step_call c k w Hr) as (Hs & Hh & Hl). repeat split; try assumption.
  unfold refuses. subst w'. rewrite Hh. exact Hr.
Qed.

Lemma refused_gate_writes_nothing_witness :
  let w := {| mem := empty_mem; health := Db.mkHealth 3 1000; store := empty_store;
              log := []; dispatched := [] |} in
  let c := {| now := 4999; rnd := "k3v9x2a" |} in
  store (step w (c, call_tool_execute_before sample_tool_input sample_tool_args))
  = empty_store.
Proof.
  intros w c.
  assert (Hr : refuses c w) by reflexivity.
  destruct (refused_gate_writes_nothing c
              (call_tool_execute_before sample_tool_input sample_tool_args) w Hr)
    as (Hs & _).
  exact Hs.
Defined.

(** X8. A token update refused by the gate is lost for good. The handler
    marks the message as applied before it dispatches, so when the gate
    refuses the update the Store is as it was, and a later delivery of
    the same message dispatches no token update even through a gate
    that admits: the session row is the one the upsert at the head of
    the handler leaves, without the deltas. *)
Theorem refused_token_update_is_lost :
  ∀ (c1 c2 : Clock) (info : MessageInfo.t) (tokens : Tokens.t) (w : World),
    refuses c1 w →
    MessageInfo.role info = "assistant" →
    MessageInfo.tokens info = Some tokens →
    0 < nullish0 (Tokens.input tokens) ∨ 0 < nullish0 (Tokens.output tokens) →
    ¬ applied (mem w) (MessageInfo.sessionID info) (MessageInfo.id info) →
    let sid := MessageInfo.sessionID info in
    let w1 := event c1 (Event.message_updated info) w in
    let w2 := event c2 (Event.message_updated info) w1 in
    store w1 = store w
    ∧ applied (mem w1) sid (MessageInfo.id info)
    ∧ token_writes (dispatched w1) = S (token_writes (dispatched w))
    ∧ token_writes (dispatched w2) = token_writes (dispatched w1)
    ∧ (admits c2 w1 →
         sessions (store w2) !! sid = Some (touched sid (sessions (store w)))).
Proof.
  intros c1 c2 info tokens w Hr Hrole Htok Hpos Hnew sid w1 w2.
  destruct (quiet_step_call c1 (call_event (Event.message_updated info)) w Hr)
    as (Hs & _).
  change (step w (c1, call_event (Event.message_updated info))) with w1 in Hs.
  destruct (message_updated_marks c1 info tokens w Hrole Htok Hnew Hpos) as [Happ Hd].
  fold w1 in Happ, Hd.
  destruct (message_updated_skips c2 info tokens w1 Hrole Htok (or_introl Happ))
    as (_ & Hd2 & Hrow & _).
  split; [ exact Hs | ]. split; [ exact Happ | ]. split; [ exact Hd | ].
  split; [ exact Hd2 | ].
  intros Ha. subst w2 sid. rewrite <- Hs. apply (Hrow Ha).
Qed.

Lemma refused_token_update_is_lost_witness :
  let w := {| mem := empty_mem; health := Db.mkHealth 1 1000; store := empty_store;
              log := []; dispatched := [] |} in
  let c1 := {| now := 1500; rnd := "k3v9x2a" |} in
  let c2 := {| now := 9000; rnd := "q7w1e5r" |} in
  let info := sample_assistant_message (Some sample_tokens) in
  let w2 := event c2 (Event.message_updated info) (event c1 (Event.message_updated info) w) in
  Sessions.input_tokens <$> sessions (store w2) !! "sess-1" = Some (Some 0).
Proof.
  intros w c1 c2 info w2.
  assert (Hr : refuses c1 w) by reflexivity.
  assert (Hpos : 0 < nullish0 (Tokens.input sample_tokens)
                 ∨ 0 < nullish0 (Tokens.output sample_tokens))
    by (left; reflexivity).
  assert (Hnew : ¬ applied (mem w) (MessageInfo.sessionID info) (MessageInfo.id info)).
  { intros [x Hx]. vm_compute in Hx. discriminate Hx. }
  destruct (refused_token_update_is_lost c1 c2 info sample_tokens w Hr eq_refl eq_refl
              Hpos Hnew) as (_ & _ & _ & _ & Hrow).
  subst w2. change (MessageInfo.sessionID info) with "sess-1" in Hrow.
  rewrite Hrow by reflexivity. reflexivity.
Defined.

End ClosedGate.

(** ** The cleanup timer and the correlation maps *)

Section Sweep.
Import Plugin.

Lemma stale_false now t : stale now t = false ↔ fresh_at now t.
Proof. unfold stale, fresh_at, STALE_ENTRY_TIMEOUT_MS. rewrite Z.ltb_ge. lia. Qed.

Lemma applied_set_cleanup now x sid :
  applied_set (cleanupStaleMaps now x) sid
  = filter (λ kv, stale now kv.2 = false) (applied_set x sid).
Proof.
  unfold applied_set. cbn [cleanupStaleMaps tokensCountedBySession].
  destruct (tokensCountedBySession x !! sid) as [m |] eqn:E.
  - cbn [default from_option id].
    destruct (decide (filter (λ kv : string * Z, stale now kv.2 = false) m = ∅))
      as [He | Hne].
    + rewrite He. rewrite map_lookup_filter_None_2; [ reflexivity | ].
      right. intros m'. rewrite lookup_fmap, E. intros [= <-] Hm. apply Hm, He.
    + rewrite (map_lookup_filter_Some_2 _ _ sid
                 (filter (λ kv : string * Z, stale now kv.2 = false) m)).
      * reflexivity.
      * rewrite lookup_fmap, E. reflexivity.
      * exact Hne.
  - cbn [default from_option id]. rewrite map_filter_empty.
    rewrite map_lookup_filter_None_2; [ reflexivity | ].
    left. rewrite lookup_fmap, E. reflexivity.
Qed.

Lemma filter_twice {A} (P : string * A → Prop) `{∀ kv, Decision (P kv)}
    (m : gmap string A) :
  filter P (filter P m) = filter P m.
Proof.
  apply map_filter_id. intros k a E. apply map_lookup_filter_Some in E as [_ HP].
  exact HP.
Qed.

Lemma cleanup_values now (T : gmap string (gmap string Z)) sid m :
  filter (λ kv : string * gmap string Z, kv.2 ≠ ∅)
    ((λ ts : gmap string Z, filter (λ kv, stale now kv.2 = false) ts) <$> T) !! sid
  = Some m →
  m ≠ ∅ ∧ filter (λ kv : string * Z, stale now kv.2 = false) m = m.
Proof.
  intros E. apply map_lookup_filter_Some in E as [E Hne]. split; [ exact Hne | ].
  rewrite lookup_fmap in E. destruct (T !! sid) as [m0 |]; [ | discriminate E ].
  apply (inj Some) in E. rewrite <- E. apply filter_twice.
Qed.

Lemma cleanupStaleMaps_twice now x :
  cleanupStaleMaps now (cleanupStaleMaps now x) = cleanupStaleMaps now x.
Proof.
  unfold cleanupStaleMaps at 1.
  cbn [cleanupStaleMaps pendingExecutions callIdToPartId pendingUserMessages
       tokensCountedBySession callIdTimestamps].
  unfold cleanupStaleMaps. f_equal.
  - apply filter_twice.
  - apply map_filter_id. intros k p E.
    cbn [fst snd].
    destruct (filter (λ kv : string * Z, stale now kv.2 = false) (callIdTimestamps x) !! k)
      as [t |] eqn:Et; [ | reflexivity ].
    apply map_lookup_filter_Some in Et as [_ Ht]. exact Ht.
  - apply filter_twice.
  - apply map_eq. intros sid.
    match goal with
    | |- ?L !! sid = ?R !! sid => destruct (R !! sid) as [m |] eqn:E
    end.
    + destruct (cleanup_values now _ sid m E) as [Hne Hm].
      apply map_lookup_filter_Some. split; [ | exact Hne ].
      rewrite lookup_fmap, E. cbn. rewrite Hm. reflexivity.
    + apply map_lookup_filter_None. left. rewrite lookup_fmap, E. reflexivity.
  - apply filter_twice.
Qed.

(** X9. What a tick of the cleanup timer keeps. An entry of a map
    survives the sweep exactly when it is at most fifteen minutes old
    (an entry aged exactly fifteen minutes stays); a part link goes
    with the timestamp of its call id; a message stays in the
    token-applied set of its session exactly when its mark is fresh,
    and no session is left with an empty set. A second sweep at the
    same instant changes nothing. *)
Theorem cleanupStaleMaps_keeps_the_fresh :
  ∀ (now : Z) (x : Mem),
    let x' := cleanupStaleMaps now x in
    (∀ k e, pendingExecutions x' !! k = Some e ↔
            pendingExecutions x !! k = Some e ∧ fresh_at now (startedAt e))
    ∧ (∀ k m, pendingUserMessages x' !! k = Some m ↔
              pendingUserMessages x !! k = Some m ∧ fresh_at now (timestamp m))
    ∧ (∀ k t, callIdTimestamps x' !! k = Some t ↔
              callIdTimestamps x !! k = Some t ∧ fresh_at now t)
    ∧ (∀ k p, callIdToPartId x' !! k = Some p ↔
              callIdToPartId x !! k = Some p
              ∧ ∀ t, callIdTimestamps x !! k = Some t → fresh_at now t)
    ∧ (∀ sid mid t, applied_set x' sid !! mid = Some t ↔
                    applied_set x sid !! mid = Some t ∧ fresh_at now t)
    ∧ inhabited x'
    ∧ cleanupStaleMaps now x' = x'.
Proof.
  intros now x x'. subst x'.
  split; [ | split; [ | split; [ | split; [ | split; [ | split ] ] ] ] ].
  - intros k e. cbn [cleanupStaleMaps pendingExecutions].
    rewrite map_lookup_filter_Some. cbn [snd]. rewrite stale_false. reflexivity.
  - intros k m. cbn [cleanupStaleMaps pendingUserMessages].
    rewrite map_lookup_filter_Some. cbn [snd]. rewrite stale_false. reflexivity.
  - intros k t. cbn [cleanupStaleMaps callIdTimestamps].
    rewrite map_lookup_filter_Some. cbn [snd]. rewrite stale_false. reflexivity.
  - intros k p. cbn [cleanupStaleMaps callIdToPartId].
    rewrite map_lookup_filter_Some. cbn [fst snd].
    destruct (callIdTimestamps x !! k) as [t |].
    + rewrite stale_false. split; intros [E H]; (split; [ exact E | ]).
      * intros t' [= <-]. exact H.
      * apply H. reflexivity.
    + split; intros [E _]; (split; [ exact E | ]); [ intros t' [=] | reflexivity ].
  - intros sid mid t. rewrite applied_set_cleanup, map_lookup_filter_Some.
    cbn [snd]. rewrite stale_false. reflexivity.
  - intros sid m E. apply (cleanup_values now _ sid m E).
  - apply cleanupStaleMaps_twice.
Qed.

End Sweep.

Section CorrelationState.
Import Plugin.

(** The maps after each hook, through whatever the gate does. *)
Ltac mem_step :=
  match goal with
  | |- context [ mem (fireAndForget _ _ _ _) ] => rewrite fireAndForget_mem
  | |- context [ mem (with_mem _ _) ] => cbn [mem with_mem]
  | |- context [ mem (match ?x with _ => _ end) ] => destruct x
  end.

Lemma mem_session_compacted c sessionID w :
  mem (session_compacted c sessionID w)
  = set_tokensCountedBySession
      (delete sessionID (tokensCountedBySession (mem w))) (mem w).
Proof.
  unfold session_compacted, Db.safeQuery, read_session.
  destruct (Db.isDatabaseHealthy (now c) (health w)); cbn [negb Db.race];
    cbv beta iota zeta; cbn [fst snd mbind option_bind];
    repeat mem_step; reflexivity.
Qed.

Lemma linked_sweep now x : linked x → linked (cleanupStaleMaps now x).
Proof.
  intros H k. cbn [cleanupStaleMaps callIdToPartId callIdTimestamps].
  unfold is_Some. split.
  - intros [p E]. apply map_lookup_filter_Some in E as [E Hf]. cbn [fst snd] in Hf.
    destruct (proj1 (H k) (ex_intro _ p E)) as [t Et]. rewrite Et in Hf.
    exists t. apply map_lookup_filter_Some. split; assumption.
  - intros [t E]. apply map_lookup_filter_Some in E as [E Hf]. cbn [snd] in Hf.
    destruct (proj2 (H k) (ex_intro _ t E)) as [p Ep].
    exists p. apply map_lookup_filter_Some. split; [ exact Ep | ].
    cbn [fst snd]. rewrite E. exact Hf.
Qed.

Lemma linked_insert cid p t x :
  linked x →
  linked (set_pendingExecutions
            (alter (set_partId p) cid (pendingExecutions x))
            (set_callIdTimestamps (<[cid := t]> (callIdTimestamps x))
               (set_callIdToPartId (<[cid := p]> (callIdToPartId x)) x))).
Proof.
  intros H k. cbn. destruct (decide (cid = k)) as [-> | Hne].
  - rewrite !lookup_insert_eq. split; eauto.
  - rewrite !lookup_insert_ne by exact Hne. apply H.
Qed.

Lemma linked_delete cid x :
  linked x →
  linked (set_callIdTimestamps (delete cid (callIdTimestamps x))
            (set_callIdToPartId (delete cid (callIdToPartId x)) x)).
Proof.
  intros H k. cbn. destruct (decide (cid = k)) as [-> | Hne].
  - rewrite !lookup_delete_eq. split; intros [? [=]].
  - rewrite !lookup_delete_ne by exact Hne. apply H.
Qed.

Lemma linked_step w ck : linked (mem w) → linked (mem (step w ck)).
Proof.
  intros H. destruct ck as [c k]. unfold step. cbn [fst snd].
  destruct k as [e | input | input output | input output |].
  - destruct e; cbv beta iota delta [event];
      try (rewrite mem_session_compacted; exact H);
      cbv beta iota zeta delta
        [event session_created session_updated session_deleted session_idle
         session_error message_removed message_part_removed command_executed
         message_updated message_part_updated];
      repeat mem_step; first [ exact H | apply linked_insert, H ].
  - cbv beta iota zeta delta [chat_message]. repeat mem_step; exact H.
  - cbv beta iota zeta delta [tool_execute_before]. repeat mem_step. exact H.
  - cbv beta iota zeta delta [tool_execute_after]. repeat mem_step;
      apply (linked_delete _ _ H) || apply (linked_delete (ToolInput.callID input)
        (set_pendingExecutions _ (mem w)) H).
  - apply linked_sweep, H.
Qed.

Lemma inhabited_delete sid x :
  inhabited x →
  inhabited (set_tokensCountedBySession (delete sid (tokensCountedBySession x)) x).
Proof.
  intros H k m. cbn. intros E. apply lookup_delete_Some in E as [_ E]. apply (H k m E).
Qed.

Lemma inhabited_insert sid mid t (m0 : gmap string Z) x :
  inhabited x →
  inhabited (set_tokensCountedBySession
               (<[sid := <[mid := t]> m0]> (tokensCountedBySession x)) x).
Proof.
  intros H k m. cbn. destruct (decide (sid = k)) as [-> | Hne].
  - rewrite lookup_insert_eq. intros [= <-]. apply insert_non_empty.
  - rewrite lookup_insert_ne by exact Hne. apply H.
Qed.

Lemma inhabited_step w ck : inhabited (mem w) → inhabited (mem (step w ck)).
Proof.
  intros H. destruct ck as [c k]. unfold step. cbn [fst snd].
  destruct k as [e | input | input output | input output |].
  - destruct e; cbv beta iota delta [event];
      try (rewrite mem_session_compacted; apply inhabited_delete, H);
      cbv beta iota zeta delta
        [event session_created session_updated session_deleted session_idle
         session_error message_removed message_part_removed command_executed
         message_updated message_part_updated];
      repeat mem_step;
      first [ exact H | apply inhabited_delete, H
            | apply (inhabited_insert _ _ _ _ _ H)
            | apply (inhabited_insert _ _ _ _ (set_pendingUserMessages _ (mem w)) H) ].
  - cbv beta iota zeta delta [chat_message]. repeat mem_step; exact H.
  - cbv beta iota zeta delta [tool_execute_before]. repeat mem_step. exact H.
  - cbv beta iota zeta delta [tool_execute_after]. repeat mem_step; exact H.
  - intros sid m E. apply (cleanup_values (now c) _ sid m E).
Qed.

(** X10. Two invariants of the maps, kept by every run of the plugin.
    The part links and their timestamps have the same call ids, and no
    session holds an empty token-applied set. So after a tick of the
    cleanup timer every part link that is left has a timestamp at most
    fifteen minutes old: no link escapes the sweep. *)
Theorem correlation_maps_stay_consistent :
  ∀ (calls : list (Clock * Call)) (w : World),
    linked (mem w) → inhabited (mem w) →
    let w' := run calls w in
    linked (mem w') ∧ inhabited (mem w')
    ∧ ∀ (now : Z) (k p : string),
        callIdToPartId (mem (sweep now w')) !! k = Some p →
        ∃ t, callIdTimestamps (mem w') !! k = Some t ∧ fresh_at now t.
Proof.
  intros calls w Hl Hi w'.
  assert (H : linked (mem w') ∧ inhabited (mem w')).
  { subst w'. revert w Hl Hi.
    induction calls as [| ck calls IH]; intros w Hl Hi; [ split; assumption | ].
    change (run (ck :: calls) w) with (run calls (step w ck)).
    apply IH; [ apply linked_step, Hl | apply inhabited_step, Hi ]. }
  destruct H as [Hl' Hi']. split; [ exact Hl' | ]. split; [ exact Hi' | ].
  intros now k p E. unfold sweep in E. cbn [mem with_mem cleanupStaleMaps callIdToPartId] in E.
  apply map_lookup_filter_Some in E as [E Hf]. cbn [fst snd] in Hf.
  destruct (proj1 (Hl' k) (ex_intro _ p E)) as [t Et]. rewrite Et in Hf.
  exists t. split; [ exact Et | apply stale_false, Hf ].
Qed.

Lemma correlation_maps_stay_consistent_witness :
  let calls :=
    [ (sample_clock,
       call_event (Event.message_part_updated
                     (sample_tool_part (Some (state_with_status "running")) None)));
      (sample_later_clock,
       call_event (Event.message_updated (sample_assistant_message (Some sample_tokens))));
      (sample_sweep_clock, call_sweep) ] in
  callIdToPartId (mem (run calls initial_world)) !! "c1" = None
  ∧ (is_Some (callIdToPartId (mem (run calls initial_world)) !! "c1") ↔
     is_Some (callIdTimestamps (mem (run calls initial_world)) !! "c1")).
Proof.
  intros calls.
  assert (Hl : linked (mem initial_world)).
  { intros k. cbn. rewrite !lookup_empty. split; intros [? [=]]. }
  assert (Hi : inhabited (mem initial_world)).
  { intros sid m. cbn. rewrite lookup_empty. intros [=]. }
  destruct (correlation_maps_stay_consistent calls initial_world Hl Hi) as (Hl' & _).
  split; [ vm_compute; reflexivity | apply Hl' ].
Defined.

End CorrelationState.

(** ** A tool call and its part *)

Section PartLinking.
Import Plugin.


















Lemma tool_execute_after_links c input output w :
  callIdToPartId (mem (tool_execute_after c input output w))
  = delete (ToolInput.callID input) (callIdToPartId (mem w))
  ∧ callIdTimestamps (mem (tool_execute_after c input output w))
    = delete (ToolInput.callID input) (callIdTimestamps (mem w))
  ∧ pendingUserMessages (mem (tool_execute_after c input output w))
    = pendingUserMessages (mem w)
  ∧ tokensCountedBySession (mem (tool_execute_after c input output w))
    = tokensCountedBySession (mem w).
Proof.
  unfold tool_execute_after. cbv zeta.
  destruct (pendingExecutions (mem w) !! ToolInput.callID input);
    cbn [mem with_mem]; rewrite fireAndForget_mem; repeat split; reflexivity.
Qed.

Lemma tool_execute_after_dispatched_orphan c input output w :
  correlated_part (mem w) (ToolInput.callID input) = None →
  pendingExecutions (mem w) !! ToolInput.callID input = None →
  dispatched (tool_execute_after c input output w)
  = (dispatched w ++
       [ [ Sql.ToolExecutionOrphan (generateCorrelationId c)
             (ToolInput.sessionID input) (ToolInput.tool input)
             (nullish (ToolAfter.metadata output))
             (JStr <$> ToolAfter.output output) (now c) ] ])%list.
Proof.
  intros Hc Hp. unfold tool_execute_after. cbv zeta. rewrite Hp.
  unfold correlated_part in Hc. rewrite Hp in Hc. cbn [mbind option_bind] in *.
  rewrite Hc. cbn [dispatched with_mem]. rewrite fireAndForget_dispatched. reflexivity.
Qed.

(** X13. The after hook forgets the call. Whatever it found, the call id
    is afterwards in none of [pendingExecutions], [callIdToPartId] and
    [callIdTimestamps], the entries of other call ids and the two
    other maps are as they were, and a second after hook for the same
    call id dispatches one task that only inserts a row of its own: it
    completes nothing and annotates no part. Through an open gate that
    row is appended when the session row of the call is stored, and is
    rejected by its foreign key when it is not. *)
Theorem after_hook_forgets_the_call :
  ∀ (c1 c2 : Clock) (input : ToolInput.t) (output output' : ToolAfter.t) (w : World),
    let cid := ToolInput.callID input in
    let w1 := tool_execute_after c1 input output w in
    let w2 := tool_execute_after c2 input output' w1 in
    (pendingExecutions (mem w1) !! cid = None
     ∧ callIdToPartId (mem w1) !! cid = None
     ∧ callIdTimestamps (mem w1) !! cid = None)
    ∧ (∀ k, k ≠ cid →
         pendingExecutions (mem w1) !! k = pendingExecutions (mem w) !! k
         ∧ callIdToPartId (mem w1) !! k = callIdToPartId (mem w) !! k
         ∧ callIdTimestamps (mem w1) !! k = callIdTimestamps (mem w) !! k)
    ∧ pendingUserMessages (mem w1) = pendingUserMessages (mem w)
    ∧ tokensCountedBySession (mem w1) = tokensCountedBySession (mem w)
    ∧ dispatched w2
      = (dispatched w1 ++
           [ [ Sql.ToolExecutionOrphan (generateCorrelationId c2)
                 (ToolInput.sessionID input) (ToolInput.tool input)
                 (nullish (ToolAfter.metadata output'))
                 (JStr <$> ToolAfter.output output') (now c2) ] ])%list
    ∧ (healthy w →
         (is_Some (sessions (store w) !! ToolInput.sessionID input) →
          tool_executions (store w2)
          = (tool_executions (store w1) ++ [ orphan_row c2 input output' ])%list)
         ∧ (sessions (store w) !! ToolInput.sessionID input = None →
            tool_executions (store w2) = tool_executions (store w1))
         ∧ message_parts (store w2) = message_parts (store w1)).
Proof.
  intros c1 c2 input output output' w cid w1 w2.
  destruct (tool_execute_after_links c1 input output w) as (Hl & Ht & Hu & Hk).
  fold w1 in Hl, Ht, Hu, Hk.
  pose proof (tool_execute_after_pending c1 input output w) as Hp. fold w1 in Hp.
  assert (Hp1 : pendingExecutions (mem w1) !! cid = None)
    by (rewrite Hp; apply lookup_delete_eq).
  assert (Hl1 : callIdToPartId (mem w1) !! cid = None)
    by (rewrite Hl; apply lookup_delete_eq).
  assert (Hc1 : correlated_part (mem w1) cid = None).
  { unfold correlated_part. rewrite Hp1, Hl1. reflexivity. }
  split; [ split; [ exact Hp1 | split; [ exact Hl1 | ] ] | ].
  { rewrite Ht. apply lookup_delete_eq. }
  split.
  { intros k Hne. rewrite Hp, Hl, Ht. rewrite !lookup_delete_ne by (intros Heq; apply Hne; symmetry; exact Heq).
    repeat split. }
  split; [ exact Hu | ]. split; [ exact Hk | ]. split.
  - apply tool_execute_after_dispatched_orphan; assumption.
  - intros Hh.
    assert (Hh1 : healthy w1).
    { subst w1. destruct (pendingExecutions (mem w) !! ToolInput.callID input) as [p |] eqn:E.
      - apply (tool_execute_after_matched c1 input output w p Hh E).
      - apply (tool_execute_after_orphan c1 input output w Hh E). }
    assert (Hs1 : sessions (store w1) = sessions (store w)).
    { subst w1. destruct (pendingExecutions (mem w) !! ToolInput.callID input) as [p |] eqn:E.
      - apply (tool_execute_after_matched c1 input output w p Hh E).
      - apply (tool_execute_after_orphan c1 input output w Hh E). }
    destruct (tool_execute_after_orphan c2 input output' w1 Hh1 Hp1) as (_ & Ht2 & _).
    fold w2 in Ht2. rewrite Hs1 in Ht2.
    split; [ | split ].
    + intros [r Er]. rewrite Er in Ht2. exact Ht2.
    + intros Er. rewrite Er, app_nil_r in Ht2. exact Ht2.
    + pose proof (tool_execute_after_message_parts c2 input output' w1) as Hmp.
      cbv zeta in Hmp. unfold correlated_part in Hc1. subst cid.
      rewrite Hc1 in Hmp. subst w2. rewrite Hmp.
      destruct (Db.isDatabaseHealthy _ _); [ | reflexivity ].
      destruct (pendingExecutions (mem w1) !! ToolInput.callID input);
        [ reflexivity | ].
      destruct (sessions (store w1) !! ToolInput.sessionID input); reflexivity.
Qed.

Lemma after_hook_forgets_the_call_witness :
  let w0 := tool_execute_before sample_clock sample_tool_input sample_tool_args
              session_world in
  let w1 := tool_execute_after sample_later_clock sample_tool_input sample_tool_output w0 in
  let w2 := tool_execute_after sample_late_clock sample_tool_input sample_tool_output w1 in
  pendingExecutions (mem w1) !! "c1" = None
  ∧ length (tool_executions (store w2)) = 2%nat.
Proof.
  intros w0 w1 w2.
  destruct (after_hook_forgets_the_call sample_later_clock sample_late_clock
              sample_tool_input sample_tool_output sample_tool_output w0)
    as ((Hp & _) & _ & _ & _ & _ & Hs).
  split; [ exact Hp | ].
  assert (Hh : healthy w0) by reflexivity.
  assert (Hsess : is_Some (sessions (store w0) !! ToolInput.sessionID sample_tool_input)).
  { eexists. vm_compute. reflexivity. }
  destruct (Hs Hh) as [Ht _]. subst w2 w1. rewrite (Ht Hsess), length_app. reflexivity.
Defined.

(** Without the session row neither hook of a tool call stores a row. *)
Example tool_call_of_unknown_session_stores_no_row :
  let w1 := tool_execute_before sample_clock sample_tool_input sample_tool_args
              initial_world in
  let w2 := tool_execute_after sample_later_clock sample_tool_input sample_tool_output w1 in
  let w3 := tool_execute_after sample_late_clock sample_tool_input sample_tool_output w2 in
  tool_executions (store w3) = []
  ∧ length (log w1) = 1%nat
  ∧ healthy w3.
Proof. vm_compute. repeat split; reflexivity. Qed.

End PartLinking.

(** ** Compaction and cost *)

Section Compaction.
Import Plugin.




End Compaction.

Section Recount.
Import Plugin.





End Recount.

Section Cost.
Import Plugin.

(** What a part event does to [sessions], through a gate that admits. *)
Lemma message_part_updated_sessions c p w :
  admits c w →
  sessions (store (event c (Event.message_part_updated p) w))
  = Sql.upsert (PartInfo.sessionID p) (Sessions.fresh (Some "active")) (λ r, r)
      (sessions (charged p (store w))).
Proof.
  intros Ha. destruct (message_part_updated_store c p w Ha) as [_ Hst].
  cbv zeta in Hst. rewrite Hst. apply (part_event_run p (store w)).
Qed.

Lemma scaled_positive x : 0 < (Numeric.scaled x).2.
Proof.
  unfold Numeric.scaled. cbv zeta.
  destruct (Z.leb_spec 0 (Num.exponent x + 6)); cbn [snd]; [ lia | ].
  apply Z.pow_pos_nonneg; lia.
Qed.

Lemma scaled_nonneg x : 0 ≤ Num.coefficient x → 0 ≤ (Numeric.scaled x).1.
Proof.
  intros H. unfold Numeric.scaled. cbv zeta.
  destruct (Z.leb_spec 0 (Num.exponent x + 6)); cbn [fst]; [ | exact H ].
  apply Z.mul_nonneg_nonneg; [ exact H | ]. apply Z.pow_nonneg. lia.
Qed.

(** A cost that is not negative is rounded on its own: adding it to a
    stored value that is not negative adds its rounded value. *)
Lemma add_nonneg e x :
  0 ≤ e → 0 ≤ Num.coefficient x →
  Numeric.add e x = e + Numeric.add 0 x ∧ 0 ≤ Numeric.add 0 x.
Proof.
  intros He Hx. unfold Numeric.add.
  pose proof (scaled_positive x) as Hd. pose proof (scaled_nonneg x Hx) as Hn.
  destruct (Numeric.scaled x) as [n d]. cbn [fst snd] in Hd, Hn.
  unfold Numeric.round.
  assert (H1 : 0 ≤ e * d + n) by nia.
  assert (H0 : 0 ≤ 0 * d + n) by lia.
  apply Z.leb_le in H1, H0. rewrite H1, H0. split.
  - replace (2 * (e * d + n) + d) with (e * (2 * d) + (2 * (0 * d + n) + d)) by ring.
    apply Z.div_add_l. lia.
  - apply Z.div_pos; lia.
Qed.

Lemma cost_of_nonneg p : charges_no_refund p → 0 ≤ cost_of p.
Proof.
  intros H. unfold cost_of. destruct (charge p) as [k |] eqn:E; [ | lia ].
  apply (add_nonneg 0 k); [ lia | apply (H k E) ].
Qed.

Lemma fits_between v hi : 0 ≤ v → v ≤ hi → Numeric.fits hi = true → Numeric.fits v = true.
Proof.
  unfold Numeric.fits. intros H0 Hle Hf. apply Z.ltb_lt in Hf. apply Z.ltb_lt. lia.
Qed.

(** One delivery on a session whose row is stored: the cost column moves
    by the rounded cost of the part when the sum is within the column. *)
Lemma cost_step c p w r e :
  admits c w →
  sessions (store w) !! PartInfo.sessionID p = Some r →
  Sessions.estimated_cost r = Some e →
  0 ≤ e → charges_no_refund p →
  Numeric.fits (e + cost_of p) = true →
  ∃ r', sessions (store (event c (Event.message_part_updated p) w))
          !! PartInfo.sessionID p = Some r'
        ∧ Sessions.estimated_cost r' = Some (e + cost_of p).
Proof.
  intros Ha E Ee He Hp Hfit. rewrite (message_part_updated_sessions c p w Ha).
  rewrite upsert_eq. unfold charged, cost_of in *.
  destruct (charge p) as [k |] eqn:Ek.
  - destruct (add_nonneg e k He (Hp k Ek)) as [Hadd _].
    unfold Sql.exec. cbn [Sql.violation]. rewrite E. cbn [mbind option_bind].
    rewrite Ee, Hadd, Hfit. cbn [Sql.effect Sql.on_sessions sessions].
    rewrite (update_where_eq _ _ _ _ _ E). eexists. split; [ reflexivity | ].
    cbn. rewrite Ee. cbn. rewrite Hadd. reflexivity.
  - rewrite E. exists r. split; [ reflexivity | ]. rewrite Ee. f_equal. lia.
Qed.

(** X16. The cost of a session is the sum of the costs delivered, each
    rounded to the six decimals of the column. Through an open gate, on
    a session whose row is stored with a cost that is not negative,
    for deliveries that carry no negative cost and whose sum stays
    within [NUMERIC(10, 6)]: each delivery of a [step-finish] part that
    carries a cost adds its rounded value to [estimated_cost]; parts of
    other types and parts without cost add nothing; and nothing keeps
    track of the parts already added, so a part delivered twice is
    added twice. *)
Theorem session_cost_sums_every_delivery :
  ∀ (deliveries : list (Clock * PartInfo.t)) (sid : string) (w : World)
    (r : Sessions.row) (e : Z),
    healthy w →
    sessions (store w) !! sid = Some r →
    Sessions.estimated_cost r = Some e →
    0 ≤ e →
    Forall (λ cp, PartInfo.sessionID cp.2 = sid ∧ charges_no_refund cp.2) deliveries →
    Numeric.fits (e + foldr (λ cp acc, cost_of cp.2 + acc) 0 deliveries) = true →
    ∃ r', sessions (store (run (part_call <$> deliveries) w)) !! sid = Some r'
          ∧ Sessions.estimated_cost r'
            = Some (e + foldr (λ cp acc, cost_of cp.2 + acc) 0 deliveries).
Proof.
  intros deliveries sid. induction deliveries as [| [c p] ds IH];
    intros w r e Hh E Ee He Hall Hfit.
  - exists r. split; [ exact E | ]. rewrite Ee. cbn. f_equal. lia.
  - apply Forall_cons in Hall as [[Hsid Hp] Hall]. cbn [snd] in Hsid, Hp. subst sid.
    cbn [fmap list_fmap]. change (run (part_call (c, p) :: (part_call <$> ds)) w)
      with (run (part_call <$> ds) (event c (Event.message_part_updated p) w)).
    cbn [foldr snd] in Hfit |- *.
    assert (Hrest : 0 ≤ foldr (λ cp acc, cost_of cp.2 + acc) 0 ds).
    { clear -Hall. induction Hall as [| cp ds' [_ Hcp] _ IHd]; cbn [foldr]; [ lia | ].
      pose proof (cost_of_nonneg _ Hcp). lia. }
    pose proof (cost_of_nonneg p Hp) as H0.
    assert (Hfit1 : Numeric.fits (e + cost_of p) = true).
    { eapply fits_between; [ | | exact Hfit ]; lia. }
    assert (Ha : admits c w) by apply healthy_admits_at, Hh.
    destruct (cost_step c p w r e Ha E Ee He Hp Hfit1) as (r1 & E1 & Ee1).
    destruct (message_part_updated_store c p w Ha) as [Hh1 _].
    assert (Hfit' : Numeric.fits (e + cost_of p
                                  + foldr (λ cp acc, cost_of cp.2 + acc) 0 ds) = true).
    { rewrite <- Hfit. f_equal. lia. }
    destruct (IH _ r1 _ Hh1 E1 Ee1 ltac:(lia) Hall Hfit') as (r' & E' & Ee').
    exists r'. split; [ exact E' | ]. rewrite Ee'. f_equal. lia.
Qed.

Lemma session_cost_sums_every_delivery_witness :
  let step_finish := sample_step_finish {| Num.coefficient := 15; Num.exponent := -4 |} in
  let w3 := run (part_call <$> [ (sample_later_clock, step_finish);
                                 (sample_late_clock, step_finish) ]) session_world in
  ∃ r', sessions (store w3) !! "sess-1" = Some r'
        ∧ Sessions.estimated_cost r' = Some 3000.
Proof.
  intros step_finish w3.
  assert (Hh : healthy session_world) by reflexivity.
  assert (E : ∃ r, sessions (store session_world) !! "sess-1" = Some r
                   ∧ Sessions.estimated_cost r = Some 0).
  { eexists. split; vm_compute; reflexivity. }
  destruct E as (r & E & Ee).
  assert (Hall : Forall (λ cp : Clock * PartInfo.t,
                           PartInfo.sessionID cp.2 = "sess-1" ∧ charges_no_refund cp.2)
                   [ (sample_later_clock, step_finish); (sample_late_clock, step_finish) ]).
  { repeat (constructor; [ split; [ reflexivity | ] | ]); try constructor;
      intros k [= <-]; vm_compute; discriminate. }
  assert (H0 : 0 ≤ 0) by lia.
  exact (session_cost_sums_every_delivery _ "sess-1" session_world r 0 Hh E Ee H0 Hall
           eq_refl).
Defined.

(** Each delivery is rounded on its own: two deliveries of half a unit
    of the column leave two units, not one. A cost that would take the
    column to [10^4] or more is rejected and the stored cost stays. *)
Example cost_is_rounded_at_every_delivery :
  let half := sample_step_finish {| Num.coefficient := 5; Num.exponent := -7 |} in
  let huge := sample_step_finish {| Num.coefficient := 1; Num.exponent := 4 |} in
  let w2 := run (part_call <$> [ (sample_later_clock, half); (sample_late_clock, half) ])
              session_world in
  let w3 := event sample_late_clock (Event.message_part_updated huge) w2 in
  Sessions.estimated_cost <$> sessions (store w2) !! "sess-1" = Some (Some 2)
  ∧ Sessions.estimated_cost <$> sessions (store w3) !! "sess-1" = Some (Some 2)
  ∧ healthy w3.
Proof. vm_compute. repeat split; reflexivity. Qed.



End Cost.

(** ** Message rows *)

Section MessageRows.
Import Plugin.

Lemma fireAndForget_with_mem c task onError f w :
  fireAndForget c task onError (with_mem f w)
  = with_mem f (fireAndForget c task onError w).
Proof.
  destruct (Db.isDatabaseHealthy (now c) (health w)) eqn:E.
  - rewrite (fireAndForget_admitted c task onError w E).
    rewrite (fireAndForget_admitted c task onError (with_mem f w) E). reflexivity.
  - rewrite (fireAndForget_refused c task onError w E).
    rewrite (fireAndForget_refused c task onError (with_mem f w) E). reflexivity.
Qed.

(** What [message.updated] does to [messages] and to the buffer of chat
    messages. *)
Lemma message_updated_messages c info w :
  healthy w →
  let w' := event c (Event.message_updated info) w in
  let pending := pending_for info (mem w) in
  healthy w'
  ∧ messages (store w')
    = Sql.upsert (MessageInfo.id info) (message_row info pending)
                 (message_merge info pending) (messages (store w)).
Proof.
  intros Hh. cbv beta iota zeta delta [event message_updated].
  rewrite !fireAndForget_mem.
  unfold pending_for, message_row, message_merge, message_text, message_content,
    message_system, message_provider, message_model, message_summary.
  destruct (bool_decide (MessageInfo.role info = "user"));
    [ destruct (pendingUserMessages (mem w) !! MessageInfo.sessionID info) | ];
    cbn [mem with_mem]; rewrite ?fireAndForget_mem;
    repeat match goal with
           | |- context [ match ?x with _ => _ end ] =>
               lazymatch x with
               | context [ fireAndForget ] => fail
               | context [ Sql.upsert ] => fail
               | _ => destruct x
               end
           | |- context [ if ?x then _ else _ ] =>
               lazymatch x with
               | context [ fireAndForget ] => fail
               | _ => destruct x
               end
           end;
    rewrite ?fireAndForget_with_mem;
    match goal with
    | |- context [ fireAndForget c [ ?q ] ?err
                     (fireAndForget c [ Sql.SessionTouch ?sid ] None w) ] =>
        destruct (message_updated_head c sid q err w (healthy_admits_at c w Hh))
          as (Hh1 & _ & _ & Hm1 & _);
        [ do 8 eexists; reflexivity | ];
        set (w1 := fireAndForget c [ q ] err
                     (fireAndForget c [ Sql.SessionTouch sid ] None w)) in *
    end;
    rewrite ?fireAndForget_healthy by solve_healthy;
    cbn [mem health store log dispatched with_mem];
    rewrite ?exec_all_single; unfold Sql.exec;
    cbn [Sql.violation Sql.effect Sql.on_sessions messages];
    (split; [ solve_healthy | ]); rewrite Hm1; reflexivity.
Qed.







(** X20. [message.updated] on a message that is stored. The role is
    overwritten by the role of the event; the session of the row stays
    the one it was inserted with, whatever session the event names;
    and each of the six nullable columns becomes [COALESCE(new,
    stored)], so none of them goes from a value to NULL. *)
Theorem message_known_fields_survive :
  ∀ (c : Clock) (info : MessageInfo.t) (w : World) (row : Messages.row),
    healthy w →
    messages (store w) !! MessageInfo.id info = Some row →
    let pending := pending_for info (mem w) in
    ∃ row', messages (store (event c (Event.message_updated info) w))
              !! MessageInfo.id info = Some row'
            ∧ Messages.role row' = MessageInfo.role info
            ∧ Messages.session_id row' = Messages.session_id row
            ∧ Messages.model_provider row'
              = COALESCE (message_provider info) (Messages.model_provider row)
            ∧ Messages.model_id row'
              = COALESCE (message_model info) (Messages.model_id row)
            ∧ Messages.text row'
              = COALESCE (message_text info pending) (Messages.text row)
            ∧ Messages.summary row'
              = COALESCE (message_summary info) (Messages.summary row)
            ∧ Messages.content row'
              = COALESCE (message_content info pending) (Messages.content row)
            ∧ Messages.system_prompt row'
              = COALESCE (message_system info pending) (Messages.system_prompt row)
            ∧ kept (Messages.model_provider row) (Messages.model_provider row')
            ∧ kept (Messages.model_id row) (Messages.model_id row')
            ∧ kept (Messages.text row) (Messages.text row')
            ∧ kept (Messages.summary row) (Messages.summary row')
            ∧ kept (Messages.content row) (Messages.content row')
            ∧ kept (Messages.system_prompt row) (Messages.system_prompt row').
Proof.
  intros c info w row Hh E pending.
  destruct (message_updated_messages c info w Hh) as [_ Hm]. rewrite Hm.
  rewrite upsert_eq, E. eexists. split; [ reflexivity | ].
  unfold message_merge, Sql.merge_message. fold pending.
  cbn [Messages.role Messages.session_id Messages.model_provider Messages.model_id
       Messages.text Messages.summary Messages.content Messages.system_prompt].
  repeat (split; [ reflexivity | ]).
  repeat split; apply kept_COALESCE.
Qed.

Lemma message_known_fields_survive_witness :
  let first :=
    {| MessageInfo.id := "msg-1"; MessageInfo.sessionID := "sess-1";
       MessageInfo.role := "assistant"; MessageInfo.model := None;
       MessageInfo.providerID := Some "anthropic"; MessageInfo.modelID := Some "claude";
       MessageInfo.parts := None;
       MessageInfo.summary := Some {| MessageInfo.title := Some "Plan" |};
       MessageInfo.system := None; MessageInfo.tokens := None |} in
  let second :=
    {| MessageInfo.id := "msg-1"; MessageInfo.sessionID := "sess-2";
       MessageInfo.role := "assistant"; MessageInfo.model := None;
       MessageInfo.providerID := None; MessageInfo.modelID := None;
       MessageInfo.parts := None; MessageInfo.summary := None;
       MessageInfo.system := None; MessageInfo.tokens := None |} in
  let w1 := event sample_clock (Event.message_updated first) initial_world in
  let w2 := event sample_later_clock (Event.message_updated second) w1 in
  ∃ row', messages (store w2) !! "msg-1" = Some row'
          ∧ Messages.session_id row' = "sess-1"
          ∧ Messages.summary row' = Some "Plan"
          ∧ Messages.model_id row' = Some "claude".
Proof.
  intros first second w1 w2.
  assert (Hh : healthy w1) by reflexivity.
  assert (E : messages (store w1) !! MessageInfo.id second
              = Some (message_row first None)).
  { vm_compute. reflexivity. }
  destruct (message_known_fields_survive sample_later_clock second w1 _ Hh E)
    as (row' & E' & _ & Hsid & _ & Hmid & _ & Hsum & _).
  exists row'. split; [ exact E' | ]. rewrite Hsid, Hsum, Hmid. repeat split.
Defined.

Lemma message_removed_store c mid w :
  healthy w →
  store (event c (Event.message_removed mid) w)
  = Sql.effect (Sql.MessageDelete mid) (store w).
Proof.
  intros Hh. cbv beta iota zeta delta [event message_removed].
  rewrite fireAndForget_healthy by exact Hh. reflexivity.
Qed.

(** X21. [message.removed] through an open gate removes the message row
    and, by the cascade of the schema, exactly the parts that belong
    to it; every other message, every part of another message, and
    the sessions and tool executions are as they were. *)
Theorem message_removed_cascades_to_its_parts :
  ∀ (c : Clock) (mid : string) (w : World),
    healthy w →
    let w' := event c (Event.message_removed mid) w in
    messages (store w') !! mid = None
    ∧ (∀ k, k ≠ mid → messages (store w') !! k = messages (store w) !! k)
    ∧ (∀ pid row, message_parts (store w') !! pid = Some row ↔
                  message_parts (store w) !! pid = Some row
                  ∧ MessageParts.message_id row ≠ mid)
    ∧ sessions (store w') = sessions (store w)
    ∧ tool_executions (store w') = tool_executions (store w).
Proof.
  intros c mid w Hh w'. subst w'. rewrite (message_removed_store c mid w Hh).
  cbn [Sql.effect Sql.on_message_parts Sql.on_messages messages message_parts sessions
       tool_executions].
  split; [ apply lookup_delete_eq | ]. split.
  - intros k Hne. apply lookup_delete_ne. congruence.
  - split; [ | split; reflexivity ].
    intros pid row. rewrite map_lookup_filter_Some. reflexivity.
Qed.

Lemma message_removed_cascades_to_its_parts_witness :
  let w1 := run [ (sample_clock,
                   call_event (Event.message_part_updated (sample_text_part (Some "hi"))));
                  (sample_later_clock, call_event (Event.message_removed "msg-1")) ]
                session_world in
  messages (store w1) !! "msg-1" = None
  ∧ message_parts (store w1) !! "p-text" = None.
Proof.
  intros w1.
  pose (w0 := event sample_clock (Event.message_part_updated (sample_text_part (Some "hi")))
                session_world).
  assert (Hh : healthy w0) by reflexivity.
  destruct (message_removed_cascades_to_its_parts sample_later_clock "msg-1" w0 Hh)
    as (Hm & _ & Hp & _).
  split; [ exact Hm | ].
  destruct (message_parts (store w1) !! "p-text") as [row |] eqn:E; [ | reflexivity ].
  apply Hp in E as [E Hne]. exfalso. apply Hne.
  assert (E0 : message_parts (store w0) !! "p-text"
               = Some (proposed_row (sample_text_part (Some "hi")))).
  { vm_compute. reflexivity. }
  rewrite E0 in E. injection E as <-. reflexivity.
Defined.

End MessageRows.

(** ** Status ranks, message texts and the creation of sessions *)

Section StatusRank.
Import Plugin.








End StatusRank.

Section MessageText.
Import Plugin.








End MessageText.

Section SessionCreation.
Import Plugin.

Lemma same_session_ids_refl w : same_session_ids w w.
Proof. intros id. reflexivity. Qed.

Lemma same_session_ids_trans w1 w2 w3 :
  same_session_ids w1 w2 → same_session_ids w2 w3 → same_session_ids w1 w3.
Proof. intros H1 H2 id. rewrite (H2 id). apply H1. Qed.

Lemma effect_keeps_ids q s id :
  inserts_session q = false →
  is_Some (sessions (Sql.effect q s) !! id) ↔ is_Some (sessions s !! id).
Proof.
  destruct q; intros H; try discriminate H;
    cbn [Sql.effect Sql.on_sessions Sql.on_messages Sql.on_message_parts
         Sql.on_tool_executions sessions];
    try reflexivity; apply update_where_is_Some.
Qed.

Lemma exec_all_keeps_ids qs s id :
  forallb (λ q, negb (inserts_session q)) qs = true →
  is_Some (sessions (Sql.exec_all qs s) !! id) ↔ is_Some (sessions s !! id).
Proof.
  revert s. induction qs as [| q qs IH]; intros s H; [ reflexivity | ].
  cbn [forallb] in H. apply andb_true_iff in H as [Hq Hqs].
  apply negb_true_iff in Hq.
  rewrite exec_all_cons. destruct (Sql.violation q s); [ reflexivity | ].
  rewrite (IH _ Hqs). apply effect_keeps_ids, Hq.
Qed.

Lemma same_session_ids_fireAndForget c task onError w :
  forallb (λ q, negb (inserts_session q)) task = true →
  same_session_ids w (fireAndForget c task onError w).
Proof.
  intros H id. rewrite fireAndForget_store.
  destruct (Db.isDatabaseHealthy (now c) (health w)); [ | reflexivity ].
  apply exec_all_keeps_ids, H.
Qed.

Lemma annotate_part_inserts_no_session partId output :
  forallb (λ q, negb (inserts_session q)) (annotate_part partId output) = true.
Proof.
  unfold annotate_part.
  destruct partId; [ destruct (or_null (ToolAfter.output output)) | ]; reflexivity.
Qed.

Ltac same_ids_step :=
  match goal with
  | |- same_session_ids ?w ?w => apply same_session_ids_refl
  | |- same_session_ids _ (fireAndForget _ (_ :: annotate_part _ _) _ ?w0) =>
      apply (same_session_ids_trans _ w0);
      [ | apply same_session_ids_fireAndForget; cbn [forallb inserts_session negb andb];
          apply annotate_part_inserts_no_session ]
  | |- same_session_ids _ (fireAndForget _ _ _ ?w0) =>
      apply (same_session_ids_trans _ w0);
      [ | apply same_session_ids_fireAndForget; reflexivity ]
  | |- same_session_ids _ (with_mem _ ?w0) =>
      apply (same_session_ids_trans _ w0); [ | intros ?; reflexivity ]
  | |- same_session_ids _ (match ?x with _ => _ end) => destruct x
  end.

Lemma same_session_ids_session_compacted c sessionID w :
  same_session_ids w (session_compacted c sessionID w).
Proof.
  unfold session_compacted, Db.safeQuery, read_session.
  destruct (Db.isDatabaseHealthy (now c) (health w)) eqn:E; cbn [negb Db.race];
    cbv beta iota zeta.
  - eapply same_session_ids_trans with
      (w2 := {| mem := mem w; health := Db.markHealthy; store := store w;
                log := log w; dispatched := dispatched w |}).
    { intros id. reflexivity. }
    cbn [fst snd mbind option_bind]. repeat same_ids_step.
  - eapply same_session_ids_trans with
      (w2 := {| mem := mem w; health := health w; store := store w;
                log := log w; dispatched := dispatched w |}).
    { intros id. reflexivity. }
    cbn [mbind option_bind]. repeat same_ids_step.
Qed.

(** X24. Session rows are created by three events only. Every call other
    than [session.created], [message.updated] and
    [message.part.updated] leaves the set of session ids as it was,
    whatever the gate does: a [chat.message], a [session.updated] or a
    [session.compacted] for a session that is not stored creates no
    row, and neither do the tool hooks. *)
Theorem only_three_events_create_session_rows :
  ∀ (c : Clock) (k : Call) (w : World) (id : string),
    creates_sessions k = false →
    (is_Some (sessions (store (step w (c, k))) !! id) ↔
     is_Some (sessions (store w) !! id)).
Proof.
  intros c k w id Hk. revert id. change (same_session_ids w (step w (c, k))).
  unfold step. cbn [fst snd].
  destruct k as [e | input | input output | input output |].
  - destruct e; try discriminate Hk;
      cbv beta iota zeta delta
        [event session_updated session_deleted session_idle session_error
         message_removed message_part_removed command_executed];
      try apply same_session_ids_session_compacted; repeat same_ids_step.
  - cbv beta iota zeta delta [chat_message]. repeat same_ids_step.
  - cbv beta iota zeta delta [tool_execute_before]. repeat same_ids_step.
  - cbv beta iota zeta delta [tool_execute_after]. repeat same_ids_step.
  - intros id. reflexivity.
Qed.

Lemma only_three_events_create_session_rows_witness :
  let input := {| ChatMessage.sessionID := "sess-9"; ChatMessage.system := None;
                  ChatMessage.parts := None |} in
  sessions (store (step initial_world (sample_clock, call_chat_message input))) !! "sess-9"
  = None.
Proof.
  intros input.
  destruct (only_three_events_create_session_rows sample_clock (call_chat_message input)
              initial_world "sess-9" eq_refl) as [H _].
  destruct (sessions (store (step initial_world (sample_clock, call_chat_message input)))
              !! "sess-9") as [r |] eqn:E; [ | reflexivity ].
  destruct (H (ex_intro _ r eq_refl)) as [r0 E0]. vm_compute in E0. discriminate E0.
Defined.

End SessionCreation.

(** ** First reports, rebuilt texts and deleted sessions *)

Section FirstReport.
Import Plugin.



End FirstReport.

Section JoinedText.
Import Plugin.

Lemma or_null_not_empty a s : or_null a = Some s → s ≠ "".
Proof. destruct a as [[| ] |]; simpl; intros [= <-]; discriminate. Qed.

Lemma text_items_not_empty ps : Forall (λ s, s ≠ "") (text_items ps).
Proof.
  unfold text_items. induction ps as [| p ps IH]; [ constructor | ].
  cbn [omap list_omap]. case_bool_decide; [ | exact IH ].
  destruct (or_null (MessageInfo.text p)) as [s |] eqn:E; [ | exact IH ].
  constructor; [ apply (or_null_not_empty _ _ E) | exact IH ].
Qed.

Lemma concat_empty sep l :
  Forall (λ s, s ≠ "") l → String.concat sep l = "" → l = [].
Proof.
  intros Hl. destruct l as [| x [| y l]]; [ reflexivity | | ];
    apply Forall_cons in Hl as [Hx _]; cbn [String.concat]; intros E.
  - contradiction.
  - destruct x; [ contradiction | discriminate E ].
Qed.

(** X26. The text rebuilt from buffered parts. [joined_text] joins, with
    newlines, the texts of the items of type [text] whose text is not
    empty; it is NULL exactly when there is no such item, and a single
    such item gives its own text. Items of other types and empty texts
    never contribute. *)
Theorem joined_text_is_null_exactly_without_text :
  ∀ ps : list MessageInfo.item,
    (joined_text ps = None ↔ text_items ps = [])
    ∧ (∀ t, text_items ps = [ t ] → joined_text ps = Some t)
    ∧ (∀ t ts, text_items ps = t :: ts →
               joined_text ps = Some (String.concat newline (t :: ts)))
    ∧ (∀ p qs rs,
         MessageInfo.type p ≠ "text" ∨ or_null (MessageInfo.text p) = None →
         ps = (qs ++ p :: rs)%list →
         joined_text ps = joined_text (qs ++ rs)%list).
Proof.
  intros ps. pose proof (text_items_not_empty ps) as Hne.
  assert (Hj : joined_text ps = or_null (Some (String.concat newline (text_items ps))))
    by reflexivity.
  assert (Hsome : ∀ t ts, text_items ps = t :: ts →
                          joined_text ps = Some (String.concat newline (t :: ts))).
  { intros t ts E. rewrite Hj, E.
    destruct (String.concat newline (t :: ts)) eqn:Ec; [ | reflexivity ].
    rewrite E in Hne. apply (concat_empty newline _ Hne) in Ec. discriminate Ec. }
  split; [ | split; [ | split ] ].
  - split.
    + intros E. destruct (text_items ps) as [| t ts] eqn:Et; [ reflexivity | ].
      rewrite (Hsome t ts eq_refl) in E. discriminate E.
    + intros E. rewrite Hj, E. reflexivity.
  - intros t E. rewrite (Hsome t [] E). reflexivity.
  - exact Hsome.
  - intros p qs rs Hp ->. unfold joined_text. do 2 f_equal.
    rewrite !omap_app. cbn [omap list_omap].
    destruct Hp as [Hty | Htx].
    + rewrite bool_decide_eq_false_2 by exact Hty. reflexivity.
    + rewrite Htx. destruct (bool_decide _); reflexivity.
Qed.

End JoinedText.

Section SoftDelete.
Import Plugin.

Lemma session_deleted_store c info w :
  healthy w →
  let w' := event c (Event.session_deleted info) w in
  healthy w'
  ∧ store w' = Sql.effect (Sql.SessionMarkDeleted (SessionInfo.id info)) (store w).
Proof.
  intros Hh. cbv beta iota zeta delta [event session_deleted].
  rewrite fireAndForget_healthy by exact Hh. split; reflexivity.
Qed.

Lemma chat_message_sessions c input w :
  healthy w →
  sessions (store (chat_message c input w))
  = Sql.update_where (ChatMessage.sessionID input) Sql.always (Sql.set_status "active")
      (sessions (store w)).
Proof.
  intros Hh. cbv beta iota zeta delta [chat_message].
  destruct (ChatMessage.parts input) as [[| p ps] |];
    try destruct (truthy (ChatMessage.system input));
    dispatch_healthy; reflexivity.
Qed.

(** X27. [session.deleted] is a soft delete. Through an open gate the
    session row stays, with status ['deleted'] and every other column
    as it was; no other session row changes, and the messages, parts,
    tool executions, errors, commands and compactions of the session
    all stay. A [chat.message] for the session afterwards sets the
    status of the row back to ['active']. *)
Theorem session_deleted_is_a_soft_delete :
  ∀ (c c' : Clock) (info : SessionInfo.t) (input : ChatMessage.t) (w : World)
    (r : Sessions.row),
    healthy w →
    sessions (store w) !! SessionInfo.id info = Some r →
    ChatMessage.sessionID input = SessionInfo.id info →
    let w' := event c (Event.session_deleted info) w in
    sessions (store w') !! SessionInfo.id info = Some (Sql.set_status "deleted" r)
    ∧ (∀ k, k ≠ SessionInfo.id info →
            sessions (store w') !! k = sessions (store w) !! k)
    ∧ messages (store w') = messages (store w)
    ∧ message_parts (store w') = message_parts (store w)
    ∧ tool_executions (store w') = tool_executions (store w)
    ∧ session_errors (store w') = session_errors (store w)
    ∧ commands (store w') = commands (store w)
    ∧ compactions (store w') = compactions (store w)
    ∧ sessions (store (chat_message c' input w')) !! SessionInfo.id info
      = Some (Sql.set_status "active" r).
Proof.
  intros c c' info input w r Hh E Hsid w'.
  destruct (session_deleted_store c info w Hh) as [Hh' Hs]. fold w' in Hh', Hs.
  assert (E' : sessions (store w') !! SessionInfo.id info
               = Some (Sql.set_status "deleted" r)).
  { rewrite Hs. cbn [Sql.effect Sql.on_sessions sessions].
    rewrite (update_where_eq _ _ _ _ _ E). reflexivity. }
  split; [ exact E' | ]. rewrite Hs. split.
  { intros k Hne. cbn [Sql.effect Sql.on_sessions sessions].
    apply update_where_ne. congruence. }
  repeat (split; [ reflexivity | ]).
  rewrite (chat_message_sessions c' input w' Hh'), Hsid.
  rewrite (update_where_eq _ _ _ _ _ E'). reflexivity.
Qed.

Lemma session_deleted_is_a_soft_delete_witness :
  let info := {| SessionInfo.id := "sess-1"; SessionInfo.title := None;
                 SessionInfo.parentID := None; SessionInfo.projectID := None;
                 SessionInfo.directory := None; SessionInfo.share := None |} in
  let w1 := run [ (sample_clock,
                   call_event (Event.message_part_updated (sample_text_part (Some "hi")))) ]
                session_world in
  let w2 := event sample_later_clock (Event.session_deleted info) w1 in
  Sessions.status <$> sessions (store w2) !! "sess-1" = Some (Some "deleted")
  ∧ messages (store w2) = messages (store w1)
  ∧ message_parts (store w2) = message_parts (store w1).
Proof.
  intros info w1 w2.
  assert (Hh : healthy w1) by reflexivity.
  assert (E : ∃ r, sessions (store w1) !! SessionInfo.id info = Some r).
  { eexists. vm_compute. reflexivity. }
  destruct E as [r E].
  destruct (session_deleted_is_a_soft_delete sample_later_clock sample_late_clock info
              {| ChatMessage.sessionID := "sess-1"; ChatMessage.system := None;
                 ChatMessage.parts := None |} w1 r Hh E eq_refl)
    as (Hrow & _ & Hm & Hp & _).
  subst w2. change (SessionInfo.id info) with "sess-1" in Hrow.
  rewrite Hrow. split; [ reflexivity | ]. split; [ exact Hm | exact Hp ].
Defined.

End SoftDelete.

(** ** Events delivered twice *)

Section Replay.
Import Plugin.












End Replay.

Section ReplayMessage.
Import Plugin.






(** A part event whose session is not stored, delivered twice: the
    second delivery finds the session row the first one inserted and
    stores the message and the part. *)
Example replayed_part_event_of_unknown_session_stores_the_part :
  let part := sample_tool_part (Some (state_with_status "completed")) None in
  let w1 := event sample_clock (Event.message_part_updated part) initial_world in
  let w2 := event sample_later_clock (Event.message_part_updated part) w1 in
  message_parts (store w1) !! "p1" = None
  ∧ message_parts (store w2) !! "p1" = Some (proposed_row part).
Proof. vm_compute. split; reflexivity. Qed.

End ReplayMessage.

(** ** Events that do not interfere *)

Section Locality.
Import Plugin.

Lemma acts_at_comm {R} k1 k2 g1 g2 (F1 F2 : gmap string R → gmap string R) t :
  k1 ≠ k2 → acts_at k1 g1 F1 → acts_at k2 g2 F2 → F1 (F2 t) = F2 (F1 t).
Proof.
  intros Hne H1 H2. apply map_eq. intros k.
  rewrite (H1 (F2 t) k), (H2 (F1 t) k), (H2 t k1), (H1 t k2), (H2 t k), (H1 t k).
  rewrite (decide_False (P := k1 = k2)) by exact Hne.
  rewrite (decide_False (P := k2 = k1)) by (intros E; apply Hne; symmetry; exact E).
  destruct (decide (k = k1)) as [E1 | N1], (decide (k = k2)) as [E2 | N2];
    try reflexivity.
  exfalso. apply Hne. rewrite <- E1, <- E2. reflexivity.
Qed.

Lemma acts_at_same {R} k g1 g2 (F1 F2 : gmap string R → gmap string R) t :
  acts_at k g1 F1 → acts_at k g2 F2 →
  g1 (g2 (t !! k)) = g2 (g1 (t !! k)) → F1 (F2 t) = F2 (F1 t).
Proof.
  intros H1 H2 Hg. apply map_eq. intros k'.
  rewrite (H1 (F2 t) k'), (H2 (F1 t) k'), (H2 t k), (H1 t k), (H2 t k'), (H1 t k').
  rewrite !(decide_True (P := k = k)) by reflexivity.
  destruct (decide (k' = k)); [ exact Hg | reflexivity ].
Qed.

Lemma update_where_acts {R} k (cond : R → bool) f :
  acts_at k (fmap (λ r, if cond r then f r else r)) (Sql.update_where k cond f).
Proof.
  intros t k'. rewrite update_where_lookup.
  destruct (decide (k = k')) as [-> | Hne].
  - rewrite decide_True by reflexivity. reflexivity.
  - rewrite decide_False by (intros E; apply Hne; symmetry; exact E). reflexivity.
Qed.

Lemma upsert_acts {R} k (r0 : R) f :
  acts_at k (λ o, Some (match o with Some old => f old | None => r0 end))
          (Sql.upsert k r0 f).
Proof.
  intros t k'. destruct (decide (k' = k)) as [-> | Hne].
  - apply upsert_eq.
  - apply upsert_ne. intros E. apply Hne. symmetry. exact E.
Qed.

Lemma acts_at_compose {R} k g1 g2 (F1 F2 : gmap string R → gmap string R) :
  acts_at k g1 F1 → acts_at k g2 F2 → acts_at k (λ o, g1 (g2 o)) (λ t, F1 (F2 t)).
Proof.
  intros H1 H2 t k'. rewrite (H1 (F2 t) k'), (H2 t k'), (H2 t k).
  rewrite (decide_True (P := k = k)) by reflexivity.
  destruct (decide (k' = k)); reflexivity.
Qed.

Lemma acts_at_id {R} k : acts_at k (λ o : option R, o) (λ t, t).
Proof. intros t k'. destruct (decide (k' = k)) as [-> | ]; reflexivity. Qed.

Lemma part_merge_acts p : ∃ g, acts_at (PartInfo.id p) g (part_merge p).
Proof.
  unfold part_merge. cbv zeta.
  destruct (isStreamingTextPart p); [ destruct (part_textContent p) | ]; eexists.
  - apply (acts_at_compose _ _ _ _ _ (update_where_acts _ _ _) (upsert_acts _ _ _)).
  - apply upsert_acts.
  - apply (acts_at_compose _ _ _ _ _ (update_where_acts _ _ _) (upsert_acts _ _ _)).
Qed.

(** [message_parts] after a part event, as a function of the relation
    alone once the parents the event found are known. *)
Lemma part_merge_found p s :
  ∃ g, acts_at (PartInfo.id p) g
         (λ t, match message_parts s !! PartInfo.id p,
                     messages s !! PartInfo.messageID p,
                     sessions s !! PartInfo.sessionID p with
               | None, None, None => t
               | _, _, _ => part_merge p t
               end).
Proof.
  destruct (part_merge_acts p) as [g Hg].
  destruct (message_parts s !! PartInfo.id p);
    [ exists g; exact Hg | ].
  destruct (messages s !! PartInfo.messageID p);
    [ exists g; exact Hg | ].
  destruct (sessions s !! PartInfo.sessionID p);
    [ exists g; exact Hg | exists (λ o, o); apply acts_at_id ].
Qed.

Lemma offer_text_acts p :
  ∃ g, acts_at (PartInfo.messageID p) g (offer_text p).
Proof.
  unfold offer_text. destruct (part_textContent p);
    [ destruct (bool_decide _) | ];
    first [ eexists; apply update_where_acts | exists (λ o, o); apply acts_at_id ].
Qed.

Lemma part_messages_found p s :
  ∃ g, acts_at (PartInfo.messageID p) g
         (λ t, offer_text p
                 (match messages s !! PartInfo.messageID p,
                        sessions s !! PartInfo.sessionID p with
                  | None, None => t
                  | _, _ =>
                      Sql.upsert (PartInfo.messageID p)
                        (Sql.placeholder_message (PartInfo.sessionID p)) (λ r, r) t
                  end)).
Proof.
  destruct (offer_text_acts p) as [g Hg].
  destruct (messages s !! PartInfo.messageID p);
    [ eexists; apply (acts_at_compose _ _ _ _ _ Hg (upsert_acts _ _ _)) | ].
  destruct (sessions s !! PartInfo.sessionID p);
    [ eexists; apply (acts_at_compose _ _ _ _ _ Hg (upsert_acts _ _ _)) | ].
  exists g. exact Hg.
Qed.

(** The cost update of a part event, on [sessions]. *)
Lemma charged_sessions p s :
  sessions (charged p s)
  = match charge p with
    | Some k =>
        Sql.update_where (PartInfo.sessionID p) Sql.always (charge_row k) (sessions s)
    | None => sessions s
    end.
Proof.
  unfold charged. destruct (charge p) as [k |]; [ | reflexivity ].
  unfold Sql.exec. cbn [Sql.violation].
  destruct (sessions s !! PartInfo.sessionID p) as [r |] eqn:E; cbn [mbind option_bind].
  - unfold Sql.update_where at 1. rewrite E. unfold Sql.always.
    destruct (Sessions.estimated_cost r) as [e |] eqn:Ee.
    + destruct (Numeric.fits (Numeric.add e k)) eqn:Hf;
        cbn [Sql.effect Sql.on_sessions sessions].
      * unfold Sql.update_where. rewrite E. unfold Sql.always, charge_row.
        rewrite Ee, Hf. reflexivity.
      * unfold charge_row. rewrite Ee, Hf. symmetry. apply insert_id, E.
    + cbn [Sql.effect Sql.on_sessions sessions].
      unfold Sql.update_where. rewrite E. unfold Sql.always, charge_row. rewrite Ee.
      reflexivity.
  - cbn [Sql.effect Sql.on_sessions sessions].
    rewrite !update_where_missing by exact E. reflexivity.
Qed.

(** What a part event does to [sessions], as an action at the key of its
    session: on a row that exists it adds the cost or leaves the row. *)
Lemma part_sessions_acts p :
  ∃ g h,
    acts_at (PartInfo.sessionID p) g
      (λ t, Sql.upsert (PartInfo.sessionID p) (Sessions.fresh (Some "active")) (λ r, r)
              (match charge p with
               | Some k =>
                   Sql.update_where (PartInfo.sessionID p) Sql.always (charge_row k) t
               | None => t
               end))
    ∧ (∀ r, g (Some r) = Some (h r))
    ∧ match charge p with Some k => h = charge_row k | None => h = (λ r, r) end.
Proof.
  destruct (charge p) as [k |].
  - eexists _, (charge_row k). split; [ | split ].
    + apply (acts_at_compose _ _ _ _ _ (upsert_acts _ _ _) (update_where_acts _ _ _)).
    + intros r. reflexivity.
    + reflexivity.
  - eexists _, (λ r, r). split; [ apply upsert_acts | ]. split; reflexivity.
Qed.

Lemma charge_row_adds k r e :
  Sessions.estimated_cost r = Some e →
  0 ≤ e → 0 ≤ Num.coefficient k →
  Numeric.fits (e + Numeric.add 0 k) = true →
  charge_row k r = Sql.add_cost k r
  ∧ Sessions.estimated_cost (Sql.add_cost k r) = Some (e + Numeric.add 0 k).
Proof.
  intros Ee He Hk Hf. destruct (add_nonneg e k He Hk) as [Hadd _].
  unfold charge_row. rewrite Ee, Hadd, Hf. split; [ reflexivity | ].
  cbn. rewrite Ee. cbn. rewrite Hadd. reflexivity.
Qed.

Lemma add_cost_twice a b r e :
  Sessions.estimated_cost r = Some e →
  Sessions.estimated_cost (Sql.add_cost a r) = Some (e + Numeric.add 0 a) →
  Sessions.estimated_cost (Sql.add_cost b r) = Some (e + Numeric.add 0 b) →
  Numeric.add (e + Numeric.add 0 a) b = e + Numeric.add 0 a + Numeric.add 0 b →
  Numeric.add (e + Numeric.add 0 b) a = e + Numeric.add 0 b + Numeric.add 0 a →
  Sql.add_cost b (Sql.add_cost a r) = Sql.add_cost a (Sql.add_cost b r).
Proof.
  intros Ee Ea Eb Hab Hba. unfold Sql.add_cost in *. cbn in *. f_equal.
  rewrite Ee in *. cbn in *. injection Ea as Ea. injection Eb as Eb.
  rewrite Ea, Eb, Hab, Hba. f_equal. lia.
Qed.

(** Two costs that add up leave the same row in either order. *)
Lemma charge_row_comm s p1 p2 k1 k2 r :
  costs_add_up s p1 p2 →
  sessions s !! PartInfo.sessionID p1 = Some r →
  charge p1 = Some k1 → charge p2 = Some k2 →
  charge_row k1 (charge_row k2 r) = charge_row k2 (charge_row k1 r).
Proof.
  intros [H1 | [H2 | (Hn1 & Hn2 & Hfit)]] E E1 E2; [ congruence | congruence | ].
  destruct (Sessions.estimated_cost r) as [e |] eqn:Ee.
  - destruct (Hfit r e E Ee) as [He Hf]. unfold cost_of in Hf. rewrite E1, E2 in Hf.
    pose proof (Hn1 k1 E1) as Hk1. pose proof (Hn2 k2 E2) as Hk2.
    destruct (add_nonneg e k1 He Hk1) as [_ H01].
    destruct (add_nonneg e k2 He Hk2) as [_ H02].
    assert (Hf1 : Numeric.fits (e + Numeric.add 0 k1) = true).
    { eapply fits_between; [ | | exact Hf ]; lia. }
    assert (Hf2 : Numeric.fits (e + Numeric.add 0 k2) = true).
    { eapply fits_between; [ | | exact Hf ]; lia. }
    destruct (charge_row_adds k1 r e Ee He Hk1 Hf1) as [-> Ee1].
    destruct (charge_row_adds k2 r e Ee He Hk2 Hf2) as [-> Ee2].
    assert (Hf12 : Numeric.fits (e + Numeric.add 0 k1 + Numeric.add 0 k2) = true)
      by exact Hf.
    assert (Hf21 : Numeric.fits (e + Numeric.add 0 k2 + Numeric.add 0 k1) = true).
    { rewrite <- Hf. f_equal. lia. }
    destruct (charge_row_adds k2 _ _ Ee1 ltac:(lia) Hk2 Hf12) as [-> _].
    destruct (charge_row_adds k1 _ _ Ee2 ltac:(lia) Hk1 Hf21) as [-> _].
    symmetry. apply (add_cost_twice k1 k2 r e Ee Ee1 Ee2).
    + apply (add_nonneg (e + Numeric.add 0 k1) k2); [ lia | exact Hk2 ].
    + apply (add_nonneg (e + Numeric.add 0 k2) k1); [ lia | exact Hk1 ].
  - unfold charge_row. rewrite Ee. cbn. rewrite Ee. cbn.
    unfold Sql.add_cost. cbn. rewrite Ee. reflexivity.
Qed.

(** Costs of opposite signs do not add up: each update is rounded to the
    scale of the column, half a unit away from zero, so the order of
    two part events of one session shows in the stored cost. *)
Example rounded_costs_do_not_commute :
  let p1 := sample_step_finish {| Num.coefficient := 5; Num.exponent := -7 |} in
  let p2 := {| PartInfo.id := "p-refund"; PartInfo.sessionID := "sess-1";
               PartInfo.messageID := "msg-2"; PartInfo.type := "step-finish";
               PartInfo.tool := None; PartInfo.text := None; PartInfo.callID := None;
               PartInfo.state := None;
               PartInfo.cost := Some {| Num.coefficient := -5; Num.exponent := -7 |};
               PartInfo.tokens := None |} in
  let w12 := event sample_late_clock (Event.message_part_updated p2)
               (event sample_later_clock (Event.message_part_updated p1) session_world) in
  let w21 := event sample_later_clock (Event.message_part_updated p1)
               (event sample_late_clock (Event.message_part_updated p2) session_world) in
  Sessions.estimated_cost <$> sessions (store w12) !! "sess-1" = Some (Some 1)
  ∧ Sessions.estimated_cost <$> sessions (store w21) !! "sess-1" = Some (Some (-1)).
Proof. vm_compute. split; reflexivity. Qed.

(** X29. Part events of different messages do not interfere. For two
    [message.part.updated] events with different part ids and
    different message ids, of different sessions or of one session
    whose row is stored and on which their costs add up, the Store
    after both deliveries is the same in either order: each event
    writes the rows of its own part and message, and on a session row
    the two events meet only by adding their costs. *)
Theorem part_events_of_different_messages_commute :
  ∀ (c1 c2 : Clock) (p1 p2 : PartInfo.t) (w : World),
    healthy w →
    PartInfo.id p1 ≠ PartInfo.id p2 →
    PartInfo.messageID p1 ≠ PartInfo.messageID p2 →
    (PartInfo.sessionID p1 = PartInfo.sessionID p2 →
     is_Some (sessions (store w) !! PartInfo.sessionID p1)
     ∧ costs_add_up (store w) p1 p2) →
    store (event c2 (Event.message_part_updated p2)
             (event c1 (Event.message_part_updated p1) w))
    = store (event c1 (Event.message_part_updated p1)
               (event c2 (Event.message_part_updated p2) w)).
Proof.
  intros c1 c2 p1 p2 w Hh Hid Hmid Hsame.
  destruct (message_part_updated_store c1 p1 w (healthy_admits_at c1 w Hh)) as [Hh1 Hs1].
  destruct (message_part_updated_store c2 p2 w (healthy_admits_at c2 w Hh)) as [Hh2 Hs2].
  destruct (message_part_updated_store c2 p2 _ (healthy_admits_at c2 _ Hh1)) as [_ Hs12].
  destruct (message_part_updated_store c1 p1 _ (healthy_admits_at c1 _ Hh2)) as [_ Hs21].
  cbv zeta in Hs1, Hs2, Hs12, Hs21. rewrite Hs12, Hs21, Hs1, Hs2.
  clear Hs1 Hs2 Hs12 Hs21 Hh1 Hh2.
  set (s := store w) in *.
  set (s1 := run_tasks (part_event_tasks p1) s).
  set (s2 := run_tasks (part_event_tasks p2) s).
  destruct (part_event_run p1 s) as (E1 & M1 & P1 & T1 & R1 & C1 & K1).
  destruct (part_event_run p2 s) as (E2 & M2 & P2 & T2 & R2 & C2 & K2).
  destruct (part_event_run p2 s1) as (E12 & M12 & P12 & T12 & R12 & C12 & K12).
  destruct (part_event_run p1 s2) as (E21 & M21 & P21 & T21 & R21 & C21 & K21).
  fold s1 in E1, M1, P1, T1, R1, C1, K1. fold s2 in E2, M2, P2, T2, R2, C2, K2.
  rewrite charged_sessions in E1, E2, E12, E21.
  unfold ensured_messages in M1, M2, M12, M21.
  (* what each event finds is what it would have found first *)
  assert (Hp12 : message_parts s1 !! PartInfo.id p2 = message_parts s !! PartInfo.id p2).
  { rewrite P1. destruct (part_merge_found p1 s) as [g Hg].
    rewrite (Hg (message_parts s)). rewrite decide_False; [ reflexivity | ].
    intros E. apply Hid. symmetry. exact E. }
  assert (Hp21 : message_parts s2 !! PartInfo.id p1 = message_parts s !! PartInfo.id p1).
  { rewrite P2. destruct (part_merge_found p2 s) as [g Hg].
    rewrite (Hg (message_parts s)). rewrite decide_False; [ reflexivity | exact Hid ]. }
  assert (Hm12 : messages s1 !! PartInfo.messageID p2
                 = messages s !! PartInfo.messageID p2).
  { rewrite M1. destruct (part_messages_found p1 s) as [g Hg].
    rewrite (Hg (messages s)). rewrite decide_False; [ reflexivity | ].
    intros E. apply Hmid. symmetry. exact E. }
  assert (Hm21 : messages s2 !! PartInfo.messageID p1
                 = messages s !! PartInfo.messageID p1).
  { rewrite M2. destruct (part_messages_found p2 s) as [g Hg].
    rewrite (Hg (messages s)). rewrite decide_False; [ reflexivity | exact Hmid ]. }
  destruct (part_sessions_acts p1) as (g1 & h1 & Hg1 & Hr1 & Hh1').
  destruct (part_sessions_acts p2) as (g2 & h2 & Hg2 & Hr2 & Hh2').
  assert (Hs12 : is_Some (sessions s1 !! PartInfo.sessionID p2)
                 ↔ is_Some (sessions s !! PartInfo.sessionID p2)).
  { rewrite E1, (Hg1 (sessions s)).
    destruct (decide (PartInfo.sessionID p2 = PartInfo.sessionID p1)) as [Es | ];
      [ | reflexivity ].
    destruct (Hsame (eq_sym Es)) as [[r Er] _]. rewrite Es, Er, Hr1. split; eauto. }
  assert (Hs21 : is_Some (sessions s2 !! PartInfo.sessionID p1)
                 ↔ is_Some (sessions s !! PartInfo.sessionID p1)).
  { rewrite E2, (Hg2 (sessions s)).
    destruct (decide (PartInfo.sessionID p1 = PartInfo.sessionID p2)) as [Es | ];
      [ | reflexivity ].
    destruct (Hsame Es) as [[r Er] _]. rewrite <- Es, Er, Hr2. split; eauto. }
  apply store_ext; try congruence.
  - rewrite E12, E21, E1, E2.
    destruct (decide (PartInfo.sessionID p1 = PartInfo.sessionID p2)) as [Es | Hne].
    + destruct (Hsame Es) as [[r1 Er1] Hcost].
      symmetry. rewrite <- Es in Hg2 |- *. apply (acts_at_same _ _ _ _ _ _ Hg1 Hg2).
      rewrite Er1, Hr1, Hr2, Hr1, Hr2. f_equal.
      destruct (charge p1) as [k1 |] eqn:Ek1; destruct (charge p2) as [k2 |] eqn:Ek2;
        subst h1 h2; try reflexivity.
      apply (charge_row_comm (store w) p1 p2 k1 k2 r1 Hcost Er1 Ek1 Ek2).
    + symmetry. apply (acts_at_comm _ _ _ _ _ _ _ Hne Hg1 Hg2).
  - rewrite M12, M21, Hm12, Hm21.
    rewrite (is_Some_iff_match _ _ _ _ Hs12), (is_Some_iff_match _ _ _ _ Hs21).
    rewrite M1, M2.
    destruct (part_messages_found p1 s) as (f1 & Hf1).
    destruct (part_messages_found p2 s) as (f2 & Hf2).
    symmetry. apply (acts_at_comm _ _ _ _ _ _ _ Hmid Hf1 Hf2).
  - rewrite P12, P21, Hp12, Hp21, Hm12, Hm21.
    rewrite (is_Some_iff_match _ _ _ _ Hs12), (is_Some_iff_match _ _ _ _ Hs21).
    rewrite P1, P2.
    destruct (part_merge_found p1 s) as (f1 & Hf1).
    destruct (part_merge_found p2 s) as (f2 & Hf2).
    symmetry. apply (acts_at_comm _ _ _ _ _ _ _ Hid Hf1 Hf2).
Qed.

Lemma part_events_of_different_messages_commute_witness :
  let p1 := sample_text_part (Some "Hello") in
  let p2 := {| PartInfo.id := "p-finish"; PartInfo.sessionID := "sess-1";
               PartInfo.messageID := "msg-2"; PartInfo.type := "step-finish";
               PartInfo.tool := None; PartInfo.text := None; PartInfo.callID := None;
               PartInfo.state := None;
               PartInfo.cost := Some {| Num.coefficient := 15; Num.exponent := -4 |};
               PartInfo.tokens := None |} in
  let w := event sample_clock
             (Event.message_updated (sample_assistant_message None)) initial_world in
  store (event sample_late_clock (Event.message_part_updated p2)
           (event sample_later_clock (Event.message_part_updated p1) w))
  = store (event sample_later_clock (Event.message_part_updated p1)
             (event sample_late_clock (Event.message_part_updated p2) w)).
Proof.
  intros p1 p2 w.
  assert (Hh : healthy w) by reflexivity.
  assert (Hid : PartInfo.id p1 ≠ PartInfo.id p2) by discriminate.
  assert (Hmid : PartInfo.messageID p1 ≠ PartInfo.messageID p2) by discriminate.
  assert (Hs : is_Some (sessions (store w) !! "sess-1")).
  { eexists. vm_compute. reflexivity. }
  assert (Hcost : costs_add_up (store w) p1 p2) by (left; reflexivity).
  exact (part_events_of_different_messages_commute sample_later_clock sample_late_clock
           p1 p2 w Hh Hid Hmid (λ _, conj Hs Hcost)).
Defined.

End Locality.

